(** * movie_listing_api: comment forest, ratings and ownership policy

    A shallow embedding of [movie_app/models.py], [movie_app/schema.py],
    [movie_app/crud.py] and [movie_app/main.py].

    The relational store is a record of tables; a table is the list of
    its rows in the store's default order (insertion order), so that
    [OFFSET]/[LIMIT] and [first()] read as [skipn]/[firstn] and [find].
    Python integers are [Z].  An operation that commits takes the store
    and returns the new store next to its outcome; a raised exception is
    an outcome of its own.  Timestamps of users and comments are left
    out: no modelled operation reads them.  A Python [float] is a
    binary64 float, [PrimFloat.float]. *)

From Stdlib Require Import ZArith List String Bool Lia QArith Qabs Permutation.
From Stdlib Require Import Uint63 Floats.
Import ListNotations.
Open Scope Z_scope.

(** ** Outcomes *)

(** The exceptions the modelled code raises.  [RequestValidationError]
    is what the web framework raises when a request body is refused by
    its pydantic schema, before the endpoint body runs. *)
Inductive Exn : Type :=
| ValueError (msg : string)
| HTTPException (status_code : Z) (detail : string)
| RequestValidationError (msg : string).

Inductive Outcome (A : Type) : Type :=
| Return (a : A)
| Raise (e : Exn).
Arguments Return {A} a.
Arguments Raise {A} e.

(** The HTTP status a client sees: an [HTTPException] carries its own, a
    refused body is 422, any other exception that leaves an endpoint is
    500, a returned value is 200. *)
Definition status_of {A : Type} (o : Outcome A) : Z :=
  match o with
  | Return _ => 200
  | Raise (HTTPException s _) => s
  | Raise (RequestValidationError _) => 422
  | Raise (ValueError _) => 500
  end.

(** The failure kinds of the specification, read off the status code by
    the names [fastapi.status] gives them ([HTTP_404_NOT_FOUND],
    [HTTP_400_BAD_REQUEST], ...). *)
Inductive ErrorKind : Type :=
| NotFound | Forbidden | Unauthenticated | ValidationError | BadRequest
| ServerError | OtherError.

Definition error_kind (e : Exn) : ErrorKind :=
  match e with
  | RequestValidationError _ => ValidationError
  | ValueError _ => ServerError
  | HTTPException s _ =>
      if s =? 404 then NotFound
      else if s =? 403 then Forbidden
      else if s =? 401 then Unauthenticated
      else if s =? 422 then ValidationError
      else if s =? 400 then BadRequest
      else if s =? 500 then ServerError
      else OtherError
  end.

(** Python truthiness of the values the code tests with [if x:] or
    [x or y]. *)
Definition truthy_int (x : option Z) : bool :=
  match x with
  | Some n => negb (n =? 0)
  | None => false
  end.

Definition truthy_str (x : option string) : bool :=
  match x with
  | Some s => negb (String.eqb s EmptyString)
  | None => false
  end.

(** [x or y] on an optional string and on an optional date. *)
Definition or_str (x y : option string) : option string :=
  if truthy_str x then x else y.

Definition or_date (x y : option Z) : option Z :=
  match x with
  | Some _ => x
  | None => y
  end.

Definition opt_Z_eqb (x y : option Z) : bool :=
  match x, y with
  | Some a, Some b => a =? b
  | None, None => true
  | _, _ => false
  end.

Definition mem_id (x : Z) (l : list Z) : bool := existsb (Z.eqb x) l.

(** An integer as a float, the conversion a division in floats applies
    to an integer operand (faithful to it for integers below [2^63] in
    magnitude; a conversion is exact below [2^53]). *)
Definition float_of_int (z : Z) : float :=
  if z <? 0 then PrimFloat.opp (PrimFloat.of_uint63 (Uint63.of_Z (- z)))
  else PrimFloat.of_uint63 (Uint63.of_Z z).

(** ** models.py *)

Module User.
Record t : Type := mk {
  id : Z;
  first_name : string;
  last_name : string;
  phone_number : string;
  email : string;
  username : string;
  hashed_password : string
}.
End User.

Module Movie.
Record t : Type := mk {
  id : Z;
  title : string;
  description : option string;
  release_date : option Z;
  user_id : Z;
  created_at : Z;
  updated_at : Z
}.
End Movie.

Module Comment.
Record t : Type := mk {
  id : Z;
  comment_text : string;
  movie_id : Z;
  user_id : Z;
  parent_comment_id : option Z
}.
End Comment.

Module Rating.
Record t : Type := mk {
  id : Z;
  rating : Z;
  movie_id : Z;
  user_id : Z
}.
End Rating.

(** The store behind a [Session]. *)
Record DB : Type := mkDB {
  users : list User.t;
  movies : list Movie.t;
  comments : list Comment.t;
  ratings : list Rating.t
}.

Definition empty_db : DB := mkDB [] [] [] [].

(** The key an autoincrement primary key column gives a new row: one
    above every key of the table. *)
Definition next_id (ids : list Z) : Z := 1 + fold_right Z.max 0 ids.

(** The relationship [Comment.replies]: the rows whose
    [parent_comment_id] is the given key. *)
Definition replies_of (cs : list Comment.t) (cid : Z) : list Comment.t :=
  filter (fun r => opt_Z_eqb (Comment.parent_comment_id r) (Some cid)) cs.

(** ** schema.py *)

Module schema.

(** [schema.Comment]: a comment with its replies populated. *)
#[warnings="-register-all"]
Inductive Comment : Type :=
| Node (c : Comment.t) (replies : list Comment).

Definition root (t : Comment) : Comment.t :=
  match t with Node c _ => c end.

Definition replies (t : Comment) : list Comment :=
  match t with Node _ rs => rs end.

(** Number of comments of a tree, and of a list of reply trees. *)
Fixpoint size (t : Comment) : nat :=
  match t with
  | Node _ rs => S (fold_right (fun r n => (size r + n)%nat) O rs)
  end.

Definition size_list (ts : list Comment) : nat :=
  fold_right (fun r n => (size r + n)%nat) O ts.

(** The keys of the comments of a tree, root first. *)
Fixpoint ids (t : Comment) : list Z :=
  match t with
  | Node c rs => Comment.id c :: flat_map ids rs
  end.

Definition ids_list (ts : list Comment) : list Z := flat_map ids ts.

(** [CommentCreate] has the one field of [CommentBase]; a movie id in
    the request body has no field to land in. *)
Record CommentCreate : Type := mkCommentCreate {
  comment_text : string
}.

Record RatingCreate : Type := mkRatingCreate {
  rating : Z
}.

(** [RatingBase.check_rating], the [mode='before'] validator. *)
Definition check_rating (value : Z) : Outcome Z :=
  if (value <? 1) || (value >? 10)
  then Raise (ValueError "Rating must be between 1 and 10")
  else Return value.

(** Building a [RatingCreate] from a request body whose [rating] is an
    integer: a [ValueError] of the validator refuses the body. *)
Definition parse_RatingCreate (value : Z) : Outcome RatingCreate :=
  match check_rating value with
  | Return v => Return (mkRatingCreate v)
  | Raise (ValueError msg) => Raise (RequestValidationError msg)
  | Raise e => Raise e
  end.

(** [AverageRating]: [average_rating: float]. *)
Record AverageRating : Type := mkAverageRating {
  average_rating : float
}.

Record UserCreate : Type := mkUserCreate {
  uc_username : string;
  uc_first_name : string;
  uc_last_name : string;
  uc_phone_number : string;
  uc_email : string;
  uc_password : string
}.

(** [UserUpdate]: every field optional; [None] is a field left unset. *)
Record UserUpdate : Type := mkUserUpdate {
  uu_username : option string;
  uu_first_name : option string;
  uu_last_name : option string;
  uu_phone_number : option string;
  uu_email : option string
}.

(** [MovieCreate] and [MovieUpdate] have the same fields.  The title is
    constrained by [StringConstraints(min_length=1)]: a body with an
    empty title is refused before the endpoint runs and is no value of
    the schema. *)
Record MovieUpdate : Type := mkMovieUpdate {
  title : string;
  description : option string;
  release_date : option Z;
  title_min_length : Nat.leb 1 (String.length title) = true
}.

Definition MovieCreate : Type := MovieUpdate.

Record MovieUpdateResponse : Type := mkMovieUpdateResponse {
  mur_id : Z;
  mur_title : string;
  mur_description : option string;
  mur_release_date : option Z;
  mur_updated_at : Z
}.

(** [MovieDeleteResponse]: the message and the [MovieListing] fields
    of the deleted row. *)
Record MovieDeleteResponse : Type := mkMovieDeleteResponse {
  message : string;
  data : Movie.t
}.

(** [schema.Movie], the body [get_movie_by_id] answers with: the
    [MovieListing] fields and the timestamps of the row, the comments
    and the ratings of the movie, and the average that was attached. *)
Record Movie : Type := mkMovie {
  movie_row : Movie.t;
  movie_comments : list Comment;
  movie_ratings : list Rating.t;
  movie_average_rating : option float
}.

End schema.

(** ** crud.py *)

Module crud.

(** *** Users *)

Definition create_user (db : DB) (user : schema.UserCreate)
    (hashed_password : string) : User.t * DB :=
  let db_user :=
    User.mk (next_id (map User.id (users db)))
            (schema.uc_first_name user) (schema.uc_last_name user)
            (schema.uc_phone_number user) (schema.uc_email user)
            (schema.uc_username user) hashed_password in
  (db_user, mkDB (users db ++ [db_user]) (movies db) (comments db) (ratings db)).

Definition get_user_by_username (db : DB) (username : string) : option User.t :=
  find (fun u => String.eqb (User.username u) username) (users db).

Definition get_user_by_email (db : DB) (email : string) : option User.t :=
  find (fun u => String.eqb (User.email u) email) (users db).

(** [setattr] over the fields that were set. *)
Definition apply_user_update (u : User.t) (user_update : schema.UserUpdate) : User.t :=
  let pick (x : option string) (old : string) :=
    match x with Some v => v | None => old end in
  User.mk (User.id u)
          (pick (schema.uu_first_name user_update) (User.first_name u))
          (pick (schema.uu_last_name user_update) (User.last_name u))
          (pick (schema.uu_phone_number user_update) (User.phone_number u))
          (pick (schema.uu_email user_update) (User.email u))
          (pick (schema.uu_username user_update) (User.username u))
          (User.hashed_password u).

Definition update_user (db : DB) (user_id : Z) (user_update : schema.UserUpdate)
    : option User.t * DB :=
  match find (fun u => User.id u =? user_id) (users db) with
  | None => (None, db)
  | Some db_user =>
      let u' := apply_user_update db_user user_update in
      (Some u',
       mkDB (map (fun u => if User.id u =? user_id then u' else u) (users db))
            (movies db) (comments db) (ratings db))
  end.

(** *** Movies *)

(** [load_replies], the inner function of
    [load_comments_with_replies]: one query per comment, each reply
    loaded with its own replies.  [fuel] bounds the depth of the
    recursion. *)
Fixpoint load_replies_fuel (fuel : nat) (cs : list Comment.t) (cid : Z)
    : list schema.Comment :=
  match fuel with
  | O => []
  | S f =>
      map (fun reply => schema.Node reply (load_replies_fuel f cs (Comment.id reply)))
          (replies_of cs cid)
  end.

Definition load_replies (cs : list Comment.t) (cid : Z) : list schema.Comment :=
  load_replies_fuel (S (List.length cs)) cs cid.

(** A comment with its reply subtree. *)
Definition with_replies (cs : list Comment.t) (c : Comment.t) : schema.Comment :=
  schema.Node c (load_replies cs (Comment.id c)).

Definition load_comments_with_replies (db : DB) (movie_id : Z) : list schema.Comment :=
  map (with_replies (comments db))
      (filter (fun c => (Comment.movie_id c =? movie_id)
                        && opt_Z_eqb (Comment.parent_comment_id c) None)
              (comments db)).

(** [get_movie]: the owner filter is added only when [user_id] is
    truthy. *)
Definition get_movie (db : DB) (id : Z) (user_id : option Z)
    : option (Movie.t * list schema.Comment) :=
  let by_id := fun m => Movie.id m =? id in
  let query :=
    if truthy_int user_id
    then fun m => by_id m && opt_Z_eqb (Some (Movie.user_id m)) user_id
    else by_id in
  match find query (movies db) with
  | Some movie => Some (movie, load_comments_with_replies db (Movie.id movie))
  | None => None
  end.

Definition create_movie (db : DB) (movie : schema.MovieCreate) (user_id : Z) (now : Z)
    : Movie.t * DB :=
  let db_movie :=
    Movie.mk (next_id (map Movie.id (movies db)))
             (schema.title movie) (schema.description movie)
             (schema.release_date movie) user_id now now in
  (db_movie, mkDB (users db) (movies db ++ [db_movie]) (comments db) (ratings db)).

(** The keys [db.delete(comment)] removes: the comment and, through
    the cascade of [Comment.replies], its reply subtree. *)
Definition cascade_ids (cs : list Comment.t) (c : Comment.t) : list Z :=
  schema.ids (with_replies cs c).

(** [db.delete(movie); db.commit()] with [cascade="all, delete-orphan"]
    on [Movie.comments], [Movie.ratings] and [Comment.replies]: every
    comment whose [movie_id] is the movie's goes with it, each with its
    reply subtree, and so does every rating of the movie.  [get_movie]
    has put the root comments alone in [movie.comments]; the replies it
    took out of the collection are orphans and deleted as such, and in
    a well-formed store they are in the subtree of a root anyway
    ([delete_movie_row_by_roots]). *)
Definition delete_movie_row (db : DB) (movie : Movie.t) : DB :=
  let mid := Movie.id movie in
  let gone :=
    flat_map (cascade_ids (comments db))
             (filter (fun c => Comment.movie_id c =? mid) (comments db)) in
  mkDB (users db)
       (filter (fun m => negb (Movie.id m =? mid)) (movies db))
       (filter (fun c => negb (mem_id (Comment.id c) gone)) (comments db))
       (filter (fun r => negb (Rating.movie_id r =? mid)) (ratings db)).

Definition delete_movie (db : DB) (movie_id : Z) (user_id : Z)
    : option Movie.t * DB :=
  match get_movie db movie_id (Some user_id) with
  | None => (None, db)
  | Some (movie, _) => (Some movie, delete_movie_row db movie)
  end.

(** *** Comments *)

Definition create_comment (db : DB) (comment : schema.CommentCreate)
    (user_id : Z) (movie_id : Z) : Outcome Comment.t * DB :=
  match find (fun m => Movie.id m =? movie_id) (movies db) with
  | None => (Raise (ValueError "Movie not found"), db)
  | Some _ =>
      let db_comment :=
        Comment.mk (next_id (map Comment.id (comments db)))
                   (schema.comment_text comment) movie_id user_id None in
      (Return db_comment,
       mkDB (users db) (movies db) (comments db ++ [db_comment]) (ratings db))
  end.

Definition get_comment (db : DB) (comment_id : Z) : option Comment.t :=
  find (fun c => Comment.id c =? comment_id) (comments db).

Definition create_nested_comment (db : DB) (comment : schema.CommentCreate)
    (parent_comment_id : Z) (user_id : Z) : Outcome Comment.t * DB :=
  match get_comment db parent_comment_id with
  | None => (Raise (ValueError "Parent comment does not exist"), db)
  | Some parent_comment =>
      let db_comment :=
        Comment.mk (next_id (map Comment.id (comments db)))
                   (schema.comment_text comment)
                   (Comment.movie_id parent_comment) user_id
                   (Some parent_comment_id) in
      (Return db_comment,
       mkDB (users db) (movies db) (comments db ++ [db_comment]) (ratings db))
  end.

(** [get_comments]: the root comments of the movie, [skip] and [limit]
    applied to them; serialising a row as [schema.Comment] reads its
    [replies] relationship, and the replies' own, all the way down. *)
Definition get_comments (db : DB) (movie_id : Z) (skip limit : nat)
    : Outcome (list schema.Comment) :=
  match find (fun m => Movie.id m =? movie_id) (movies db) with
  | None => Raise (HTTPException 404 "Movie not found")
  | Some _ =>
      let roots :=
        filter (fun c => (Comment.movie_id c =? movie_id)
                         && opt_Z_eqb (Comment.parent_comment_id c) None)
               (comments db) in
      Return (map (with_replies (comments db)) (firstn limit (skipn skip roots)))
  end.

Definition delete_comment (db : DB) (comment_id : Z) : DB :=
  match get_comment db comment_id with
  | Some db_comment =>
      let gone := cascade_ids (comments db) db_comment in
      mkDB (users db) (movies db)
           (filter (fun c => negb (mem_id (Comment.id c) gone)) (comments db))
           (ratings db)
  | None => db
  end.

(** *** Ratings *)

Definition create_rating (db : DB) (rating : schema.RatingCreate)
    (movie_id : Z) (user_id : Z) : Rating.t * DB :=
  let db_rating :=
    Rating.mk (next_id (map Rating.id (ratings db)))
              (schema.rating rating) movie_id user_id in
  (db_rating, mkDB (users db) (movies db) (comments db) (ratings db ++ [db_rating])).

Definition get_ratings (db : DB) (movie_id : Z) (skip limit : nat) : list Rating.t :=
  firstn limit (skipn skip (filter (fun r => Rating.movie_id r =? movie_id) (ratings db))).

(** The values [func.avg] ranges over. *)
Definition rating_values (db : DB) (movie_id : Z) : list Z :=
  map Rating.rating (filter (fun r => Rating.movie_id r =? movie_id) (ratings db)).

(** [func.avg(...).scalar()]: no value over no row, else the mean as a
    float.  The aggregate over an integer column sums the integers,
    converts the sum to a double and divides it by the number of rows
    (SQLite, the engine of [tests/test_app.py]). *)
Definition avg (l : list Z) : option float :=
  match l with
  | [] => None
  | _ :: _ =>
      Some (PrimFloat.div (float_of_int (fold_right Z.add 0 l))
                          (float_of_int (Z.of_nat (List.length l))))
  end.

Definition get_average_rating (db : DB) (movie_id : Z) : option float :=
  avg (rating_values db movie_id).

(** *** Listings of movies *)

Definition get_movies (db : DB) (offset limit : nat) : list Movie.t :=
  firstn limit (skipn offset (movies db)).

Definition get_movie_for_user (db : DB) (user_id : Z) (offset limit : nat)
    : list Movie.t :=
  firstn limit (skipn offset (filter (fun m => Movie.user_id m =? user_id) (movies db))).

End crud.

(** ** main.py

    An endpoint takes the store, its path and body arguments and the
    user [get_current_user] resolved, and gives its outcome and the
    store it leaves.  A commit is taken to succeed. *)

Module main.

Definition signup (db : DB) (user : schema.UserCreate) (hashed_password : string)
    : Outcome User.t * DB :=
  match crud.get_user_by_username db (schema.uc_username user),
        crud.get_user_by_email db (schema.uc_email user) with
  | Some _, _ => (Raise (HTTPException 400 "Username already registered!"), db)
  | None, Some _ => (Raise (HTTPException 400 "Email already registered!"), db)
  | None, None =>
      let (u, db') := crud.create_user db user hashed_password in (Return u, db')
  end.

Definition update_profile (db : DB) (user_update : schema.UserUpdate)
    (current_user : User.t) : option User.t * DB :=
  crud.update_user db (User.id current_user) user_update.

Definition create_movie (db : DB) (payload : schema.MovieCreate) (user : User.t)
    (now : Z) : Movie.t * DB :=
  crud.create_movie db payload (User.id user) now.

(** The fields [update_movie] assigns: [payload.x or movie.x].  The
    column default [onupdate] refreshes [updated_at] when the row
    changed. *)
Definition updated_movie (movie : Movie.t) (payload : schema.MovieUpdate) (now : Z)
    : Movie.t :=
  let title' :=
    if String.eqb (schema.title payload) EmptyString
    then Movie.title movie else schema.title payload in
  let description' := or_str (schema.description payload) (Movie.description movie) in
  let release_date' := or_date (schema.release_date payload) (Movie.release_date movie) in
  let unchanged :=
    String.eqb title' (Movie.title movie)
    && match description', Movie.description movie with
       | Some a, Some b => String.eqb a b
       | None, None => true
       | _, _ => false
       end
    && opt_Z_eqb release_date' (Movie.release_date movie) in
  Movie.mk (Movie.id movie) title' description' release_date'
           (Movie.user_id movie) (Movie.created_at movie)
           (if unchanged then Movie.updated_at movie else now).

Definition update_movie (db : DB) (movie_id : Z) (payload : schema.MovieUpdate)
    (user : User.t) (now : Z) : Outcome schema.MovieUpdateResponse * DB :=
  match find (fun m => (Movie.id m =? movie_id) && (Movie.user_id m =? User.id user))
             (movies db) with
  | None => (Raise (HTTPException 404 "Movie not found"), db)
  | Some movie =>
      let movie' := updated_movie movie payload now in
      (Return (schema.mkMovieUpdateResponse
                 (Movie.id movie') (Movie.title movie') (Movie.description movie')
                 (Movie.release_date movie') (Movie.updated_at movie')),
       mkDB (users db)
            (map (fun m => if Movie.id m =? Movie.id movie then movie' else m) (movies db))
            (comments db) (ratings db))
  end.

Definition delete_movie (db : DB) (movie_id : Z) (user : User.t)
    : Outcome schema.MovieDeleteResponse * DB :=
  match crud.delete_movie db movie_id (User.id user) with
  | (None, db') => (Raise (HTTPException 404 "Movie not found"), db')
  | (Some deleted_movie, db') =>
      (Return (schema.mkMovieDeleteResponse "success" deleted_movie), db')
  end.

Definition add_comment (db : DB) (movie_id : Z) (comment : schema.CommentCreate)
    (current_user : User.t) : Outcome Comment.t * DB :=
  match find (fun m => Movie.id m =? movie_id) (movies db) with
  | None => (Raise (HTTPException 404 "Movie not found"), db)
  | Some _ =>
      match crud.create_comment db comment (User.id current_user) movie_id with
      | (Raise (ValueError e), db') => (Raise (HTTPException 400 e), db')
      | r => r
      end
  end.

Definition get_comments (db : DB) (movie_id : Z) (skip limit : nat)
    : Outcome (list schema.Comment) :=
  crud.get_comments db movie_id skip limit.

Definition add_nested_comment (db : DB) (parent_comment_id : Z)
    (comment : schema.CommentCreate) (current_user : User.t)
    : Outcome Comment.t * DB :=
  match crud.create_nested_comment db comment parent_comment_id (User.id current_user) with
  | (Raise (ValueError e), db') => (Raise (HTTPException 400 e), db')
  | r => r
  end.

Definition delete_comment (db : DB) (comment_id : Z) (current_user : User.t)
    : Outcome string * DB :=
  match crud.get_comment db comment_id with
  | None => (Raise (HTTPException 404 "Comment not found"), db)
  | Some comment =>
      if negb (Comment.user_id comment =? User.id current_user)
      then (Raise (HTTPException 403 "Not authorized to delete this comment"), db)
      else (Return "success"%string, crud.delete_comment db comment_id)
  end.

Definition add_rating (db : DB) (movie_id : Z) (rating : schema.RatingCreate)
    (current_user : User.t) : Outcome Rating.t * DB :=
  match find (fun m => Movie.id m =? movie_id) (movies db) with
  | None => (Raise (HTTPException 404 "Movie not found"), db)
  | Some _ =>
      let (r, db') := crud.create_rating db rating movie_id (User.id current_user) in
      (Return r, db')
  end.

(** The request as the framework serves it: the body is built, and
    validated, before [add_rating] is entered. *)
Definition add_rating_request (db : DB) (movie_id : Z) (value : Z)
    (current_user : User.t) : Outcome Rating.t * DB :=
  match schema.parse_RatingCreate value with
  | Raise e => (Raise e, db)
  | Return rating => add_rating db movie_id rating current_user
  end.

Definition get_ratings (db : DB) (movie_id : Z) (skip limit : nat) : list Rating.t :=
  crud.get_ratings db movie_id skip limit.

Definition get_average_rating (db : DB) (movie_id : Z) : Outcome schema.AverageRating :=
  let average_rating :=
    match crud.get_average_rating db movie_id with
    | None => 0%float
    | Some a => a
    end in
  Return (schema.mkAverageRating average_rating).

Definition get_movies (db : DB) (offset limit : nat) : string * list Movie.t :=
  ("success"%string, crud.get_movies db offset limit).

Definition get_movie_for_user (db : DB) (user : User.t) (offset limit : nat)
    : string * list Movie.t :=
  ("success"%string, crud.get_movie_for_user db (User.id user) offset limit).

(** [get_movie_by_id].  The path parameter is declared a string; the
    store compares it with the integer key, and [movie_id] here is the
    integer it denotes.  No user is passed to [crud.get_movie], and the
    average is attached as [crud.get_average_rating] gives it. *)
Definition get_movie_by_id (db : DB) (movie_id : Z) : Outcome schema.Movie :=
  match crud.get_movie db movie_id None with
  | None => Raise (HTTPException 404 "Movie not found!")
  | Some (movie, movie_comments) =>
      Return (schema.mkMovie
                movie movie_comments
                (filter (fun r => Rating.movie_id r =? Movie.id movie) (ratings db))
                (crud.get_average_rating db movie_id))
  end.

End main.

(** ** The states the application reaches *)

(** One committed request: every endpoint that writes to the store. *)
Inductive step (db : DB) : DB -> Prop :=
| step_signup user hashed_password :
    step db (snd (main.signup db user hashed_password))
| step_update_profile user_update current_user :
    step db (snd (main.update_profile db user_update current_user))
| step_create_movie payload user now :
    step db (snd (main.create_movie db payload user now))
| step_update_movie movie_id payload user now :
    step db (snd (main.update_movie db movie_id payload user now))
| step_delete_movie movie_id user :
    step db (snd (main.delete_movie db movie_id user))
| step_add_comment movie_id comment current_user :
    step db (snd (main.add_comment db movie_id comment current_user))
| step_add_nested_comment parent_comment_id comment current_user :
    step db (snd (main.add_nested_comment db parent_comment_id comment current_user))
| step_delete_comment comment_id current_user :
    step db (snd (main.delete_comment db comment_id current_user))
| step_add_rating movie_id value current_user :
    step db (snd (main.add_rating_request db movie_id value current_user)).

Inductive reachable : DB -> Prop :=
| reachable_empty : reachable empty_db
| reachable_step db db' : reachable db -> step db db' -> reachable db'.

(** ** Integrity of the store

    What the primary keys, the foreign keys and the order of creation
    give: comment keys are distinct; a reply's parent is a stored
    comment of the same movie with a smaller key; comments and ratings
    reference stored movies; user keys are positive. *)

Fixpoint nodupb (l : list Z) : bool :=
  match l with
  | [] => true
  | x :: t => negb (mem_id x t) && nodupb t
  end.

Definition parent_ok (cs : list Comment.t) (c : Comment.t) : bool :=
  match Comment.parent_comment_id c with
  | None => true
  | Some p =>
      match find (fun k => Comment.id k =? p) cs with
      | Some parent =>
          (Comment.movie_id parent =? Comment.movie_id c) && (p <? Comment.id c)
      | None => false
      end
  end.

Definition forest_ok (cs : list Comment.t) : bool := forallb (parent_ok cs) cs.

Definition has_movie (db : DB) (movie_id : Z) : bool :=
  existsb (fun m => Movie.id m =? movie_id) (movies db).

Definition comments_fk (db : DB) : bool :=
  forallb (fun c => has_movie db (Comment.movie_id c)) (comments db).

Definition ratings_fk (db : DB) : bool :=
  forallb (fun r => has_movie db (Rating.movie_id r)) (ratings db).

Definition users_ok (db : DB) : bool :=
  forallb (fun u => 0 <? User.id u) (users db).

Definition wf_comments (cs : list Comment.t) : bool :=
  nodupb (map Comment.id cs) && forest_ok cs.

Definition wf_db (db : DB) : bool :=
  wf_comments (comments db) && comments_fk db && ratings_fk db && users_ok db.

(** The comments of a movie, and its ratings. *)
Definition comments_of (db : DB) (movie_id : Z) : list Comment.t :=
  filter (fun c => Comment.movie_id c =? movie_id) (comments db).

Definition ratings_of (db : DB) (movie_id : Z) : list Rating.t :=
  filter (fun r => Rating.movie_id r =? movie_id) (ratings db).

(** [desc cs x y]: the comment with key [y] replies, directly or through
    other replies, to the comment with key [x]. *)
Inductive desc (cs : list Comment.t) (x : Z) : Z -> Prop :=
| desc_child c :
    In c cs -> Comment.parent_comment_id c = Some x -> desc cs x (Comment.id c)
| desc_step c p :
    In c cs -> Comment.parent_comment_id c = Some p -> desc cs x p ->
    desc cs x (Comment.id c).

(** How many comments have a key above [x]: a bound on the depth of the
    replies below [x]. *)
Definition above (cs : list Comment.t) (x : Z) : nat :=
  List.length (filter (fun c => x <? Comment.id c) cs).

(** How many comments have a key below [x]: a bound on the number of
    ancestors of the comment with key [x]. *)
Definition below (cs : list Comment.t) (x : Z) : nat :=
  List.length (filter (fun c => Comment.id c <? x) cs).

(** A sample store: two users, two movies, a thread of four comments on
    the first movie, one comment on the second, three ratings. *)
Definition alice : User.t := User.mk 1 "Alice" "A" "+12345678901" "a@example.com" "alice" "h1".
Definition bob : User.t := User.mk 2 "Bob" "B" "+12345678902" "b@example.com" "bob" "h2".

Definition sample_db : DB :=
  mkDB [alice; bob]
       [Movie.mk 1 "Heat" (Some "Crime"%string) (Some 728000) 1 10 10;
        Movie.mk 2 "Ran" (Some "Epic"%string) (Some 725000) 2 11 11]
       [Comment.mk 1 "Great movie!" 1 1 None;
        Comment.mk 2 "Agreed" 1 2 (Some 1);
        Comment.mk 3 "Not sure" 1 1 (Some 2);
        Comment.mk 4 "Second thread" 1 2 None;
        Comment.mk 5 "Another reply" 1 2 (Some 1);
        Comment.mk 6 "Third thread" 1 1 None;
        Comment.mk 7 "On Ran" 2 1 None]
       [Rating.mk 1 5 1 1; Rating.mk 2 7 1 2; Rating.mk 3 8 1 1].

(** The store after a signup, a new movie, a comment on it and a reply
    to the comment. *)
Definition thread_db : DB :=
  let db1 := snd (main.signup empty_db
                    (schema.mkUserCreate "alice" "Alice" "A" "+12345678901"
                                         "a@example.com" "secret") "h1") in
  let db2 := snd (main.create_movie
                    db1 (schema.mkMovieUpdate "Heat" (Some "Crime"%string) (Some 728000)
                                              eq_refl) alice 10) in
  let db3 := snd (main.add_comment db2 1 (schema.mkCommentCreate "Great movie!") alice) in
  snd (main.add_nested_comment db3 1 (schema.mkCommentCreate "Agreed") alice).

(** The store after two signups, a new movie and three ratings of it. *)
Definition rated_db : DB :=
  let db1 := snd (main.signup empty_db
                    (schema.mkUserCreate "alice" "Alice" "A" "+12345678901"
                                         "a@example.com" "secret") "h1") in
  let db2 := snd (main.signup db1
                    (schema.mkUserCreate "bob" "Bob" "B" "+12345678902"
                                         "b@example.com" "secret") "h2") in
  let db3 := snd (main.create_movie
                    db2 (schema.mkMovieUpdate "Heat" (Some "Crime"%string) (Some 728000)
                                              eq_refl) alice 10) in
  let db4 := snd (main.add_rating_request db3 1 5 alice) in
  let db5 := snd (main.add_rating_request db4 1 7 bob) in
  snd (main.add_rating_request db5 1 8 alice).

(** ** Vocabulary of the properties *)

(** An outcome that is a failure of the given kind. *)
Definition fails_with {A : Type} (o : Outcome A) (k : ErrorKind) : Prop :=
  match o with
  | Raise e => error_kind e = k
  | Return _ => False
  end.

(** A tree whose every comment carries exactly its stored replies, in
    the store's order, each populated in turn. *)
Fixpoint populated (cs : list Comment.t) (t : schema.Comment) : Prop :=
  match t with
  | schema.Node c rs =>
      map schema.root rs = replies_of cs (Comment.id c)
      /\ fold_right (fun r P => populated cs r /\ P) True rs
  end.

(** The rational a finite float denotes: [m * 2^e], signed. *)
Definition Q_of_float (f : float) : option Q :=
  match Prim2SF f with
  | S754_zero _ => Some 0%Q
  | S754_finite s m e =>
      let n := if s then Zneg m else Zpos m in
      Some (match e with
            | Zneg k => Qmake n (2 ^ k)
            | _ => inject_Z (n * 2 ^ e)
            end)
  | _ => None
  end.

(** [nearest N D M]: the integer [M] is within a half of [N / D]. *)
Definition nearest (N D M : Z) : Prop := 2 * Z.abs (M * D - N) <= D.

(** The root comments of a movie. *)
Definition root_comments (db : DB) (movie_id : Z) : list Comment.t :=
  filter (fun c => (Comment.movie_id c =? movie_id)
                   && opt_Z_eqb (Comment.parent_comment_id c) None)
         (comments db).

Definition sum_Z (l : list Z) : Z := fold_right Z.add 0 l.

(** The arithmetic mean of integers, exact; the list is not empty. *)
Definition exact_mean (l : list Z) : Q :=
  Qmake (sum_Z l) (Z.to_pos (Z.of_nat (List.length l))).

(** ** Further integrity: keys and rating values *)

(** The keys of users, movies and ratings are distinct. *)
Definition keys_ok (db : DB) : bool :=
  nodupb (map User.id (users db))
  && nodupb (map Movie.id (movies db))
  && nodupb (map Rating.id (ratings db)).

(** Every stored rating is within 1..10. *)
Definition ratings_in_range (db : DB) : bool :=
  forallb (fun r => (1 <=? Rating.rating r) && (Rating.rating r <=? 10)) (ratings db).

(** * Proofs *)

(** ** Lists, keys and lookups *)

Lemma mem_id_In (x : Z) (l : list Z) : mem_id x l = true <-> In x l.
Proof.
  unfold mem_id. rewrite existsb_exists. split.
  - intros [y [Hy Heq]]. apply Z.eqb_eq in Heq. now subst.
  - intros H. exists x. split; [assumption | apply Z.eqb_refl].
Qed.

Lemma mem_id_false (x : Z) (l : list Z) : mem_id x l = false <-> ~ In x l.
Proof.
  rewrite <- mem_id_In. destruct (mem_id x l); split; congruence.
Qed.

Lemma nodupb_NoDup (l : list Z) : nodupb l = true <-> NoDup l.
Proof.
  induction l as [|x t IH]; simpl.
  - split; [constructor | reflexivity].
  - rewrite andb_true_iff, negb_true_iff, mem_id_false, IH. split.
    + intros [H1 H2]. now constructor.
    + intros H. inversion H; subst. now split.
Qed.

Lemma fold_max_ge (ids : list Z) (x : Z) : In x ids -> x <= fold_right Z.max 0 ids.
Proof.
  induction ids as [|y t IH]; simpl; [contradiction|].
  intros [->|H]; [lia | specialize (IH H); lia].
Qed.

Lemma fold_max_nonneg (ids : list Z) : 0 <= fold_right Z.max 0 ids.
Proof. induction ids; simpl; lia. Qed.

Lemma next_id_gt (ids : list Z) (x : Z) : In x ids -> x < next_id ids.
Proof. intros H. unfold next_id. pose proof (fold_max_ge ids x H). lia. Qed.

Lemma next_id_pos (ids : list Z) : 0 < next_id ids.
Proof. unfold next_id. pose proof (fold_max_nonneg ids). lia. Qed.

Lemma next_id_fresh (ids : list Z) : ~ In (next_id ids) ids.
Proof. intros H. apply next_id_gt in H. lia. Qed.

Lemma NoDup_snoc (l : list Z) (x : Z) : NoDup l -> ~ In x l -> NoDup (l ++ [x]).
Proof.
  induction l as [|y t IH]; simpl; intros Hnd Hx.
  - constructor; [intros [] | constructor].
  - inversion Hnd; subst. constructor.
    + rewrite in_app_iff. simpl. intros [H|[H|[]]]; [contradiction | subst; tauto].
    + apply IH; tauto.
Qed.

Lemma NoDup_map_filter {A : Type} (key : A -> Z) (f : A -> bool) (l : list A) :
  NoDup (map key l) -> NoDup (map key (filter f l)).
Proof.
  induction l as [|a t IH]; simpl; intros H; [constructor|].
  inversion H; subst. destruct (f a); simpl; [|now apply IH].
  constructor; [|now apply IH].
  rewrite in_map_iff in *. intros [b [Hb Hin]]. apply filter_In in Hin.
  apply H2. exists b. tauto.
Qed.

Lemma NoDup_key_inj {A : Type} (key : A -> Z) (l : list A) (a b : A) :
  NoDup (map key l) -> In a l -> In b l -> key a = key b -> a = b.
Proof.
  induction l as [|c t IH]; simpl; [contradiction|].
  intros Hnd Ha Hb Heq. inversion Hnd; subst.
  destruct Ha as [->|Ha], Hb as [->|Hb]; trivial.
  - exfalso. apply H1. rewrite Heq. now apply in_map.
  - exfalso. apply H1. rewrite <- Heq. now apply in_map.
  - now apply IH.
Qed.

Lemma find_app_some {A : Type} (f : A -> bool) (l l' : list A) (a : A) :
  find f l = Some a -> find f (l ++ l') = Some a.
Proof.
  induction l as [|b t IH]; simpl; [discriminate|].
  destruct (f b); [trivial | apply IH].
Qed.

Lemma find_app_none {A : Type} (f : A -> bool) (l l' : list A) :
  find f l = None -> find f (l ++ l') = find f l'.
Proof.
  induction l as [|b t IH]; simpl; [trivial|].
  destruct (f b); [discriminate | apply IH].
Qed.

Lemma find_filter_some {A : Type} (f keep : A -> bool) (l : list A) (a : A) :
  find f l = Some a -> keep a = true -> find f (filter keep l) = Some a.
Proof.
  induction l as [|b t IH]; simpl; [discriminate|].
  destruct (f b) eqn:Hf.
  - intros [= ->] Hk. rewrite Hk. simpl. now rewrite Hf.
  - intros H Hk. destruct (keep b); simpl; [rewrite Hf|]; now apply IH.
Qed.

Lemma find_key_none {A : Type} (key : A -> Z) (l : list A) (x : Z) :
  find (fun a => key a =? x) l = None <-> ~ In x (map key l).
Proof.
  induction l as [|b t IH]; simpl; [tauto|].
  destruct (key b =? x) eqn:E.
  - apply Z.eqb_eq in E. split; [discriminate | tauto].
  - apply Z.eqb_neq in E. rewrite IH. tauto.
Qed.

Lemma filter_length_split {A : Type} (f g : A -> bool) (l : list A) :
  List.length (filter f l)
  = (List.length (filter f (filter g l))
     + List.length (filter f (filter (fun a => negb (g a)) l)))%nat.
Proof.
  induction l as [|a t IH]; simpl; [reflexivity|].
  destruct (g a), (f a) eqn:Hf; simpl; rewrite ?Hf; simpl; lia.
Qed.

Lemma filter_all {A : Type} (f : A -> bool) (l : list A) :
  (forall a, In a l -> f a = true) -> filter f l = l.
Proof.
  induction l as [|a t IH]; simpl; intros H; [reflexivity|].
  rewrite (H a (or_introl eq_refl)). f_equal. apply IH. intros b Hb. apply H. now right.
Qed.

Lemma filter_none {A : Type} (f : A -> bool) (l : list A) :
  (forall a, In a l -> f a = false) -> filter f l = [].
Proof.
  induction l as [|a t IH]; simpl; intros H; [reflexivity|].
  rewrite (H a (or_introl eq_refl)). apply IH. intros b Hb. apply H. now right.
Qed.

(** ** The comment forest *)

Lemma ids_load_replies_S (f : nat) (cs : list Comment.t) (x : Z) :
  schema.ids_list (crud.load_replies_fuel (S f) cs x)
  = flat_map (fun r => Comment.id r :: schema.ids_list (crud.load_replies_fuel f cs (Comment.id r)))
             (replies_of cs x).
Proof.
  simpl. unfold schema.ids_list.
  induction (replies_of cs x) as [|r t IH]; simpl; [reflexivity|].
  now rewrite IH.
Qed.

Lemma size_load_replies (f : nat) (cs : list Comment.t) (x : Z) :
  schema.size_list (crud.load_replies_fuel f cs x)
  = List.length (schema.ids_list (crud.load_replies_fuel f cs x)).
Proof.
  revert x. induction f as [|f IH]; intros x; [reflexivity|].
  rewrite ids_load_replies_S. simpl.
  induction (replies_of cs x) as [|r t IHt]; simpl; [reflexivity|].
  rewrite length_app, <- IHt. f_equal. f_equal. apply IH.
Qed.

Lemma replies_of_In (cs : list Comment.t) (x : Z) (r : Comment.t) :
  In r (replies_of cs x) <-> In r cs /\ Comment.parent_comment_id r = Some x.
Proof.
  unfold replies_of. rewrite filter_In. unfold opt_Z_eqb.
  destruct (Comment.parent_comment_id r) as [p|].
  - rewrite Z.eqb_eq. split; intros [H1 H2]; split; congruence.
  - split; intros [H1 H2]; discriminate.
Qed.

Lemma filter_length_lt {A : Type} (f g : A -> bool) (l : list A) (a : A) :
  (forall b, In b l -> f b = true -> g b = true) ->
  In a l -> g a = true -> f a = false ->
  (List.length (filter f l) < List.length (filter g l))%nat.
Proof.
  intros Himp Ha Hg Hf.
  assert (Hle : forall l', (forall b, In b l' -> f b = true -> g b = true) ->
                           (List.length (filter f l') <= List.length (filter g l'))%nat).
  { induction l' as [|b t IH]; simpl; intros H; [lia|].
    assert (IH' := IH (fun c Hc => H c (or_intror Hc))).
    destruct (f b) eqn:Hfb.
    - rewrite (H b (or_introl eq_refl) Hfb). simpl. lia.
    - destruct (g b); simpl; lia. }
  induction l as [|b t IH]; simpl in *; [contradiction|].
  destruct Ha as [->|Ha].
  - rewrite Hg, Hf. simpl.
    specialize (Hle t (fun c Hc => Himp c (or_intror Hc))). lia.
  - specialize (IH (fun c Hc => Himp c (or_intror Hc)) Ha).
    destruct (f b) eqn:Hfb.
    + rewrite (Himp b (or_introl eq_refl) Hfb). simpl. lia.
    + destruct (g b); simpl; lia.
Qed.

Lemma above_lt (cs : list Comment.t) (x : Z) (c : Comment.t) :
  In c cs -> x < Comment.id c -> (above cs (Comment.id c) < above cs x)%nat.
Proof.
  intros Hc Hlt. unfold above. apply (filter_length_lt _ _ cs c); trivial.
  - intros b _ H. apply Z.ltb_lt in H. apply Z.ltb_lt. lia.
  - now apply Z.ltb_lt.
  - apply Z.ltb_irrefl.
Qed.

Lemma above_le_length (cs : list Comment.t) (x : Z) : (above cs x <= List.length cs)%nat.
Proof. unfold above. apply filter_length_le. Qed.

Section Forest.

Variable cs : list Comment.t.
Hypothesis Hnd : NoDup (map Comment.id cs).
Hypothesis Hforest : forest_ok cs = true.

Lemma parent_spec (c : Comment.t) (p : Z) :
  In c cs -> Comment.parent_comment_id c = Some p ->
  exists parent, In parent cs /\ Comment.id parent = p
                 /\ find (fun k => Comment.id k =? p) cs = Some parent
                 /\ Comment.movie_id parent = Comment.movie_id c
                 /\ p < Comment.id c.
Proof.
  intros Hc Hp. unfold forest_ok in Hforest.
  rewrite forallb_forall in Hforest. specialize (Hforest c Hc).
  unfold parent_ok in Hforest. rewrite Hp in Hforest.
  destruct (find (fun k => Comment.id k =? p) cs) as [parent|] eqn:E; [|discriminate].
  apply andb_true_iff in Hforest. destruct Hforest as [Hm Hlt].
  apply Z.eqb_eq in Hm. apply Z.ltb_lt in Hlt.
  pose proof (find_some _ _ E) as [Hin Hid]. apply Z.eqb_eq in Hid.
  exists parent. tauto.
Qed.

Lemma parent_lt (c : Comment.t) (p : Z) :
  In c cs -> Comment.parent_comment_id c = Some p -> p < Comment.id c.
Proof.
  intros Hc Hp. destruct (parent_spec c p Hc Hp) as [q H]. tauto.
Qed.

Lemma desc_lt (x y : Z) : desc cs x y -> x < y.
Proof.
  induction 1 as [c Hc Hp | c p Hc Hp _ IH].
  - now apply parent_lt.
  - pose proof (parent_lt c p Hc Hp). lia.
Qed.

Lemma desc_in (x y : Z) : desc cs x y -> exists c, In c cs /\ Comment.id c = y.
Proof. destruct 1 as [c Hc _ | c p Hc _ _]; exists c; tauto. Qed.

(** A reply of a descendant is a descendant. *)
Lemma desc_up (x z y : Z) (r : Comment.t) :
  desc cs z y -> In r cs -> Comment.id r = z ->
  Comment.parent_comment_id r = Some x -> desc cs x y.
Proof.
  intros Hd Hr Hid Hp.
  induction Hd as [c Hc Hpc | c p Hc Hpc _ IH].
  - apply (desc_step cs x c z); trivial. subst z. now apply desc_child.
  - now apply (desc_step cs x c p).
Qed.

(** Who has a descendant either is its parent or has its parent as a
    descendant too. *)
Lemma desc_inv (z x : Z) (a : Comment.t) :
  desc cs z (Comment.id a) -> In a cs ->
  Comment.parent_comment_id a = Some x -> z = x \/ desc cs z x.
Proof.
  intros Hd Ha Hp. remember (Comment.id a) as y eqn:Hy.
  destruct Hd as [c Hc Hpc | c p Hc Hpc Hd].
  - assert (c = a) by now apply (NoDup_key_inj Comment.id cs).
    subst c. left. congruence.
  - assert (c = a) by now apply (NoDup_key_inj Comment.id cs).
    subst c. right. congruence.
Qed.

(** The ancestors of a comment form a chain. *)
Lemma desc_chain (z1 z2 y : Z) :
  desc cs z1 y -> desc cs z2 y -> z1 = z2 \/ desc cs z1 z2 \/ desc cs z2 z1.
Proof.
  intros H1. revert z2.
  induction H1 as [c Hc Hpc | c p Hc Hpc H1 IH]; intros z2 H2.
  - destruct (desc_inv z2 z1 c H2 Hc Hpc) as [->|H]; tauto.
  - destruct (desc_inv z2 p c H2 Hc Hpc) as [->|H]; [tauto|].
    now apply IH.
Qed.

(** Two replies to one comment have no common descendant. *)
Lemma siblings_apart (x y : Z) (a b : Comment.t) :
  In a cs -> In b cs ->
  Comment.parent_comment_id a = Some x -> Comment.parent_comment_id b = Some x ->
  (y = Comment.id a \/ desc cs (Comment.id a) y) ->
  (y = Comment.id b \/ desc cs (Comment.id b) y) ->
  Comment.id a = Comment.id b.
Proof.
  intros Ha Hb Hpa Hpb Hya Hyb.
  pose proof (parent_lt a x Ha Hpa) as Hla.
  pose proof (parent_lt b x Hb Hpb) as Hlb.
  assert (Hcross : forall u v : Comment.t,
             In u cs -> In v cs ->
             Comment.parent_comment_id u = Some x -> x < Comment.id v ->
             desc cs (Comment.id v) (Comment.id u) -> False).
  { intros u v Hu Hv Hpu Hlv Hd.
    destruct (desc_inv _ _ _ Hd Hu Hpu) as [E|D]; [lia|].
    apply desc_lt in D. lia. }
  destruct Hya as [->|Da], Hyb as [Eb|Db].
  - assumption.
  - exfalso. exact (Hcross a b Ha Hb Hpa Hlb Db).
  - exfalso. rewrite Eb in Da. exact (Hcross b a Hb Ha Hpb Hla Da).
  - destruct (desc_chain _ _ _ Da Db) as [E|[D|D]]; [assumption| |].
    + exfalso. exact (Hcross b a Hb Ha Hpb Hla D).
    + exfalso. exact (Hcross a b Ha Hb Hpa Hlb D).
Qed.

(** What [load_replies] collects replies, at some depth, to [x]. *)
Lemma load_replies_sound (f : nat) (x y : Z) :
  In y (schema.ids_list (crud.load_replies_fuel f cs x)) -> desc cs x y.
Proof.
  revert x. induction f as [|f IH]; intros x; [intros []|].
  rewrite ids_load_replies_S, in_flat_map.
  intros [r [Hr Hy]]. apply replies_of_In in Hr. destruct Hr as [Hr Hp].
  destruct Hy as [<-|Hy].
  - now apply desc_child.
  - apply (desc_up x (Comment.id r) y r); auto.
Qed.

(** With fuel above the depth bound, [load_replies] is closed under
    replies. *)
Lemma load_replies_closed (f : nat) (x p : Z) (c : Comment.t) :
  (above cs x < f)%nat ->
  In c cs -> Comment.parent_comment_id c = Some p ->
  (p = x \/ In p (schema.ids_list (crud.load_replies_fuel f cs x))) ->
  In (Comment.id c) (schema.ids_list (crud.load_replies_fuel f cs x)).
Proof.
  revert x. induction f as [|f IH]; intros x Hf Hc Hp Hin; [lia|].
  rewrite ids_load_replies_S, in_flat_map.
  destruct Hin as [->|Hin].
  - exists c. split; [now apply replies_of_In | now left].
  - rewrite ids_load_replies_S, in_flat_map in Hin.
    destruct Hin as [r [Hr Hy]]. exists r. split; [assumption|].
    apply replies_of_In in Hr. destruct Hr as [Hr Hpr].
    pose proof (above_lt cs x r Hr (parent_lt r x Hr Hpr)) as Hab.
    right. apply IH; trivial; [lia|].
    destruct Hy as [Hy|Hy]; [left; congruence | now right].
Qed.

Lemma load_replies_complete (f : nat) (x y : Z) :
  (above cs x < f)%nat -> desc cs x y ->
  In y (schema.ids_list (crud.load_replies_fuel f cs x)).
Proof.
  intros Hf Hd. induction Hd as [c Hc Hp | c p Hc Hp _ IH].
  - apply (load_replies_closed f x x c); auto.
  - apply (load_replies_closed f x p c); auto.
Qed.

(** More fuel than the depth bound changes nothing. *)
Lemma load_replies_fuel_stable (f1 f2 : nat) (x : Z) :
  (above cs x < f1)%nat -> (above cs x < f2)%nat ->
  crud.load_replies_fuel f1 cs x = crud.load_replies_fuel f2 cs x.
Proof.
  revert f2 x. induction f1 as [|f1 IH]; intros f2 x H1 H2; [lia|].
  destruct f2 as [|f2]; [lia|]. simpl.
  apply map_ext_in. intros r Hr. f_equal.
  apply replies_of_In in Hr. destruct Hr as [Hr Hp].
  pose proof (above_lt cs x r Hr (parent_lt r x Hr Hp)).
  apply IH; lia.
Qed.

End Forest.

Lemma NoDup_flat_map_key {A : Type} (key : A -> Z) (g : A -> list Z) (l : list A) :
  NoDup (map key l) ->
  (forall a, In a l -> NoDup (g a)) ->
  (forall a b y, In a l -> In b l -> In y (g a) -> In y (g b) -> key a = key b) ->
  NoDup (flat_map g l).
Proof.
  induction l as [|a t IH]; simpl; intros Hnd Hg Hdis; [constructor|].
  inversion Hnd; subst. apply NoDup_app.
  - apply Hg. now left.
  - apply IH; trivial.
    + intros b Hb. apply Hg. now right.
    + intros b c y Hb Hc. apply Hdis; now right.
  - intros y Hy Hy'. apply in_flat_map in Hy'. destruct Hy' as [b [Hb Hyb]].
    apply H1. rewrite (Hdis a b y); auto. now apply in_map.
Qed.

(** The rows whose key is in a duplicate-free list of stored keys are as
    many as the keys. *)
Lemma filter_by_keys_length {A : Type} (key : A -> Z) (l : list A) (keys : list Z) :
  NoDup (map key l) -> NoDup keys -> incl keys (map key l) ->
  List.length (filter (fun a => mem_id (key a) keys) l) = List.length keys.
Proof.
  intros Hl Hk Hincl.
  rewrite <- (length_map key).
  apply Permutation_length, NoDup_Permutation; trivial.
  - now apply NoDup_map_filter.
  - intros x. rewrite in_map_iff. split.
    + intros [a [<- Ha]]. apply filter_In in Ha. now apply mem_id_In.
    + intros Hx. pose proof (Hincl x Hx) as Hin. apply in_map_iff in Hin.
      destruct Hin as [a [<- Ha]]. exists a. split; trivial.
      apply filter_In. split; trivial. now apply mem_id_In.
Qed.

Lemma cascade_ids_unfold (cs : list Comment.t) (c : Comment.t) :
  crud.cascade_ids cs c
  = Comment.id c
    :: schema.ids_list (crud.load_replies_fuel (S (List.length cs)) cs (Comment.id c)).
Proof. reflexivity. Qed.

Section ForestCount.

Variable cs : list Comment.t.
Hypothesis Hnd : NoDup (map Comment.id cs).
Hypothesis Hforest : forest_ok cs = true.

Lemma load_replies_NoDup (f : nat) (x : Z) :
  NoDup (schema.ids_list (crud.load_replies_fuel f cs x)).
Proof.
  revert x. induction f as [|f IH]; intros x; [constructor|].
  rewrite ids_load_replies_S.
  apply (NoDup_flat_map_key Comment.id).
  - unfold replies_of. now apply NoDup_map_filter.
  - intros a Ha. apply replies_of_In in Ha. destruct Ha as [Ha Hp].
    constructor; [|apply IH].
    intros Hin. apply (load_replies_sound cs) in Hin.
    apply (desc_lt cs Hforest) in Hin. lia.
  - intros a b y Ha Hb Hya Hyb.
    apply replies_of_In in Ha. destruct Ha as [Ha Hpa].
    apply replies_of_In in Hb. destruct Hb as [Hb Hpb].
    apply (siblings_apart cs Hnd Hforest x y a b); trivial.
    + destruct Hya as [E|Hin]; [now left | right].
      now apply (load_replies_sound cs) in Hin.
    + destruct Hyb as [E|Hin]; [now left | right].
      now apply (load_replies_sound cs) in Hin.
Qed.

(** A reply subtree stays within the movie of its root. *)
Lemma desc_movie (x y : Z) (cx cy : Comment.t) :
  desc cs x y -> In cx cs -> Comment.id cx = x -> In cy cs -> Comment.id cy = y ->
  Comment.movie_id cy = Comment.movie_id cx.
Proof.
  intros Hd Hx Hix. revert cy.
  induction Hd as [c Hc Hp | c p Hc Hp Hd IH]; intros cy Hy Hiy.
  - assert (cy = c) by now apply (NoDup_key_inj Comment.id cs).
    subst cy. destruct (parent_spec cs Hforest c x Hc Hp) as [q [Hq [Hiq [_ [Hm _]]]]].
    assert (q = cx) by (apply (NoDup_key_inj Comment.id cs); congruence).
    subst q. congruence.
  - assert (cy = c) by now apply (NoDup_key_inj Comment.id cs).
    subst cy. destruct (parent_spec cs Hforest c p Hc Hp) as [q [Hq [Hiq [_ [Hm _]]]]].
    rewrite <- Hm. now apply IH.
Qed.

Lemma cascade_ids_spec (c : Comment.t) (y : Z) :
  In y (crud.cascade_ids cs c) <-> y = Comment.id c \/ desc cs (Comment.id c) y.
Proof.
  rewrite cascade_ids_unfold.
  split.
  - intros [E|Hin]; [left; congruence | right].
    now apply (load_replies_sound cs) in Hin.
  - intros [->|Hd]; [now left | right].
    apply (load_replies_complete cs Hforest); trivial.
    pose proof (above_le_length cs (Comment.id c)). lia.
Qed.

Lemma cascade_ids_NoDup (c : Comment.t) : NoDup (crud.cascade_ids cs c).
Proof.
  rewrite cascade_ids_unfold.
  constructor; [|apply load_replies_NoDup].
  intros Hin. apply (load_replies_sound cs) in Hin.
  apply (desc_lt cs Hforest) in Hin. lia.
Qed.

Lemma cascade_ids_length (c : Comment.t) :
  List.length (crud.cascade_ids cs c)
  = S (schema.size_list (crud.load_replies cs (Comment.id c))).
Proof.
  rewrite cascade_ids_unfold. unfold crud.load_replies.
  now rewrite size_load_replies.
Qed.

Lemma cascade_ids_stored (c : Comment.t) :
  In c cs -> incl (crud.cascade_ids cs c) (map Comment.id cs).
Proof.
  intros Hc y Hy. apply cascade_ids_spec in Hy. destruct Hy as [->|Hd].
  - now apply in_map.
  - destruct (desc_in cs _ _ Hd) as [k [Hk <-]]. now apply in_map.
Qed.

Lemma cascade_ids_movie (c k : Comment.t) :
  In c cs -> In k cs -> In (Comment.id k) (crud.cascade_ids cs c) ->
  Comment.movie_id k = Comment.movie_id c.
Proof.
  intros Hc Hk Hin. apply cascade_ids_spec in Hin. destruct Hin as [E|Hd].
  - assert (k = c) by now apply (NoDup_key_inj Comment.id cs). now subst.
  - now apply (desc_movie (Comment.id c) (Comment.id k)).
Qed.

(** The cascade leaves no reply behind. *)
Lemma cascade_ids_closed (c k : Comment.t) (p : Z) :
  In k cs -> Comment.parent_comment_id k = Some p ->
  In p (crud.cascade_ids cs c) -> In (Comment.id k) (crud.cascade_ids cs c).
Proof.
  intros Hk Hp Hin. apply cascade_ids_spec. right.
  apply cascade_ids_spec in Hin. destruct Hin as [->|Hd].
  - now apply desc_child.
  - now apply (desc_step cs _ k p).
Qed.

End ForestCount.

(** ** The integrity of the store is kept by every request *)

(** Reduce the projections of a store that is written out. *)
Ltac proj_db := cbn [users movies comments ratings fst snd].

Lemma wf_comments_spec (cs : list Comment.t) :
  wf_comments cs = true <-> NoDup (map Comment.id cs) /\ forest_ok cs = true.
Proof. unfold wf_comments. now rewrite andb_true_iff, nodupb_NoDup. Qed.

Lemma wf_db_spec (db : DB) :
  wf_db db = true <->
  wf_comments (comments db) = true /\ comments_fk db = true
  /\ ratings_fk db = true /\ users_ok db = true.
Proof. unfold wf_db. rewrite !andb_true_iff. tauto. Qed.

Lemma has_movie_spec (db : DB) (x : Z) :
  has_movie db x = true <-> In x (map Movie.id (movies db)).
Proof.
  unfold has_movie. rewrite existsb_exists, in_map_iff.
  split; intros [m [H1 H2]]; exists m.
  - apply Z.eqb_eq in H2. tauto.
  - split; [tauto | now apply Z.eqb_eq].
Qed.

Lemma find_movie_has (db : DB) (x : Z) (m : Movie.t) :
  find (fun k => Movie.id k =? x) (movies db) = Some m -> has_movie db x = true.
Proof.
  intros H. apply find_some in H. destruct H as [Hin Hid].
  apply Z.eqb_eq in Hid. apply has_movie_spec. rewrite <- Hid. now apply in_map.
Qed.

Lemma parent_ok_app (cs l : list Comment.t) (c : Comment.t) :
  parent_ok cs c = true -> parent_ok (cs ++ l) c = true.
Proof.
  unfold parent_ok. destruct (Comment.parent_comment_id c) as [p|]; trivial.
  destruct (find (fun k => Comment.id k =? p) cs) as [q|] eqn:E; [|discriminate].
  now rewrite (find_app_some _ cs l q E).
Qed.

Lemma forest_ok_snoc (cs : list Comment.t) (c : Comment.t) :
  forest_ok cs = true -> parent_ok cs c = true -> forest_ok (cs ++ [c]) = true.
Proof.
  unfold forest_ok. intros H Hc. rewrite forallb_app. apply andb_true_iff. split.
  - rewrite forallb_forall in *. intros k Hk. apply parent_ok_app. now apply H.
  - simpl. now rewrite (parent_ok_app cs [c] c Hc).
Qed.

(** A new row with the next key keeps the comments well formed when its
    parent, if it has one, is stored and of its movie. *)
Lemma wf_comments_snoc (cs : list Comment.t) (text : string) (movie_id user_id : Z)
    (parent : option Z) :
  wf_comments cs = true ->
  (forall p, parent = Some p ->
     exists q, find (fun k => Comment.id k =? p) cs = Some q
               /\ Comment.movie_id q = movie_id) ->
  wf_comments (cs ++ [Comment.mk (next_id (map Comment.id cs)) text movie_id user_id parent])
  = true.
Proof.
  intros Hwf Hp. apply wf_comments_spec in Hwf. destruct Hwf as [Hnd Hf].
  apply wf_comments_spec. split.
  - rewrite map_app. simpl. apply NoDup_snoc; [assumption | apply next_id_fresh].
  - apply forest_ok_snoc; trivial. unfold parent_ok. simpl.
    destruct parent as [p|]; trivial.
    destruct (Hp p eq_refl) as [q [Hq Hm]]. rewrite Hq.
    apply andb_true_iff. split; [now apply Z.eqb_eq|].
    apply Z.ltb_lt. apply next_id_gt.
    apply find_some in Hq. destruct Hq as [Hin Hid]. apply Z.eqb_eq in Hid.
    rewrite <- Hid. now apply in_map.
Qed.

(** Removing a set of keys that is closed under replies keeps the
    comments well formed. *)
Lemma wf_comments_remove (cs : list Comment.t) (gone : list Z) :
  wf_comments cs = true ->
  (forall k p, In k cs -> Comment.parent_comment_id k = Some p ->
               In p gone -> In (Comment.id k) gone) ->
  wf_comments (filter (fun c => negb (mem_id (Comment.id c) gone)) cs) = true.
Proof.
  intros Hwf Hclosed. apply wf_comments_spec in Hwf. destruct Hwf as [Hnd Hf].
  apply wf_comments_spec. split; [now apply NoDup_map_filter|].
  unfold forest_ok. apply forallb_forall. intros k Hk.
  apply filter_In in Hk. destruct Hk as [Hk Hkeep].
  apply negb_true_iff, mem_id_false in Hkeep.
  unfold parent_ok. destruct (Comment.parent_comment_id k) as [p|] eqn:Hp; trivial.
  destruct (parent_spec cs Hf k p Hk Hp) as [q [Hq [Hiq [Hfind [Hm Hlt]]]]].
  rewrite (find_filter_some _ _ cs q Hfind).
  - apply andb_true_iff. split; [now apply Z.eqb_eq | now apply Z.ltb_lt].
  - apply negb_true_iff, mem_id_false. intros Hin. apply Hkeep.
    apply (Hclosed k p); trivial. now rewrite <- Hiq.
Qed.

Lemma wf_comments_delete_comment (db : DB) (comment_id : Z) :
  wf_comments (comments db) = true ->
  wf_comments (comments (crud.delete_comment db comment_id)) = true.
Proof.
  intros Hwf. unfold crud.delete_comment.
  destruct (crud.get_comment db comment_id) as [c|]; trivial. proj_db.
  apply wf_comments_remove; trivial.
  apply wf_comments_spec in Hwf. destruct Hwf as [Hnd Hf].
  intros k p Hk Hp. now apply cascade_ids_closed.
Qed.

Lemma wf_comments_delete_movie_row (db : DB) (movie : Movie.t) :
  wf_comments (comments db) = true ->
  wf_comments (comments (crud.delete_movie_row db movie)) = true.
Proof.
  intros Hwf. unfold crud.delete_movie_row. proj_db.
  apply wf_comments_remove; trivial.
  apply wf_comments_spec in Hwf. destruct Hwf as [Hnd Hf].
  intros k p Hk Hp Hin. apply in_flat_map in Hin. destruct Hin as [c [Hc Hpc]].
  apply in_flat_map. exists c. split; trivial.
  now apply (cascade_ids_closed (comments db) Hf c k p).
Qed.

(** Deleting a movie leaves no comment and no rating of it. *)
Lemma delete_movie_row_comments (db : DB) (movie : Movie.t) (k : Comment.t) :
  In k (comments (crud.delete_movie_row db movie)) ->
  In k (comments db) /\ Comment.movie_id k <> Movie.id movie.
Proof.
  unfold crud.delete_movie_row. proj_db. intros Hk.
  apply filter_In in Hk. destruct Hk as [Hk Hkeep]. split; trivial.
  intros E. apply negb_true_iff, mem_id_false in Hkeep. apply Hkeep.
  apply in_flat_map. exists k. split.
  - apply filter_In. split; trivial. now apply Z.eqb_eq.
  - rewrite cascade_ids_unfold. now left.
Qed.

Lemma delete_movie_row_ratings (db : DB) (movie : Movie.t) (r : Rating.t) :
  In r (ratings (crud.delete_movie_row db movie)) <->
  In r (ratings db) /\ Rating.movie_id r <> Movie.id movie.
Proof.
  unfold crud.delete_movie_row. simpl. rewrite filter_In, negb_true_iff, Z.eqb_neq.
  tauto.
Qed.

Lemma delete_movie_row_has_movie (db : DB) (movie : Movie.t) (x : Z) :
  has_movie db x = true -> x <> Movie.id movie ->
  has_movie (crud.delete_movie_row db movie) x = true.
Proof.
  rewrite !has_movie_spec. unfold crud.delete_movie_row. simpl.
  rewrite !in_map_iff. intros [m [Hid Hm]] Hne. exists m. split; trivial.
  apply filter_In. split; trivial. apply negb_true_iff, Z.eqb_neq. congruence.
Qed.

Lemma wf_db_delete_movie_row (db : DB) (movie : Movie.t) :
  wf_db db = true -> wf_db (crud.delete_movie_row db movie) = true.
Proof.
  intros Hwf. apply wf_db_spec in Hwf. destruct Hwf as [Hc [Hcf [Hrf Hu]]].
  apply wf_db_spec. repeat split.
  - now apply wf_comments_delete_movie_row.
  - unfold comments_fk in *. rewrite forallb_forall in *. intros k Hk.
    apply delete_movie_row_comments in Hk. destruct Hk as [Hk Hne].
    apply delete_movie_row_has_movie; auto.
  - unfold ratings_fk in *. rewrite forallb_forall in *. intros r Hr.
    apply delete_movie_row_ratings in Hr. destruct Hr as [Hr Hne].
    apply delete_movie_row_has_movie; auto.
  - exact Hu.
Qed.

Lemma wf_db_delete_comment (db : DB) (comment_id : Z) :
  wf_db db = true -> wf_db (crud.delete_comment db comment_id) = true.
Proof.
  intros Hwf. pose proof Hwf as Hwf'.
  apply wf_db_spec in Hwf. destruct Hwf as [Hc [Hcf [Hrf Hu]]].
  apply wf_db_spec. split; [now apply wf_comments_delete_comment|].
  unfold crud.delete_comment.
  destruct (crud.get_comment db comment_id) as [c|]; [|tauto].
  repeat split; trivial.
  unfold comments_fk, has_movie in *. simpl. rewrite forallb_forall in *.
  intros k Hk. apply filter_In in Hk. now apply Hcf.
Qed.

Lemma wf_db_create_comment (db : DB) (comment : schema.CommentCreate) (user_id movie_id : Z) :
  wf_db db = true -> wf_db (snd (crud.create_comment db comment user_id movie_id)) = true.
Proof.
  intros Hwf. unfold crud.create_comment.
  destruct (find (fun m => Movie.id m =? movie_id) (movies db)) as [m|] eqn:E; trivial.
  apply find_movie_has in E.
  apply wf_db_spec in Hwf. destruct Hwf as [Hc [Hcf [Hrf Hu]]].
  apply wf_db_spec. simpl. repeat split; trivial.
  - apply wf_comments_snoc; trivial. discriminate.
  - unfold comments_fk, has_movie in *. simpl. rewrite forallb_app. simpl.
    now rewrite Hcf, E.
Qed.

Lemma wf_db_create_nested_comment (db : DB) (comment : schema.CommentCreate)
    (parent_comment_id user_id : Z) :
  wf_db db = true ->
  wf_db (snd (crud.create_nested_comment db comment parent_comment_id user_id)) = true.
Proof.
  intros Hwf. unfold crud.create_nested_comment, crud.get_comment.
  destruct (find (fun c => Comment.id c =? parent_comment_id) (comments db))
    as [q|] eqn:E; trivial.
  apply wf_db_spec in Hwf. destruct Hwf as [Hc [Hcf [Hrf Hu]]].
  apply wf_db_spec. simpl. repeat split; trivial.
  - apply wf_comments_snoc; trivial. intros p [= <-]. now exists q.
  - pose proof (find_some _ _ E) as [Hq _].
    unfold comments_fk, has_movie in *. simpl. rewrite forallb_app. simpl.
    rewrite Hcf. rewrite forallb_forall in Hcf. now rewrite (Hcf q Hq).
Qed.

Lemma wf_db_add_rating (db : DB) (movie_id : Z) (rating : schema.RatingCreate)
    (current_user : User.t) :
  wf_db db = true -> wf_db (snd (main.add_rating db movie_id rating current_user)) = true.
Proof.
  intros Hwf. unfold main.add_rating.
  destruct (find (fun m => Movie.id m =? movie_id) (movies db)) as [m|] eqn:E; trivial.
  apply find_movie_has in E.
  apply wf_db_spec in Hwf. destruct Hwf as [Hc [Hcf [Hrf Hu]]].
  apply wf_db_spec. simpl. repeat split; trivial.
  unfold ratings_fk, has_movie in *. simpl. rewrite forallb_app. simpl.
  now rewrite Hrf, E.
Qed.

Lemma wf_db_movies_ext (db : DB) (ms : list Movie.t) :
  (forall x, In x (map Movie.id (movies db)) -> In x (map Movie.id ms)) ->
  wf_db db = true -> wf_db (mkDB (users db) ms (comments db) (ratings db)) = true.
Proof.
  intros Hsub Hwf. apply wf_db_spec in Hwf. destruct Hwf as [Hc [Hcf [Hrf Hu]]].
  apply wf_db_spec. simpl. repeat split; trivial.
  - unfold comments_fk in *. rewrite forallb_forall in *. intros k Hk. simpl in Hk.
    apply has_movie_spec. simpl. apply Hsub. apply has_movie_spec. now apply Hcf.
  - unfold ratings_fk in *. rewrite forallb_forall in *. intros r Hr. simpl in Hr.
    apply has_movie_spec. simpl. apply Hsub. apply has_movie_spec. now apply Hrf.
Qed.

Lemma wf_db_users_ext (db : DB) (us : list User.t) :
  (forall u, In u us -> 0 < User.id u) ->
  wf_db db = true -> wf_db (mkDB us (movies db) (comments db) (ratings db)) = true.
Proof.
  intros Hpos Hwf. apply wf_db_spec in Hwf. destruct Hwf as [Hc [Hcf [Hrf Hu]]].
  apply wf_db_spec. simpl. repeat split; trivial.
  unfold users_ok. simpl. apply forallb_forall. intros u Hu'.
  apply Z.ltb_lt. now apply Hpos.
Qed.

Lemma users_ok_spec (db : DB) (u : User.t) :
  wf_db db = true -> In u (users db) -> 0 < User.id u.
Proof.
  intros Hwf Hu. apply wf_db_spec in Hwf. destruct Hwf as [_ [_ [_ H]]].
  unfold users_ok in H. rewrite forallb_forall in H. apply Z.ltb_lt. now apply H.
Qed.

Lemma step_wf (db db' : DB) : wf_db db = true -> step db db' -> wf_db db' = true.
Proof.
  intros Hwf Hstep. destruct Hstep.
  - unfold main.signup.
    destruct (crud.get_user_by_username db _); trivial.
    destruct (crud.get_user_by_email db _); trivial.
    simpl. apply wf_db_users_ext; trivial. intros u Hu.
    apply in_app_iff in Hu. destruct Hu as [Hu|[<-|[]]].
    + now apply (users_ok_spec db).
    + simpl. apply next_id_pos.
  - unfold main.update_profile, crud.update_user.
    destruct (find _ (users db)) as [old|] eqn:E; trivial. simpl.
    apply wf_db_users_ext; trivial. intros u Hu.
    apply in_map_iff in Hu. destruct Hu as [v [<- Hv]].
    destruct (User.id v =? User.id current_user).
    + simpl. apply find_some in E. now apply (users_ok_spec db).
    + now apply (users_ok_spec db).
  - unfold main.create_movie, crud.create_movie. simpl.
    apply wf_db_movies_ext; trivial. intros x Hx.
    rewrite map_app, in_app_iff. now left.
  - unfold main.update_movie.
    destruct (find _ (movies db)) as [movie|] eqn:E; trivial. simpl.
    apply wf_db_movies_ext; trivial. intros x Hx.
    rewrite map_map. apply in_map_iff in Hx. destruct Hx as [m [<- Hm]].
    apply in_map_iff. exists m. split; trivial.
    destruct (Movie.id m =? Movie.id movie) eqn:Em; trivial.
    apply Z.eqb_eq in Em. simpl. congruence.
  - unfold main.delete_movie, crud.delete_movie.
    destruct (crud.get_movie db movie_id _) as [[movie trees]|]; trivial.
    simpl. now apply wf_db_delete_movie_row.
  - unfold main.add_comment.
    destruct (find _ (movies db)) as [m|] eqn:E; trivial.
    pose proof (wf_db_create_comment db comment (User.id current_user) movie_id Hwf) as H.
    destruct (crud.create_comment db comment (User.id current_user) movie_id)
      as [[c|[msg|s d|msg]] d']; exact H.
  - unfold main.add_nested_comment.
    pose proof (wf_db_create_nested_comment db comment parent_comment_id
                  (User.id current_user) Hwf) as H.
    destruct (crud.create_nested_comment db comment parent_comment_id (User.id current_user))
      as [[c|[msg|s d|msg]] d']; exact H.
  - unfold main.delete_comment.
    destruct (crud.get_comment db comment_id) as [c|]; trivial.
    destruct (negb _); trivial. simpl. now apply wf_db_delete_comment.
  - unfold main.add_rating_request.
    destruct (schema.parse_RatingCreate value) as [rating|e]; trivial.
    now apply wf_db_add_rating.
Qed.

(** Every store the application reaches is well formed. *)
Lemma reachable_wf (db : DB) : reachable db -> wf_db db = true.
Proof.
  induction 1 as [|db db' _ IH Hstep]; [reflexivity|].
  now apply (step_wf db db').
Qed.

(** ** Deleting a movie through its root comments *)

Lemma desc_trans (cs : list Comment.t) (x y z : Z) :
  desc cs x y -> desc cs y z -> desc cs x z.
Proof.
  intros Hxy Hyz. induction Hyz as [c Hc Hp | c p Hc Hp _ IH].
  - now apply (desc_step cs x c y).
  - now apply (desc_step cs x c p).
Qed.

(** Every comment is a root or in the reply subtree of a root of its
    movie. *)
Lemma under_a_root (cs : list Comment.t) (n : nat) (k : Comment.t) :
  forest_ok cs = true -> (below cs (Comment.id k) < n)%nat -> In k cs ->
  exists r, In r cs /\ Comment.parent_comment_id r = None
            /\ Comment.movie_id r = Comment.movie_id k
            /\ In (Comment.id k) (crud.cascade_ids cs r).
Proof.
  intros Hf. revert k. induction n as [|n IH]; intros k Hn Hk; [lia|].
  destruct (Comment.parent_comment_id k) as [p|] eqn:Hp.
  - destruct (parent_spec cs Hf k p Hk Hp) as [q [Hq [Hiq [_ [Hm Hlt]]]]].
    assert (Hb : (below cs (Comment.id q) < below cs (Comment.id k))%nat).
    { unfold below. apply (filter_length_lt _ _ cs q); trivial.
      - intros b _ H. apply Z.ltb_lt in H. apply Z.ltb_lt. lia.
      - apply Z.ltb_lt. lia.
      - apply Z.ltb_irrefl. }
    destruct (IH q) as [r [Hr [Hroot [Hmr Hin]]]]; [lia | assumption|].
    exists r. repeat split; trivial; [congruence|].
    apply (cascade_ids_closed cs Hf r k p); trivial. now rewrite <- Hiq.
  - exists k. repeat split; trivial. rewrite cascade_ids_unfold. now left.
Qed.

(** In a well-formed store the comments deleted with a movie are those
    reached from its root comments through [Comment.replies]. *)
Lemma delete_movie_row_by_roots (db : DB) (movie_id y : Z) :
  wf_comments (comments db) = true ->
  In y (flat_map (crud.cascade_ids (comments db)) (comments_of db movie_id))
  <-> In y (flat_map (crud.cascade_ids (comments db)) (root_comments db movie_id)).
Proof.
  intros Hwf. apply wf_comments_spec in Hwf. destruct Hwf as [Hnd Hf].
  rewrite !in_flat_map. split.
  - intros [k [Hk Hy]]. unfold comments_of in Hk. apply filter_In in Hk.
    destruct Hk as [Hk Hm]. apply Z.eqb_eq in Hm.
    destruct (under_a_root (comments db) (S (below (comments db) (Comment.id k))) k Hf)
      as [r [Hr [Hroot [Hmr Hin]]]]; [lia | assumption|].
    exists r. split.
    + unfold root_comments. apply filter_In. split; trivial.
      rewrite Hroot. apply andb_true_iff. split; [apply Z.eqb_eq; congruence | reflexivity].
    + apply (cascade_ids_spec _ Hf) in Hy. apply (cascade_ids_spec _ Hf) in Hin.
      apply (cascade_ids_spec _ Hf).
      destruct Hy as [->|Hy]; [assumption|].
      destruct Hin as [E|Hin]; right; [now rewrite <- E | now apply (desc_trans _ _ (Comment.id k))].
  - intros [r [Hr Hy]]. exists r. split; trivial.
    unfold root_comments in Hr. apply filter_In in Hr. destruct Hr as [Hr Hq].
    apply andb_true_iff in Hq. unfold comments_of. apply filter_In. tauto.
Qed.

(** ** Floats: the quotient of two integers

    [Prim2SF] and the axioms of [FloatAxioms] give the primitive
    operations their meaning on [spec_float]; what follows computes
    that meaning for the conversion of an integer below [2^53] and for
    the quotient of two such floats. *)

Lemma digits2_pos_size p : digits2_pos p = Pos.size p.
Proof. induction p; simpl; congruence. Qed.

Lemma digits2_pos_bounds p k :
  0 < k -> 2 ^ (k - 1) <= Zpos p < 2 ^ k -> Zpos (digits2_pos p) = k.
Proof.
  intros Hk [Hlo Hhi]. rewrite digits2_pos_size.
  assert (Hlog : Z.log2 (Zpos p) = k - 1).
  { apply Z.log2_unique; [lia|]. replace (Z.succ (k - 1)) with k by lia. split; assumption. }
  destruct p as [p|p|]; cbn [Z.log2 Pos.size] in *; lia.
Qed.

Lemma digits2_pos_53 p : 2 ^ 52 <= Zpos p < 2 ^ 53 -> Zpos (digits2_pos p) = 53.
Proof. intros H. apply digits2_pos_bounds; [lia|exact H]. Qed.

Lemma digits2_pos_54 p : 2 ^ 53 <= Zpos p < 2 ^ 54 -> Zpos (digits2_pos p) = 54.
Proof. intros H. apply digits2_pos_bounds; [lia|exact H]. Qed.

Lemma iter_xO_pow p k : Zpos (Pos.iter xO p k) = Zpos p * 2 ^ Zpos k.
Proof.
  induction k as [|k IH] using Pos.peano_ind.
  - cbn [Pos.iter]. rewrite Z.pow_1_r. lia.
  - rewrite Pos.iter_succ, Pos2Z.inj_succ, Z.pow_succ_r by lia.
    rewrite Pos2Z.inj_xO, IH. ring.
Qed.

Lemma fexp_normal e : -1074 <= e - 53 -> fexp prec emax e = e - 53.
Proof.
  intros H. unfold fexp, SpecFloat.emin, prec, emax. lia.
Qed.

Lemma shr_fexp_53 m e l :
  2 ^ 52 <= m < 2 ^ 53 -> -1074 <= e ->
  shr_fexp prec emax m e l = (shr_record_of_loc m l, e).
Proof.
  intros Hm He. destruct m as [|p|p]; try lia.
  unfold shr_fexp. cbn [Zdigits2]. rewrite (digits2_pos_53 p Hm).
  rewrite fexp_normal by lia.
  replace (53 + e - 53 - e) with 0 by lia. reflexivity.
Qed.

Lemma shr_fexp_54 m e l :
  2 ^ 53 <= m < 2 ^ 54 -> -1075 <= e ->
  shr_fexp prec emax m e l = (shr_1 (shr_record_of_loc m l), e + 1).
Proof.
  intros Hm He. destruct m as [|p|p]; try lia.
  unfold shr_fexp. cbn [Zdigits2]. rewrite (digits2_pos_54 p Hm).
  rewrite fexp_normal by lia.
  replace (54 + e - 53 - e) with 1 by lia. reflexivity.
Qed.

Lemma loc_of_shr_record_of_loc m l :
  loc_of_shr_record (shr_record_of_loc m l) = l.
Proof. destruct l as [|[| |]]; reflexivity. Qed.

Lemma shr_m_of_loc m l : shr_m (shr_record_of_loc m l) = m.
Proof. destruct l as [|[| |]]; reflexivity. Qed.

(** The second normalisation of [binary_round_aux]: a rounded mantissa
    of 53 bits stays, one that reached [2^53] is halved. *)
Lemma binary_round_aux_normal s q e l mrs E :
  shr_fexp prec emax q e l = (mrs, E) ->
  let M := round_nearest_even (shr_m mrs) (loc_of_shr_record mrs) in
  2 ^ 52 <= M <= 2 ^ 53 -> -1074 <= E <= 969 ->
  binary_round_aux prec emax s q e l
  = if M =? 2 ^ 53 then S754_finite s (2 ^ 52)%positive (E + 1)
    else S754_finite s (Z.to_pos M) E.
Proof.
  intros Hshr M HM HE. unfold binary_round_aux. rewrite Hshr. fold M.
  destruct (Z.eqb_spec M (2 ^ 53)) as [Heq|Hne].
  - rewrite Heq. rewrite shr_fexp_54 by lia. cbn [shr_record_of_loc shr_1 shr_m].
    change (2 ^ 53) with (Zpos (xO (2 ^ 52)%positive)). cbn [shr_1 shr_m orb].
    replace (E + 1 <=? emax - prec) with true; [reflexivity|].
    symmetry. apply Z.leb_le. unfold emax, prec. lia.
  - rewrite shr_fexp_53 by lia. rewrite shr_m_of_loc.
    destruct M as [|p|p]; try lia. cbn [Z.to_pos].
    replace (E <=? emax - prec) with true; [reflexivity|].
    symmetry. apply Z.leb_le. unfold emax, prec. lia.
Qed.

(** An integer below [2^53] is a float: its mantissa is shifted to 53 bits. *)
Lemma binary_normalize_int (a d : Z) :
  1 <= d <= 53 -> 2 ^ (d - 1) <= a < 2 ^ d ->
  binary_normalize prec emax a 0 false
  = S754_finite false (Z.to_pos (a * 2 ^ (53 - d))) (d - 53).
Proof.
  intros Hd Ha.
  assert (Hpos : 0 < 2 ^ (d - 1)) by (apply Z.pow_pos_nonneg; lia).
  destruct a as [|p|p]; try lia.
  unfold binary_normalize, binary_round.
  rewrite (digits2_pos_bounds p d) by lia.
  rewrite fexp_normal by lia. unfold shl_align.
  assert (Hnorm : forall mz, Zpos mz = Zpos p * 2 ^ (53 - d) ->
            binary_round_aux prec emax false (Zpos mz) (d - 53) loc_Exact
            = S754_finite false mz (d - 53)).
  { intros mz Hmz.
    assert (Hrange : 2 ^ 52 <= Zpos mz < 2 ^ 53).
    { assert (H52 : 2 ^ 52 = 2 ^ (d - 1) * 2 ^ (53 - d))
        by (rewrite <- Z.pow_add_r by lia; f_equal; lia).
      assert (H53 : 2 ^ 53 = 2 ^ d * 2 ^ (53 - d))
        by (rewrite <- Z.pow_add_r by lia; f_equal; lia).
      assert (0 < 2 ^ (53 - d)) by (apply Z.pow_pos_nonneg; lia).
      rewrite Hmz, H52, H53.
      split; [apply Z.mul_le_mono_nonneg_r; lia | apply Z.mul_lt_mono_pos_r; lia]. }
    erewrite binary_round_aux_normal; [| apply shr_fexp_53; lia | | lia];
      rewrite shr_m_of_loc, loc_of_shr_record_of_loc; cbn [round_nearest_even].
    - destruct (Z.eqb_spec (Zpos mz) (2 ^ 53)); [lia|reflexivity].
    - lia. }
  destruct (d + 0 - 53 - 0) as [|k|k] eqn:Hk.
  - assert (d = 53) by lia. subst d. rewrite Z.sub_diag, Z.pow_0_r, Z.mul_1_r.
    cbn [Z.to_pos]. apply Hnorm. rewrite Z.sub_diag, Z.pow_0_r. lia.
  - lia.
  - replace (d + 0 - 53) with (d - 53) by lia.
    assert (Hmz : Zpos (Pos.iter xO p k) = Zpos p * 2 ^ (53 - d)).
    { rewrite iter_xO_pow. f_equal. f_equal. lia. }
    rewrite <- Hmz. cbn [Z.to_pos]. apply Hnorm. exact Hmz.
Qed.

Lemma new_location_spec D r :
  0 < D -> 0 <= r < D ->
  match new_location D r with
  | loc_Exact => r = 0
  | loc_Inexact Lt => 0 < r /\ 2 * r < D
  | loc_Inexact Eq => 2 * r = D
  | loc_Inexact Gt => D <= 2 * r
  end.
Proof.
  intros HD Hr. unfold new_location, new_location_even, new_location_odd.
  destruct (Z.even D); destruct (Z.eqb_spec r 0) as [H0|H0]; try exact H0.
  - destruct (Z.compare_spec (2 * r) D); lia.
  - destruct (Z.compare_spec (2 * r + 1) D); lia.
Qed.

Lemma nearest_ge N D M c : 0 < D -> nearest N D M -> c * D <= N -> c <= M.
Proof.
  unfold nearest. intros HD HM Hc.
  destruct (Z_le_gt_dec c M) as [|Hgt]; [assumption|exfalso].
  assert (M * D <= (c - 1) * D) by (apply Z.mul_le_mono_nonneg_r; lia).
  lia.
Qed.

Lemma nearest_le N D M c : 0 < D -> nearest N D M -> N <= c * D -> M <= c.
Proof.
  unfold nearest. intros HD HM Hc.
  destruct (Z_le_gt_dec M c) as [|Hgt]; [assumption|exfalso].
  assert ((c + 1) * D <= M * D) by (apply Z.mul_le_mono_nonneg_r; lia).
  lia.
Qed.

Lemma round_nearest_even_53 q r D :
  0 < D -> 0 <= r < D ->
  nearest (D * q + r) D (round_nearest_even q (new_location D r)).
Proof.
  intros HD Hr. pose proof (new_location_spec D r HD Hr) as Hloc.
  unfold nearest.
  destruct (new_location D r) as [|[| |]]; cbn [round_nearest_even].
  - lia.
  - destruct (Z.even q); lia.
  - lia.
  - lia.
Qed.

Lemma round_nearest_even_54 q r D :
  0 < q -> 0 < D -> 0 <= r < D ->
  let mrs := shr_1 (shr_record_of_loc q (new_location D r)) in
  nearest (D * q + r) (D * 2) (round_nearest_even (shr_m mrs) (loc_of_shr_record mrs)).
Proof.
  intros Hq HD Hr mrs. pose proof (new_location_spec D r HD Hr) as Hloc.
  unfold nearest. subst mrs.
  destruct q as [|[p|p|]|p]; try lia;
    destruct (new_location D r) as [|[| |]];
    cbn [shr_record_of_loc shr_1 shr_m loc_of_shr_record orb round_nearest_even];
    try rewrite Pos2Z.inj_xI; try rewrite Pos2Z.inj_xO;
    try (destruct (Z.even (Z.pos p))); try lia.
  change (Z.even 0) with true. cbv iota. lia.
Qed.

Lemma div_eucl_bounds N D q r lo hi :
  0 < D -> N = D * q + r -> 0 <= r < D -> lo * D <= N < hi * D -> lo <= q < hi.
Proof.
  intros HD HN Hr [Hlo Hhi].
  assert (Hq : q = N / D) by (apply (Z.div_unique_pos N D q r); lia).
  subst q. split.
  - apply Z.div_le_lower_bound; lia.
  - apply Z.div_lt_upper_bound; lia.
Qed.

(** The quotient of two normal floats of the same sign: the mantissa is
    the nearest integer to the scaled quotient of the mantissas. *)
Lemma SF64div_normal m1 e1 m2 e2 :
  2 ^ 52 <= Zpos m1 < 2 ^ 53 -> 2 ^ 52 <= Zpos m2 < 2 ^ 53 ->
  -900 <= e1 - e2 <= 900 ->
  let sh := if Zpos m2 <=? Zpos m1 then 1 else 0 in
  exists M,
    2 ^ 52 <= M <= 2 ^ 53
    /\ nearest (Zpos m1 * 2 ^ 53) (Zpos m2 * 2 ^ sh) M
    /\ SF64div (S754_finite false m1 e1) (S754_finite false m2 e2)
       = if M =? 2 ^ 53
         then S754_finite false (2 ^ 52)%positive (e1 - e2 - 53 + sh + 1)
         else S754_finite false (Z.to_pos M) (e1 - e2 - 53 + sh).
Proof.
  intros H1 H2 He sh.
  unfold SF64div, SFdiv, SFdiv_core_binary. cbn [Zdigits2 xorb].
  rewrite (digits2_pos_53 m1 H1), (digits2_pos_53 m2 H2).
  rewrite fexp_normal by lia.
  replace (Z.min (53 + e1 - (53 + e2) - 53) (e1 - e2)) with (e1 - e2 - 53) by lia.
  replace (e1 - e2 - (e1 - e2 - 53)) with 53 by lia.
  cbv iota. rewrite Z.shiftl_mul_pow2 by lia.
  pose proof (Z_div_mod (Zpos m1 * 2 ^ 53) (Zpos m2) eq_refl) as Hdiv.
  destruct (Z.div_eucl (Zpos m1 * 2 ^ 53) (Zpos m2)) as [q r].
  destruct Hdiv as [HN Hr].
  subst sh. destruct (Z.leb_spec (Zpos m2) (Zpos m1)) as [Hle|Hlt].
  - (* the quotient has 54 bits: one bit is shifted out *)
    assert (Hq : 2 ^ 53 <= q < 2 ^ 54).
    { apply (div_eucl_bounds (Zpos m1 * 2 ^ 53) (Zpos m2) q r); lia. }
    pose proof (round_nearest_even_54 q r (Zpos m2)) as Hround.
    cbv zeta in Hround. rewrite <- HN in Hround.
    specialize (Hround ltac:(lia) ltac:(lia) Hr).
    set (mrs := shr_1 (shr_record_of_loc q (new_location (Zpos m2) r))) in *.
    set (M := round_nearest_even (shr_m mrs) (loc_of_shr_record mrs)) in *.
    change (2 ^ 1) with 2.
    assert (HM : 2 ^ 52 <= M <= 2 ^ 53).
    { split.
      - eapply nearest_ge; [| exact Hround |]; lia.
      - eapply nearest_le; [| exact Hround |]; lia. }
    exists M. split; [exact HM|]. split; [exact Hround|].
    rewrite (binary_round_aux_normal false q (e1 - e2 - 53)
               (new_location (Zpos m2) r) mrs (e1 - e2 - 53 + 1)).
    + fold M. reflexivity.
    + apply shr_fexp_54; lia.
    + fold M. exact HM.
    + lia.
  - (* the quotient has 53 bits *)
    assert (Hq : 2 ^ 52 <= q < 2 ^ 53).
    { apply (div_eucl_bounds (Zpos m1 * 2 ^ 53) (Zpos m2) q r); lia. }
    pose proof (round_nearest_even_53 q r (Zpos m2) ltac:(lia) Hr) as Hround.
    rewrite <- HN in Hround.
    set (M := round_nearest_even q (new_location (Zpos m2) r)) in *.
    rewrite Z.pow_0_r, Z.mul_1_r, Z.add_0_r.
    assert (HM : 2 ^ 52 <= M <= 2 ^ 53).
    { split.
      - eapply nearest_ge; [| exact Hround |]; lia.
      - eapply nearest_le; [| exact Hround |]; lia. }
    exists M. split; [exact HM|]. split; [exact Hround|].
    rewrite (binary_round_aux_normal false q (e1 - e2 - 53)
               (new_location (Zpos m2) r)
               (shr_record_of_loc q (new_location (Zpos m2) r)) (e1 - e2 - 53)).
    + rewrite shr_m_of_loc, loc_of_shr_record_of_loc. fold M. reflexivity.
    + apply shr_fexp_53; lia.
    + rewrite shr_m_of_loc, loc_of_shr_record_of_loc. fold M. exact HM.
    + lia.
Qed.

Lemma Prim2SF_float_of_int s :
  1 <= s < 2 ^ 53 ->
  let d := Z.log2 s + 1 in
  1 <= d <= 53
  /\ 2 ^ 52 <= s * 2 ^ (53 - d) < 2 ^ 53
  /\ Prim2SF (float_of_int s) = S754_finite false (Z.to_pos (s * 2 ^ (53 - d))) (d - 53).
Proof.
  intros Hs d.
  assert (Hlog : 2 ^ (d - 1) <= s < 2 ^ d).
  { unfold d. replace (Z.log2 s + 1 - 1) with (Z.log2 s) by lia.
    apply Z.log2_spec. lia. }
  assert (Hd : 1 <= d <= 53).
  { unfold d. pose proof (Z.log2_nonneg s).
    assert (Z.log2 s < 53) by (apply Z.log2_lt_pow2; lia). lia. }
  split; [exact Hd|]. split.
  - assert (H52 : 2 ^ 52 = 2 ^ (d - 1) * 2 ^ (53 - d))
      by (rewrite <- Z.pow_add_r by lia; f_equal; lia).
    assert (H53 : 2 ^ 53 = 2 ^ d * 2 ^ (53 - d))
      by (rewrite <- Z.pow_add_r by lia; f_equal; lia).
    assert (0 < 2 ^ (53 - d)) by (apply Z.pow_pos_nonneg; lia).
    rewrite H52, H53.
    split; [apply Z.mul_le_mono_nonneg_r; lia | apply Z.mul_lt_mono_pos_r; lia].
  - unfold float_of_int. destruct (Z.ltb_spec s 0) as [|_]; [lia|].
    rewrite of_uint63_spec, Uint63.of_Z_spec.
    rewrite Z.mod_small by (unfold wB; cbn; lia).
    apply binary_normalize_int; assumption.
Qed.

Lemma nearest_scale N D M T : 0 < T -> nearest (N * T) (D * T) M -> nearest N D M.
Proof.
  unfold nearest. intros HT H.
  replace (M * (D * T) - N * T) with ((M * D - N) * T) in H by ring.
  rewrite Z.abs_mul, (Z.abs_eq T) in H by lia.
  apply (Z.mul_le_mono_pos_r _ _ T HT). lia.
Qed.

(** The float quotient of two positive integers below [2^53]: a normal
    float [mf * 2^-k], with [mf] the integer nearest to [s * 2^k / n]. *)
Lemma float_div_int s n :
  1 <= s < 2 ^ 53 -> 1 <= n < 2 ^ 53 ->
  exists mf k,
    Prim2SF (float_of_int s / float_of_int n) = S754_finite false mf (- k)
    /\ 0 <= k
    /\ 2 ^ 52 <= Zpos mf < 2 ^ 53
    /\ nearest (s * 2 ^ k) n (Zpos mf)
    /\ 2 ^ 53 * Z.abs (Zpos mf * n - s * 2 ^ k) <= s * 2 ^ k.
Proof.
  intros Hs Hn.
  destruct (Prim2SF_float_of_int s Hs) as (Hds & Hm1 & Es).
  destruct (Prim2SF_float_of_int n Hn) as (Hdn & Hm2 & En).
  set (a := 53 - (Z.log2 s + 1)) in *. set (b := 53 - (Z.log2 n + 1)) in *.
  replace (Z.log2 s + 1 - 53) with (- a) in Es by (unfold a; lia).
  replace (Z.log2 n + 1 - 53) with (- b) in En by (unfold b; lia).
  assert (Ha : 0 <= a <= 52) by (unfold a; lia).
  assert (Hb : 0 <= b <= 52) by (unfold b; lia).
  rewrite div_spec, Es, En.
  set (m1 := Z.to_pos (s * 2 ^ a)). set (m2 := Z.to_pos (n * 2 ^ b)).
  assert (E1 : Zpos m1 = s * 2 ^ a) by (unfold m1; rewrite Z2Pos.id; lia).
  assert (E2 : Zpos m2 = n * 2 ^ b) by (unfold m2; rewrite Z2Pos.id; lia).
  destruct (SF64div_normal m1 (- a) m2 (- b)) as (M & HM & Hnear & Ediv);
    [lia | lia | lia |].
  rewrite Ediv. clear Ediv Es En.
  set (sh := if Zpos m2 <=? Zpos m1 then 1 else 0) in *.
  assert (Hsh : 0 <= sh <= 1) by (unfold sh; destruct (Zpos m2 <=? Zpos m1); lia).
  assert (Hlow : 2 ^ 52 * (Zpos m2 * 2 ^ sh) <= Zpos m1 * 2 ^ 53).
  { unfold sh. destruct (Z.leb_spec (Zpos m2) (Zpos m1)).
    - change (2 ^ 1) with 2. lia.
    - rewrite Z.pow_0_r. lia. }
  rewrite E1, E2 in Hnear, Hlow.
  set (T := 2 ^ (b + sh)).
  assert (HT : 0 < T) by (apply Z.pow_pos_nonneg; lia).
  assert (ET : n * 2 ^ b * 2 ^ sh = n * T)
    by (unfold T; rewrite Z.pow_add_r by lia; ring).
  rewrite ET in Hnear, Hlow.
  destruct (Z.eqb_spec M (2 ^ 53)) as [HMeq|HMne].
  - (* rounded up to the next power of two *)
    assert (Hk : a + 53 - (b + sh) <> 0).
    { intros H0. assert (a = 0 /\ b = 52 /\ sh = 1) as (Ea & Eb & Esh) by lia.
      unfold T in *. rewrite Ea, Eb, Esh in *. rewrite HMeq in Hnear.
      unfold nearest in Hnear. change (2 ^ 0) with 1 in *.
      change (2 ^ (52 + 1)) with (2 ^ 53) in *. lia. }
    exists (2 ^ 52)%positive, (a + 53 - (b + sh) - 1).
    set (k := a + 53 - (b + sh) - 1).
    assert (EN : s * 2 ^ a * 2 ^ 53 = s * 2 ^ k * 2 * T).
    { unfold T, k. rewrite <- !Z.mul_assoc. f_equal.
      rewrite <- Z.pow_add_r by lia.
      replace (2 * 2 ^ (b + sh)) with (2 ^ (1 + (b + sh)))
        by (rewrite Z.pow_add_r by lia; reflexivity).
      rewrite <- Z.pow_add_r by lia. f_equal. lia. }
    rewrite EN in Hnear, Hlow. rewrite HMeq in Hnear.
    apply nearest_scale in Hnear; [|exact HT].
    split; [f_equal; unfold k; lia|].
    split; [unfold k; lia|]. split; [lia|].
    change (Zpos (2 ^ 52)%positive) with (2 ^ 52).
    unfold nearest in *. split; lia.
  - exists (Z.to_pos M), (a + 53 - (b + sh)).
    set (k := a + 53 - (b + sh)).
    assert (EN : s * 2 ^ a * 2 ^ 53 = s * 2 ^ k * T).
    { unfold T, k. rewrite <- !Z.mul_assoc. f_equal.
      rewrite <- !Z.pow_add_r by lia. f_equal. lia. }
    rewrite EN in Hnear, Hlow.
    apply nearest_scale in Hnear; [|exact HT].
    rewrite Z2Pos.id by lia.
    split; [f_equal; unfold k; lia|].
    split; [unfold k; lia|]. split; [lia|]. split; [exact Hnear|].
    assert (2 ^ 52 * n <= s * 2 ^ k) by (apply (Z.mul_le_mono_pos_r _ _ T HT); lia).
    unfold nearest in Hnear. lia.
Qed.

(** The mean of values whose sum is [s] and whose number is [n], as the
    float quotient gives it: the nearest float to [s / n]. *)
Lemma float_mean s n :
  1 <= s < 2 ^ 53 -> 1 <= n < 2 ^ 53 ->
  exists q : Q,
    Q_of_float (float_of_int s / float_of_int n) = Some q
    /\ (Qabs (q - (s # Z.to_pos n)) <= (s # Z.to_pos n) * (1 # 2 ^ 53))%Q
    /\ (forall c : Z, c * n <= s -> (inject_Z c <= q)%Q)
    /\ (forall c : Z, s <= c * n -> (q <= inject_Z c)%Q).
Proof.
  intros Hs Hn.
  destruct (float_div_int s n Hs Hn) as (mf & k & E & Hk & Hmf & Hnear & Hrel).
  unfold Q_of_float. rewrite E.
  assert (Hn' : Zpos (Z.to_pos n) = n) by (apply Z2Pos.id; lia).
  assert (Hq : exists K : positive,
             Zpos K = 2 ^ k
             /\ match - k with
                | Zneg p => Qmake (Zpos mf) (2 ^ p)
                | _ => inject_Z (Zpos mf * 2 ^ (- k))
                end = Qmake (Zpos mf) K).
  { destruct k as [|p|p]; try lia.
    - exists 1%positive. split; [reflexivity|]. cbn [Z.opp]. unfold inject_Z.
      f_equal. rewrite Z.pow_0_r. lia.
    - exists (2 ^ p)%positive. split; [apply Pos2Z.inj_pow|reflexivity]. }
  destruct Hq as (K & HK & ->). rewrite <- HK in *.
  eexists. split; [reflexivity|]. split; [|split].
  - unfold Qle, Qabs, Qminus, Qplus, Qopp, Qmult. cbn [Qnum Qden].
    rewrite !Pos2Z.inj_mul, Hn'. change (Zpos (2 ^ 53)) with (2 ^ 53).
    replace (Zpos mf * n + - s * Zpos K) with (Zpos mf * n - s * Zpos K) by ring.
    assert (n * (2 ^ 53 * Z.abs (Zpos mf * n - s * Zpos K)) <= n * (s * Zpos K))
      by (apply Z.mul_le_mono_nonneg_l; lia).
    lia.
  - intros c Hc. unfold Qle, inject_Z. cbn [Qnum Qden]. rewrite Z.mul_1_r.
    apply (nearest_ge (s * Zpos K) n (Zpos mf)); [lia|exact Hnear|].
    replace (c * Zpos K * n) with (c * n * Zpos K) by ring.
    apply Z.mul_le_mono_nonneg_r; lia.
  - intros c Hc. unfold Qle, inject_Z. cbn [Qnum Qden]. rewrite Z.mul_1_r.
    apply (nearest_le (s * Zpos K) n (Zpos mf)); [lia|exact Hnear|].
    replace (c * Zpos K * n) with (c * n * Zpos K) by ring.
    apply Z.mul_le_mono_nonneg_r; lia.
Qed.

(** ** The average as a float *)

Lemma sum_Z_bounds (l : list Z) :
  (forall v, In v l -> 1 <= v <= 10) ->
  Z.of_nat (List.length l) <= sum_Z l <= 10 * Z.of_nat (List.length l).
Proof.
  induction l as [|v t IH]; intros H; [simpl; lia|].
  assert (Ht := IH (fun w Hw => H w (or_intror Hw))).
  pose proof (H v (or_introl eq_refl)).
  unfold sum_Z in *. cbn [fold_right List.length]. rewrite Nat2Z.inj_succ. lia.
Qed.

Lemma sum_Z_ge_length (l : list Z) :
  (forall v, In v l -> 1 <= v) -> Z.of_nat (List.length l) <= sum_Z l.
Proof.
  induction l as [|v t IH]; intros H; [simpl; lia|].
  assert (Ht := IH (fun w Hw => H w (or_intror Hw))).
  pose proof (H v (or_introl eq_refl)).
  unfold sum_Z in *. cbn [fold_right List.length]. rewrite Nat2Z.inj_succ. lia.
Qed.

Lemma fold_add_from (l : list Z) (a : Z) :
  fold_right Z.add a l = fold_right Z.add 0 l + a.
Proof. induction l as [|x t IH]; cbn [fold_right]; lia. Qed.

Lemma avg_nonempty (l : list Z) :
  l <> [] ->
  crud.avg l
  = Some (float_of_int (sum_Z l) / float_of_int (Z.of_nat (List.length l)))%float.
Proof. destruct l; [congruence | reflexivity]. Qed.

(** The float quotient of the sum by the number, for values of 1 at
    least whose sum is below [2^53]: a float within [2^-53] of the
    exact mean, relative to it, and on the same side of every integer
    as the exact mean. *)
Lemma avg_nearest_float (l : list Z) :
  l <> [] -> (forall v, In v l -> 1 <= v) -> sum_Z l < 2 ^ 53 ->
  exists q : Q,
    Q_of_float (float_of_int (sum_Z l) / float_of_int (Z.of_nat (List.length l)))
    = Some q
    /\ (Qabs (q - exact_mean l) <= exact_mean l * (1 # 2 ^ 53))%Q
    /\ (forall c : Z, c * Z.of_nat (List.length l) <= sum_Z l -> (inject_Z c <= q)%Q)
    /\ (forall c : Z, sum_Z l <= c * Z.of_nat (List.length l) -> (q <= inject_Z c)%Q).
Proof.
  intros Hne Hmin Hsum. pose proof (sum_Z_ge_length l Hmin) as Hlen.
  assert (Hn : 1 <= Z.of_nat (List.length l)).
  { destruct l; [congruence|]. cbn [List.length]. lia. }
  apply float_mean; lia.
Qed.

Lemma rated_db_reachable : reachable rated_db.
Proof.
  unfold rated_db.
  eapply reachable_step; [|apply step_add_rating].
  eapply reachable_step; [|apply step_add_rating].
  eapply reachable_step; [|apply step_add_rating].
  eapply reachable_step; [|apply step_create_movie].
  eapply reachable_step; [|apply step_signup].
  eapply reachable_step; [|apply step_signup].
  apply reachable_empty.
Qed.

(** * The claims *)

Lemma get_comment_snoc_new (db : DB) (c : Comment.t) :
  Comment.id c = next_id (map Comment.id (comments db)) ->
  find (fun k => Comment.id k =? Comment.id c) (comments db ++ [c]) = Some c.
Proof.
  intros Hid. rewrite find_app_none.
  - simpl. now rewrite Z.eqb_refl.
  - apply find_key_none. rewrite Hid. apply next_id_fresh.
Qed.

(** C1.  In every store the application reaches, a reply created by
    [create_nested_comment] (through the endpoint [add_nested_comment])
    is stored with its parent's [movie_id] and the parent's key: the
    request body has no movie id, and whatever the body and the author
    are, the movie is the parent's.  Hence every stored comment with a
    parent has a stored parent of the same movie. *)
Theorem reply_inherits_movie_id (db : DB) :
  reachable db ->
  (forall parent_comment_id comment current_user c db',
      main.add_nested_comment db parent_comment_id comment current_user = (Return c, db') ->
      exists parent,
        crud.get_comment db parent_comment_id = Some parent
        /\ crud.get_comment db' parent_comment_id = Some parent
        /\ crud.get_comment db' (Comment.id c) = Some c
        /\ Comment.parent_comment_id c = Some parent_comment_id
        /\ Comment.movie_id c = Comment.movie_id parent)
  /\ (forall c p,
        In c (comments db) -> Comment.parent_comment_id c = Some p ->
        exists parent,
          crud.get_comment db p = Some parent
          /\ Comment.movie_id c = Comment.movie_id parent).
Proof.
  intros Hreach. split.
  - intros pid comment user c db'.
    unfold main.add_nested_comment, crud.create_nested_comment.
    destruct (crud.get_comment db pid) as [parent|] eqn:E; [|discriminate].
    intros [= <- <-]. exists parent. unfold crud.get_comment in *. proj_db.
    repeat split; trivial.
    + now apply find_app_some.
    + now apply get_comment_snoc_new.
  - apply reachable_wf in Hreach. apply wf_db_spec in Hreach.
    destruct Hreach as [Hc _]. apply wf_comments_spec in Hc. destruct Hc as [_ Hf].
    intros c p Hc Hp.
    destruct (parent_spec (comments db) Hf c p Hc Hp) as [q [_ [_ [Hfind [Hm _]]]]].
    exists q. split; [exact Hfind | now symmetry].
Qed.

Lemma reply_inherits_movie_id_witness :
  reachable thread_db
  /\ (forall c p,
        In c (comments thread_db) -> Comment.parent_comment_id c = Some p ->
        exists parent,
          crud.get_comment thread_db p = Some parent
          /\ Comment.movie_id c = Comment.movie_id parent)
  /\ exists parent,
        crud.get_comment thread_db 2 = Some parent
        /\ Comment.movie_id (Comment.mk 3 "Reply" 1 1 (Some 2)) = Comment.movie_id parent.
Proof.
  assert (Hreach : reachable thread_db).
  { unfold thread_db.
    eapply reachable_step; [|apply step_add_nested_comment].
    eapply reachable_step; [|apply step_add_comment].
    eapply reachable_step; [|apply step_create_movie].
    eapply reachable_step; [|apply step_signup].
    apply reachable_empty. }
  destruct (reply_inherits_movie_id thread_db Hreach) as [Hnew Hinv].
  split; [exact Hreach | split; [exact Hinv|]].
  destruct (Hnew 2 (schema.mkCommentCreate "Reply") alice
                 (Comment.mk 3 "Reply" 1 1 (Some 2))
                 (snd (main.add_nested_comment thread_db 2
                         (schema.mkCommentCreate "Reply") alice))
                 eq_refl) as [parent [H1 [_ [_ [_ H5]]]]].
  exists parent. split; assumption.
Defined.

Lemma delete_comment_removes (db : DB) (comment_id : Z) (comment : Comment.t) :
  crud.get_comment db comment_id = Some comment ->
  crud.get_comment (crud.delete_comment db comment_id) comment_id = None.
Proof.
  intros E. unfold crud.delete_comment. rewrite E. unfold crud.get_comment in *.
  proj_db. apply find_some in E. destruct E as [_ Hid]. apply Z.eqb_eq in Hid.
  apply find_key_none. rewrite in_map_iff. intros [k [Hk Hin]].
  apply filter_In in Hin. destruct Hin as [_ Hkeep].
  apply negb_true_iff, mem_id_false in Hkeep. apply Hkeep.
  rewrite cascade_ids_unfold. left. congruence.
Qed.

(** C2.  Deleting a comment is gated by authorship alone: for a stored
    comment the endpoint fails with Forbidden (403) exactly when the
    comment's author is not the actor; when the actor is the author it
    answers success and the comment is no longer stored; when no
    comment has the key it fails with NotFound (404) and the store is
    left as it was. *)
Theorem delete_comment_gated_by_author (db : DB) (comment_id : Z) (actor : User.t) :
  (forall comment,
      crud.get_comment db comment_id = Some comment ->
      (fails_with (fst (main.delete_comment db comment_id actor)) Forbidden
       <-> Comment.user_id comment <> User.id actor)
      /\ (Comment.user_id comment <> User.id actor ->
          main.delete_comment db comment_id actor
          = (Raise (HTTPException 403 "Not authorized to delete this comment"), db))
      /\ (Comment.user_id comment = User.id actor ->
          main.delete_comment db comment_id actor
          = (Return "success"%string, crud.delete_comment db comment_id)
          /\ crud.get_comment (snd (main.delete_comment db comment_id actor)) comment_id
             = None))
  /\ (crud.get_comment db comment_id = None ->
      main.delete_comment db comment_id actor
      = (Raise (HTTPException 404 "Comment not found"), db)
      /\ fails_with (fst (main.delete_comment db comment_id actor)) NotFound).
Proof.
  unfold main.delete_comment. split.
  - intros comment E. rewrite E.
    destruct (Comment.user_id comment =? User.id actor) eqn:Eu; simpl.
    + apply Z.eqb_eq in Eu. repeat split; try tauto.
      now apply (delete_comment_removes db comment_id comment).
    + apply Z.eqb_neq in Eu. repeat split; try tauto; try contradiction.
  - intros E. rewrite E. split; reflexivity.
Qed.

Lemma delete_comment_gated_by_author_witness :
  fails_with (fst (main.delete_comment sample_db 1 bob)) Forbidden
  /\ main.delete_comment sample_db 1 alice
     = (Return "success"%string, crud.delete_comment sample_db 1)
  /\ fails_with (fst (main.delete_comment sample_db 99 alice)) NotFound.
Proof.
  split; [|split].
  - destruct (delete_comment_gated_by_author sample_db 1 bob) as [H _].
    apply (H (Comment.mk 1 "Great movie!" 1 1 None) eq_refl). simpl. lia.
  - destruct (delete_comment_gated_by_author sample_db 1 alice) as [H _].
    apply (H (Comment.mk 1 "Great movie!" 1 1 None) eq_refl). reflexivity.
  - destruct (delete_comment_gated_by_author sample_db 99 alice) as [_ H].
    apply (H eq_refl).
Defined.

Lemma filter_filter_keep {A : Type} (f keep : A -> bool) (l : list A) :
  (forall a, In a l -> f a = true -> keep a = true) ->
  filter f (filter keep l) = filter f l.
Proof.
  induction l as [|a t IH]; simpl; intros H; [reflexivity|].
  assert (IH' := IH (fun b Hb => H b (or_intror Hb))).
  destruct (keep a) eqn:Hk; simpl.
  - now rewrite IH'.
  - destruct (f a) eqn:Hf; [|exact IH'].
    rewrite (H a (or_introl eq_refl) Hf) in Hk. discriminate.
Qed.

(** C3.  A successful deletion of a comment removes the comment and
    every comment that replies to it directly or through other replies,
    and nothing else: the comments of its movie become fewer by one plus
    the number of comments in its reply subtree, the comments of other
    movies and the other tables are untouched. *)
Theorem delete_comment_cascade (db : DB) (comment_id : Z) (actor : User.t)
    (comment : Comment.t) :
  wf_db db = true ->
  crud.get_comment db comment_id = Some comment ->
  Comment.user_id comment = User.id actor ->
  let db' := snd (main.delete_comment db comment_id actor) in
  let movie_id := Comment.movie_id comment in
  fst (main.delete_comment db comment_id actor) = Return "success"%string
  /\ List.length (comments_of db movie_id)
     = (List.length (comments_of db' movie_id)
        + (1 + schema.size_list (crud.load_replies (comments db) comment_id)))%nat
  /\ (forall k, In k (comments db') <->
                In k (comments db) /\ Comment.id k <> comment_id
                /\ ~ desc (comments db) comment_id (Comment.id k))
  /\ (forall y, In y (schema.ids_list (crud.load_replies (comments db) comment_id))
                <-> desc (comments db) comment_id y)
  /\ (forall other, other <> movie_id -> comments_of db' other = comments_of db other)
  /\ users db' = users db /\ movies db' = movies db /\ ratings db' = ratings db.
Proof.
  intros Hwf E Hauthor db' movie_id. subst db' movie_id.
  apply wf_db_spec in Hwf. destruct Hwf as [Hc _].
  apply wf_comments_spec in Hc. destruct Hc as [Hnd Hf].
  pose proof E as E'. unfold crud.get_comment in E'. apply find_some in E'.
  destruct E' as [Hin Hid]. apply Z.eqb_eq in Hid.
  unfold main.delete_comment. rewrite E.
  apply Z.eqb_eq in Hauthor. rewrite Hauthor. cbn [negb fst snd].
  unfold crud.delete_comment. rewrite E. unfold comments_of. proj_db.
  set (cs := comments db) in *.
  set (gone := crud.cascade_ids cs comment).
  assert (Hkeep : forall k, In k cs ->
             (negb (mem_id (Comment.id k) gone) = true
              <-> Comment.id k <> comment_id /\ ~ desc cs comment_id (Comment.id k))).
  { intros k Hk. rewrite negb_true_iff, mem_id_false. unfold gone.
    rewrite (cascade_ids_spec cs Hf comment), Hid. tauto. }
  split; [reflexivity|]. split; [|split; [|split; [|split]]].
  - rewrite (filter_length_split _ (fun c => mem_id (Comment.id c) gone) cs).
    rewrite Nat.add_comm. f_equal.
    rewrite filter_all.
    + rewrite (filter_by_keys_length Comment.id cs gone Hnd).
      * unfold gone. rewrite (cascade_ids_length cs comment). now rewrite Hid.
      * apply (cascade_ids_NoDup cs Hnd Hf).
      * now apply (cascade_ids_stored cs Hf).
    + intros k Hk. apply filter_In in Hk. destruct Hk as [Hk Hm].
      apply mem_id_In in Hm. apply Z.eqb_eq.
      now apply (cascade_ids_movie cs Hnd Hf comment k).
  - intros k. rewrite filter_In. split.
    + intros [Hk Hg]. split; trivial. now apply Hkeep.
    + intros [Hk Hg]. split; trivial. now apply Hkeep.
  - intros y. rewrite <- Hid. split.
    + apply (load_replies_sound cs).
    + intros Hd. apply (load_replies_complete cs Hf); trivial.
      pose proof (above_le_length cs (Comment.id comment)). lia.
  - intros other Hne. apply filter_filter_keep. intros k Hk Hm.
    apply Z.eqb_eq in Hm. apply negb_true_iff, mem_id_false. intros Hg.
    apply Hne. rewrite <- Hm. now apply (cascade_ids_movie cs Hnd Hf comment k).
  - tauto.
Qed.

Lemma delete_comment_cascade_witness :
  wf_db sample_db = true
  /\ List.length (comments_of sample_db 1) = 6%nat
  /\ List.length (comments_of (snd (main.delete_comment sample_db 1 alice)) 1) = 2%nat
  /\ schema.size_list (crud.load_replies (comments sample_db) 1) = 3%nat
  /\ List.length (comments_of sample_db 1)
     = (List.length (comments_of (snd (main.delete_comment sample_db 1 alice)) 1)
        + (1 + schema.size_list (crud.load_replies (comments sample_db) 1)))%nat.
Proof.
  split; [reflexivity|]. split; [reflexivity|].
  split; [reflexivity|]. split; [reflexivity|].
  apply (delete_comment_cascade sample_db 1 alice (Comment.mk 1 "Great movie!" 1 1 None));
    reflexivity.
Defined.

Lemma find_none_iff {A : Type} (f : A -> bool) (l : list A) :
  find f l = None <-> forall a, In a l -> f a = false.
Proof.
  induction l as [|b t IH]; simpl.
  - split; [intros _ a [] | reflexivity].
  - destruct (f b) eqn:Hf.
    + split; [discriminate|]. intros H. specialize (H b (or_introl eq_refl)). congruence.
    + rewrite IH. split.
      * intros H a [<-|Ha]; auto.
      * intros H a Ha. apply H. now right.
Qed.

(** The owner filter of [get_movie] is in force for a user whose key is
    not zero. *)
Lemma get_movie_not_owned (db : DB) (movie_id user_id : Z) :
  user_id <> 0 ->
  (forall m, In m (movies db) -> Movie.id m = movie_id -> Movie.user_id m <> user_id) ->
  crud.get_movie db movie_id (Some user_id) = None.
Proof.
  intros Hnz Hother. unfold crud.get_movie, truthy_int.
  apply Z.eqb_neq in Hnz. rewrite Hnz. cbn [negb].
  replace (find _ (movies db)) with (@None Movie.t); [reflexivity|].
  symmetry. apply find_none_iff. intros m Hm.
  destruct (Movie.id m =? movie_id) eqn:Ei; [|reflexivity].
  apply Z.eqb_eq in Ei. simpl. apply Z.eqb_neq. now apply Hother.
Qed.

(** C4.  For an actor of the store, updating or deleting a movie that
    another user owns gives the very outcome a key without a movie
    gives, 404 "Movie not found", and leaves the store as it was: the
    two runs cannot be told apart, and neither is Forbidden. *)
Theorem movie_not_owned_is_not_found (db : DB) (actor : User.t)
    (movie_id absent_id : Z) (payload : schema.MovieUpdate) (now : Z) :
  wf_db db = true ->
  In actor (users db) ->
  (forall m, In m (movies db) -> Movie.id m = movie_id ->
             Movie.user_id m <> User.id actor) ->
  has_movie db absent_id = false ->
  main.update_movie db movie_id payload actor now
  = (Raise (HTTPException 404 "Movie not found"), db)
  /\ main.update_movie db movie_id payload actor now
     = main.update_movie db absent_id payload actor now
  /\ main.delete_movie db movie_id actor
     = (Raise (HTTPException 404 "Movie not found"), db)
  /\ main.delete_movie db movie_id actor = main.delete_movie db absent_id actor
  /\ fails_with (fst (main.update_movie db movie_id payload actor now)) NotFound
  /\ fails_with (fst (main.delete_movie db movie_id actor)) NotFound.
Proof.
  intros Hwf Hactor Hother Habsent.
  assert (Hnz : User.id actor <> 0).
  { pose proof (users_ok_spec db actor Hwf Hactor). lia. }
  assert (Habs : forall m, In m (movies db) -> Movie.id m = absent_id ->
                           Movie.user_id m <> User.id actor).
  { intros m Hm Hid. exfalso.
    assert (H : has_movie db absent_id = true).
    { apply has_movie_spec. rewrite <- Hid. now apply in_map. }
    congruence. }
  assert (Hupd : forall x,
             (forall m, In m (movies db) -> Movie.id m = x ->
                        Movie.user_id m <> User.id actor) ->
             main.update_movie db x payload actor now
             = (Raise (HTTPException 404 "Movie not found"), db)).
  { intros x Hx. unfold main.update_movie.
    replace (find _ (movies db)) with (@None Movie.t); [reflexivity|].
    symmetry. apply find_none_iff. intros m Hm.
    destruct (Movie.id m =? x) eqn:Ei; [|reflexivity].
    apply Z.eqb_eq in Ei. simpl. apply Z.eqb_neq. now apply Hx. }
  assert (Hdel : forall x,
             (forall m, In m (movies db) -> Movie.id m = x ->
                        Movie.user_id m <> User.id actor) ->
             main.delete_movie db x actor
             = (Raise (HTTPException 404 "Movie not found"), db)).
  { intros x Hx. unfold main.delete_movie, crud.delete_movie.
    now rewrite (get_movie_not_owned db x (User.id actor) Hnz Hx). }
  rewrite (Hupd movie_id Hother), (Hupd absent_id Habs).
  rewrite (Hdel movie_id Hother), (Hdel absent_id Habs).
  repeat split.
Qed.

Lemma movie_not_owned_is_not_found_witness :
  wf_db sample_db = true
  /\ In alice (users sample_db)
  /\ has_movie sample_db 2 = true
  /\ has_movie sample_db 9999 = false
  /\ main.delete_movie sample_db 2 alice = main.delete_movie sample_db 9999 alice
  /\ main.update_movie sample_db 2 (schema.mkMovieUpdate "Ran II" None None eq_refl) alice 20
     = main.update_movie sample_db 9999 (schema.mkMovieUpdate "Ran II" None None eq_refl) alice 20.
Proof.
  assert (Hother : forall m, In m (movies sample_db) -> Movie.id m = 2 ->
                             Movie.user_id m <> User.id alice).
  { intros m [<-|[<-|[]]]; simpl; intros H; lia. }
  destruct (movie_not_owned_is_not_found sample_db alice 2 9999
              (schema.mkMovieUpdate "Ran II" None None eq_refl) 20
              eq_refl (or_introl eq_refl) Hother eq_refl)
    as [_ [Hu [_ [Hd _]]]].
  split; [reflexivity|]. split; [now left|].
  split; [reflexivity|]. split; [reflexivity|].
  split; [exact Hd | exact Hu].
Defined.

(** The owner filter of [get_movie] is skipped for a falsy [user_id]:
    a user whose key is 0 would delete a movie of another user.  No
    store the application reaches has such a user ([reachable_wf]). *)
Remark delete_movie_owner_filter_needs_truthy_user_id :
  let zero := User.mk 0 "Zero" "Z" "+12345678900" "z@example.com" "zero" "h0" in
  fst (crud.delete_movie sample_db 2 (User.id zero))
  = Some (Movie.mk 2 "Ran" (Some "Epic"%string) (Some 725000) 2 11 11).
Proof. reflexivity. Qed.

(** C5.  A successful deletion of a movie removes the movie, every
    comment and every rating of it: afterwards no comment and no rating
    carries its key, and every comment and rating left references a
    stored movie. *)
Theorem delete_movie_cascade (db db' : DB) (movie_id : Z) (actor : User.t)
    (response : schema.MovieDeleteResponse) :
  wf_db db = true ->
  main.delete_movie db movie_id actor = (Return response, db') ->
  List.length (comments_of db' movie_id) = 0%nat
  /\ List.length (ratings_of db' movie_id) = 0%nat
  /\ has_movie db' movie_id = false
  /\ (forall c, In c (comments db') -> has_movie db' (Comment.movie_id c) = true)
  /\ (forall r, In r (ratings db') -> has_movie db' (Rating.movie_id r) = true)
  /\ (forall c, In c (comments db') -> In c (comments db))
  /\ (forall c, In c (comments db) -> ~ In c (comments db') ->
                exists k, In k (comments db) /\ Comment.movie_id k = movie_id
                          /\ In (Comment.id c) (crud.cascade_ids (comments db) k))
  /\ (forall r, In r (ratings db') <-> In r (ratings db) /\ Rating.movie_id r <> movie_id).
Proof.
  intros Hwf. unfold main.delete_movie, crud.delete_movie.
  destruct (crud.get_movie db movie_id (Some (User.id actor))) as [[movie trees]|] eqn:E;
    [|discriminate].
  intros [= _ <-].
  assert (Hid : Movie.id movie = movie_id).
  { unfold crud.get_movie in E.
    destruct (find _ (movies db)) as [m|] eqn:Ef; [|discriminate].
    injection E as <- _. apply find_some in Ef. destruct Ef as [_ Hq].
    destruct (truthy_int (Some (User.id actor))).
    - apply andb_true_iff in Hq. destruct Hq as [Hq _]. now apply Z.eqb_eq.
    - now apply Z.eqb_eq. }
  pose proof (wf_db_delete_movie_row db movie Hwf) as Hwf'.
  apply wf_db_spec in Hwf'. destruct Hwf' as [_ [Hcf [Hrf _]]].
  unfold comments_fk in Hcf. unfold ratings_fk in Hrf. rewrite forallb_forall in Hcf, Hrf.
  split; [|split; [|split; [|split; [|split; [|split; [|split]]]]]]; trivial.
  - unfold comments_of. rewrite filter_none; [reflexivity|].
    intros k Hk. apply delete_movie_row_comments in Hk. apply Z.eqb_neq. lia.
  - unfold ratings_of. rewrite filter_none; [reflexivity|].
    intros r Hr. apply delete_movie_row_ratings in Hr. apply Z.eqb_neq. lia.
  - destruct (has_movie (crud.delete_movie_row db movie) movie_id) eqn:Eh; trivial.
    apply has_movie_spec in Eh. unfold crud.delete_movie_row in Eh.
    cbn [movies] in Eh. apply in_map_iff in Eh. destruct Eh as [m [Hm Hin]].
    apply filter_In in Hin. destruct Hin as [_ Hne].
    apply negb_true_iff, Z.eqb_neq in Hne. congruence.
  - intros c Hc. now apply delete_movie_row_comments in Hc.
  - intros c Hc Hgone. unfold crud.delete_movie_row in Hgone.
    cbn [comments] in Hgone. rewrite filter_In in Hgone.
    destruct (mem_id (Comment.id c)
                (flat_map (crud.cascade_ids (comments db))
                   (filter (fun k => Comment.movie_id k =? Movie.id movie) (comments db))))
      eqn:Em.
    + apply mem_id_In, in_flat_map in Em. destruct Em as [k [Hk Hin]].
      apply filter_In in Hk. destruct Hk as [Hk Hm]. apply Z.eqb_eq in Hm.
      exists k. repeat split; trivial. congruence.
    + exfalso. apply Hgone. split; trivial.
  - intros r. rewrite delete_movie_row_ratings, Hid. tauto.
Qed.

Lemma delete_movie_cascade_witness :
  wf_db sample_db = true
  /\ List.length (comments_of sample_db 1) = 6%nat
  /\ List.length (ratings_of sample_db 1) = 3%nat
  /\ List.length (comments_of (snd (main.delete_movie sample_db 1 alice)) 1) = 0%nat
  /\ List.length (ratings_of (snd (main.delete_movie sample_db 1 alice)) 1) = 0%nat.
Proof.
  split; [reflexivity|]. split; [reflexivity|]. split; [reflexivity|].
  destruct (delete_movie_cascade sample_db (snd (main.delete_movie sample_db 1 alice))
              1 alice
              (schema.mkMovieDeleteResponse "success"
                 (Movie.mk 1 "Heat" (Some "Crime"%string) (Some 728000) 1 10 10))
              eq_refl eq_refl) as [Hc [Hr _]].
  split; [exact Hc | exact Hr].
Defined.

(** C6, as the specification words it, fails on the ratings 5, 7 and
    8: the average returned is the float [0x1.aaaaaaaaaaaabp+2], printed
    6.666666666666667, that is 7505999378950827 / 2^50, and three times it is 20 + 2^-50; it is not
    the exact mean 20/3. *)
Lemma average_is_not_exact_mean :
  reachable rated_db
  /\ crud.rating_values rated_db 1 = [5; 7; 8]
  /\ exists a q,
       main.get_average_rating rated_db 1 = Return (schema.mkAverageRating a)
       /\ a = 0x1.aaaaaaaaaaaabp+2%float
       /\ Q_of_float a = Some q
       /\ (q == 7505999378950827 # 2 ^ 50)%Q
       /\ ~ Qeq q (exact_mean [5; 7; 8])
       /\ (3 * q - 20 == 1 # 2 ^ 50)%Q.
Proof.
  split; [exact rated_db_reachable|]. split; [reflexivity|].
  exists 0x1.aaaaaaaaaaaabp+2%float. eexists.
  split; [reflexivity|]. split; [reflexivity|]. split; [reflexivity|].
  split; [reflexivity|]. split; [|reflexivity].
  unfold Qeq. cbn. discriminate.
Qed.

(** C6.  The average of a movie is 0.0 when no rating of it is stored:
    the aggregate of [crud] has no value over no rating and the endpoint
    turns that into 0.0.  When a rating is stored, the average is the
    arithmetic mean as a float: the quotient in binary64 of the sum of
    the values by their number; for values of 1 at least whose sum is
    below 2^53 it is a finite float within 2^-53 of the exact mean,
    relative to the mean.  Ratings 5, 7 and 8 average
    6.666666666666667. *)
Theorem average_is_float_mean (db : DB) (movie_id : Z) :
  let values := crud.rating_values db movie_id in
  (values = [] ->
     crud.get_average_rating db movie_id = None
     /\ main.get_average_rating db movie_id = Return (schema.mkAverageRating 0))
  /\ (values <> [] ->
      exists a,
        crud.get_average_rating db movie_id = Some a
        /\ main.get_average_rating db movie_id = Return (schema.mkAverageRating a)
        /\ a = (float_of_int (sum_Z values)
                / float_of_int (Z.of_nat (List.length values)))%float
        /\ ((forall v, In v values -> 1 <= v) -> sum_Z values < 2 ^ 53 ->
            exists q,
              Q_of_float a = Some q
              /\ (Qabs (q - exact_mean values)
                  <= exact_mean values * (1 # 2 ^ 53))%Q)).
Proof.
  unfold main.get_average_rating, crud.get_average_rating.
  cbv zeta. split.
  - intros ->. split; reflexivity.
  - intros Hne. rewrite (avg_nonempty _ Hne).
    eexists. split; [reflexivity|]. split; [reflexivity|]. split; [reflexivity|].
    intros Hmin Hsum.
    destruct (avg_nearest_float _ Hne Hmin Hsum) as (q & Hq & Hrel & _).
    exists q. split; [exact Hq | exact Hrel].
Qed.

Lemma average_is_float_mean_witness :
  crud.rating_values rated_db 1 = [5; 7; 8]
  /\ (exists a q,
         main.get_average_rating rated_db 1 = Return (schema.mkAverageRating a)
         /\ a = 0x1.aaaaaaaaaaaabp+2%float
         /\ Q_of_float a = Some q
         /\ (Qabs (q - (20 # 3)) <= (20 # 3) * (1 # 2 ^ 53))%Q)
  /\ crud.rating_values rated_db 2 = []
  /\ main.get_average_rating rated_db 2 = Return (schema.mkAverageRating 0).
Proof.
  destruct (average_is_float_mean rated_db 1) as [_ Hsome].
  destruct (average_is_float_mean rated_db 2) as [Hnone _].
  split; [reflexivity|]. split.
  - destruct Hsome as (a & _ & Hmain & Ha & Hq); [discriminate|].
    destruct Hq as (q & Hq & Hrel).
    + intros v Hv. vm_compute in Hv. destruct Hv as [<-|[<-|[<-|[]]]]; lia.
    + vm_compute. reflexivity.
    + exists a, q. split; [exact Hmain|]. split; [rewrite Ha; reflexivity|].
      split; [exact Hq | exact Hrel].
  - split; [reflexivity|]. apply Hnone. reflexivity.
Defined.

Lemma check_rating_range (value : Z) :
  (1 <= value <= 10 -> schema.parse_RatingCreate value = Return (schema.mkRatingCreate value))
  /\ (value < 1 \/ 10 < value ->
      schema.parse_RatingCreate value
      = Raise (RequestValidationError "Rating must be between 1 and 10")).
Proof.
  unfold schema.parse_RatingCreate, schema.check_rating.
  destruct (value <? 1) eqn:E1; destruct (value >? 10) eqn:E2; simpl;
    rewrite ?Z.ltb_lt, ?Z.ltb_ge in E1; rewrite ?Z.gtb_ltb, ?Z.ltb_lt, ?Z.ltb_ge in E2;
    split; intros H; trivial; lia.
Qed.

(** C7.  A rating request with an integer value is refused with a
    validation error (422) exactly when the value is outside 1..10, and
    then the store is left as it was; a value within 1..10 for a stored
    movie is accepted and one rating, with that value, is added. *)
Theorem add_rating_accepts_1_to_10 (db : DB) (movie_id value : Z) (actor : User.t) :
  (fails_with (fst (main.add_rating_request db movie_id value actor)) ValidationError
   <-> (value < 1 \/ 10 < value))
  /\ (value < 1 \/ 10 < value ->
      main.add_rating_request db movie_id value actor
      = (Raise (RequestValidationError "Rating must be between 1 and 10"), db))
  /\ (1 <= value <= 10 -> has_movie db movie_id = true ->
      exists r,
        main.add_rating_request db movie_id value actor
        = (Return r, mkDB (users db) (movies db) (comments db) (ratings db ++ [r]))
        /\ Rating.rating r = value /\ Rating.movie_id r = movie_id
        /\ Rating.user_id r = User.id actor).
Proof.
  destruct (check_rating_range value) as [Hin Hout].
  unfold main.add_rating_request, main.add_rating.
  split; [|split].
  - split.
    + intros Hfail. destruct (Z.lt_ge_cases value 1) as [|H1]; [tauto|].
      destruct (Z.lt_ge_cases 10 value) as [|H2]; [tauto|].
      exfalso. rewrite Hin in Hfail by lia.
      destruct (find _ (movies db)); simpl in Hfail; [contradiction | discriminate].
    + intros H. rewrite (Hout H). reflexivity.
  - intros H. now rewrite (Hout H).
  - intros H Hm. rewrite (Hin H).
    destruct (find (fun m => Movie.id m =? movie_id) (movies db)) as [m|] eqn:E.
    + eexists. split; [reflexivity|]. repeat split.
    + exfalso. unfold has_movie in Hm. apply existsb_exists in Hm.
      destruct Hm as [m [Hm Hid]].
      pose proof (proj1 (find_none_iff _ _) E m Hm) as Hf. simpl in Hf. congruence.
Qed.

Lemma add_rating_accepts_1_to_10_witness :
  fails_with (fst (main.add_rating_request sample_db 1 0 alice)) ValidationError
  /\ fails_with (fst (main.add_rating_request sample_db 1 11 alice)) ValidationError
  /\ snd (main.add_rating_request sample_db 1 11 alice) = sample_db
  /\ (exists r, fst (main.add_rating_request sample_db 1 1 alice) = Return r
                /\ Rating.rating r = 1)
  /\ (exists r, fst (main.add_rating_request sample_db 1 10 alice) = Return r
                /\ Rating.rating r = 10
                /\ In r (ratings (snd (main.add_rating_request sample_db 1 10 alice)))).
Proof.
  split; [|split; [|split; [|split]]].
  - apply (add_rating_accepts_1_to_10 sample_db 1 0 alice). lia.
  - apply (add_rating_accepts_1_to_10 sample_db 1 11 alice). lia.
  - destruct (add_rating_accepts_1_to_10 sample_db 1 11 alice) as [_ [H _]].
    rewrite H by lia. reflexivity.
  - destruct (add_rating_accepts_1_to_10 sample_db 1 1 alice) as [_ [_ H]].
    destruct H as [r [Hr [Hv _]]]; [lia | reflexivity|].
    exists r. rewrite Hr. split; [reflexivity | exact Hv].
  - destruct (add_rating_accepts_1_to_10 sample_db 1 10 alice) as [_ [_ H]].
    destruct H as [r [Hr [Hv _]]]; [lia | reflexivity|].
    exists r. rewrite Hr. split; [reflexivity|]. split; [exact Hv|].
    proj_db. apply in_app_iff. right. now left.
Defined.

(** C8.  The code departs from the claim.  When no comment has the key
    [parent_comment_id], [create_nested_comment] raises [ValueError]
    "Parent comment does not exist" and the endpoint answers it with
    status 400 and that detail, not with the 404 of NotFound, which is
    what [delete_comment] answers for the same key; the store is left as
    it was, no comment is persisted. *)
Theorem reply_to_missing_parent_is_bad_request (db : DB) (parent_comment_id : Z)
    (comment : schema.CommentCreate) (current_user : User.t) :
  crud.get_comment db parent_comment_id = None ->
  crud.create_nested_comment db comment parent_comment_id (User.id current_user)
  = (Raise (ValueError "Parent comment does not exist"), db)
  /\ main.add_nested_comment db parent_comment_id comment current_user
     = (Raise (HTTPException 400 "Parent comment does not exist"), db)
  /\ fails_with (fst (main.add_nested_comment db parent_comment_id comment current_user))
                BadRequest
  /\ status_of (fst (main.add_nested_comment db parent_comment_id comment current_user))
     = 400
  /\ status_of (fst (main.delete_comment db parent_comment_id current_user)) = 404.
Proof.
  intros E. unfold main.add_nested_comment, crud.create_nested_comment, main.delete_comment.
  rewrite E. repeat split.
Qed.

Lemma reply_to_missing_parent_is_bad_request_witness :
  In bob (users sample_db)
  /\ crud.get_comment sample_db 99 = None
  /\ main.add_nested_comment sample_db 99 (schema.mkCommentCreate "Agreed") bob
     = (Raise (HTTPException 400 "Parent comment does not exist"), sample_db)
  /\ status_of (fst (main.add_nested_comment sample_db 99
                       (schema.mkCommentCreate "Agreed") bob)) = 400
  /\ status_of (fst (main.delete_comment sample_db 99 bob)) = 404.
Proof.
  split; [right; left; reflexivity|]. split; [reflexivity|].
  destruct (reply_to_missing_parent_is_bad_request sample_db 99
              (schema.mkCommentCreate "Agreed") bob eq_refl)
    as (_ & Hmain & _ & Hstatus & Hdelete).
  split; [exact Hmain|]. split; [exact Hstatus | exact Hdelete].
Defined.

(** C10.  The average endpoint reads the ratings only: it always
    returns, stores with the same ratings give the same answer whatever
    their movies, and in a well-formed store a key without a movie is
    answered 0, as is a stored movie without ratings. *)
Theorem average_ignores_movie_existence (db : DB) (movie_id : Z) :
  wf_db db = true ->
  (exists a, main.get_average_rating db movie_id = Return a)
  /\ (forall db2, ratings db2 = ratings db ->
                  main.get_average_rating db2 movie_id = main.get_average_rating db movie_id)
  /\ (has_movie db movie_id = false ->
      main.get_average_rating db movie_id = Return (schema.mkAverageRating 0))
  /\ (ratings_of db movie_id = [] ->
      main.get_average_rating db movie_id = Return (schema.mkAverageRating 0)).
Proof.
  intros Hwf.
  assert (Hempty : ratings_of db movie_id = [] ->
                   main.get_average_rating db movie_id = Return (schema.mkAverageRating 0)).
  { intros H. unfold main.get_average_rating, crud.get_average_rating, crud.rating_values.
    unfold ratings_of in H. now rewrite H. }
  split; [eexists; reflexivity|]. split; [|split; [|exact Hempty]].
  - intros db2 H. unfold main.get_average_rating, crud.get_average_rating,
      crud.rating_values. now rewrite H.
  - intros Hno. apply Hempty. unfold ratings_of. apply filter_none.
    intros r Hr. apply Z.eqb_neq. intros Heq.
    apply wf_db_spec in Hwf. destruct Hwf as [_ [_ [Hrf _]]].
    unfold ratings_fk in Hrf. rewrite forallb_forall in Hrf.
    specialize (Hrf r Hr). congruence.
Qed.

Lemma average_ignores_movie_existence_witness :
  wf_db sample_db = true
  /\ has_movie sample_db 9999 = false
  /\ has_movie sample_db 2 = true
  /\ main.get_average_rating sample_db 9999 = Return (schema.mkAverageRating 0)
  /\ main.get_average_rating sample_db 2 = main.get_average_rating sample_db 9999.
Proof.
  destruct (average_ignores_movie_existence sample_db 9999 eq_refl) as [_ [_ [Hno _]]].
  destruct (average_ignores_movie_existence sample_db 2 eq_refl) as [_ [_ [_ Hzero]]].
  split; [reflexivity|]. split; [reflexivity|]. split; [reflexivity|].
  split; [exact (Hno eq_refl)|].
  rewrite (Hno eq_refl). exact (Hzero eq_refl).
Defined.

Lemma In_firstn {A : Type} (n : nat) (l : list A) (a : A) :
  In a (firstn n l) -> In a l.
Proof.
  revert l. induction n as [|n IH]; intros [|b t]; simpl; try tauto.
  intros [->|H]; [now left | right; now apply IH].
Qed.

Lemma In_skipn {A : Type} (n : nat) (l : list A) (a : A) :
  In a (skipn n l) -> In a l.
Proof.
  revert l. induction n as [|n IH]; intros [|b t]; simpl; try tauto.
  intros H. right. now apply IH.
Qed.

Lemma populated_replies (cs : list Comment.t) (g : Comment.t -> schema.Comment)
    (l : list Comment.t) :
  (forall r, In r l -> populated cs (g r)) ->
  fold_right (fun r P => populated cs r /\ P) True (map g l).
Proof.
  induction l as [|r t IH]; simpl; intros H; [exact I|].
  split; [apply H; now left | apply IH; intros k Hk; apply H; now right].
Qed.

(** With fuel above the depth bound, [load_replies] populates every
    level with the stored replies. *)
Lemma load_replies_populated (cs : list Comment.t) (f : nat) (c : Comment.t) :
  forest_ok cs = true -> (above cs (Comment.id c) < f)%nat ->
  populated cs (schema.Node c (crud.load_replies_fuel f cs (Comment.id c))).
Proof.
  intros Hf. revert c. induction f as [|f IH]; intros c Hab; [lia|].
  cbn [populated crud.load_replies_fuel]. split.
  - rewrite map_map. cbn [schema.root]. apply map_id.
  - apply populated_replies. intros r Hr.
    apply replies_of_In in Hr. destruct Hr as [Hr Hp].
    pose proof (above_lt cs (Comment.id c) r Hr (parent_lt cs Hf r _ Hr Hp)).
    apply IH. lia.
Qed.

Lemma with_replies_populated (cs : list Comment.t) (c : Comment.t) :
  forest_ok cs = true -> populated cs (crud.with_replies cs c).
Proof.
  intros Hf. unfold crud.with_replies, crud.load_replies.
  apply load_replies_populated; trivial.
  pose proof (above_le_length cs (Comment.id c)). lia.
Qed.

Lemma has_movie_find (db : DB) (movie_id : Z) :
  has_movie db movie_id = false <->
  find (fun m => Movie.id m =? movie_id) (movies db) = None.
Proof.
  rewrite find_none_iff. unfold has_movie. split.
  - intros H m Hm. destruct (Movie.id m =? movie_id) eqn:E; trivial.
    assert (existsb (fun k => Movie.id k =? movie_id) (movies db) = true)
      by (apply existsb_exists; now exists m).
    congruence.
  - intros H. destruct (existsb _ (movies db)) eqn:E; trivial.
    apply existsb_exists in E. destruct E as [m [Hm Hid]].
    rewrite (H m Hm) in Hid. discriminate.
Qed.

(** C9.  Listing the comments of a movie fails with NotFound (404) when
    no movie has the key.  Otherwise it returns the root comments of
    the movie, and only those, with [skip] and [limit] applied to the
    list of roots: the page has min(limit, roots - skip) trees whatever
    the number of replies; every tree is populated, at every level, with
    the stored replies, so that it holds exactly the comments that
    reply to its root directly or through other replies.  With three
    roots, [skip = 0] and [limit = 1] give one populated tree. *)
Theorem get_comments_pages_roots (db : DB) (movie_id : Z) (skip limit : nat) :
  wf_db db = true ->
  (has_movie db movie_id = false ->
     main.get_comments db movie_id skip limit
     = Raise (HTTPException 404 "Movie not found")
     /\ fails_with (main.get_comments db movie_id skip limit) NotFound)
  /\ (has_movie db movie_id = true ->
      exists page,
        main.get_comments db movie_id skip limit = Return page
        /\ map schema.root page = firstn limit (skipn skip (root_comments db movie_id))
        /\ List.length page
           = Nat.min limit (List.length (root_comments db movie_id) - skip)
        /\ forall t, In t page ->
             In (schema.root t) (comments db)
             /\ Comment.parent_comment_id (schema.root t) = None
             /\ Comment.movie_id (schema.root t) = movie_id
             /\ populated (comments db) t
             /\ forall y, In y (schema.ids_list (schema.replies t))
                          <-> desc (comments db) (Comment.id (schema.root t)) y)
  /\ (has_movie db movie_id = true ->
      List.length (root_comments db movie_id) = 3%nat ->
      exists t, main.get_comments db movie_id 0 1 = Return [t]
                /\ Some (schema.root t) = hd_error (root_comments db movie_id)
                /\ populated (comments db) t).
Proof.
  intros Hwf. apply wf_db_spec in Hwf. destruct Hwf as [Hc _].
  apply wf_comments_spec in Hc. destruct Hc as [Hnd Hf].
  unfold main.get_comments, crud.get_comments. fold (root_comments db movie_id).
  split; [|split].
  - intros Hno. apply has_movie_find in Hno. rewrite Hno. split; reflexivity.
  - intros Hyes.
    destruct (find (fun m => Movie.id m =? movie_id) (movies db)) as [m|] eqn:E.
    2:{ apply has_movie_find in E. congruence. }
    eexists. split; [reflexivity|]. split; [|split].
    + rewrite map_map. cbn [crud.with_replies schema.root]. apply map_id.
    + now rewrite length_map, length_firstn, length_skipn.
    + intros t Ht. apply in_map_iff in Ht. destruct Ht as [c [<- Hin]].
      apply In_firstn, In_skipn in Hin.
      unfold root_comments in Hin. apply filter_In in Hin. destruct Hin as [Hin Hq].
      apply andb_true_iff in Hq. destruct Hq as [Hm Hp]. apply Z.eqb_eq in Hm.
      cbn [crud.with_replies schema.root schema.replies].
      split; [exact Hin|]. split.
      { destruct (Comment.parent_comment_id c); [discriminate | reflexivity]. }
      split; [exact Hm|]. split; [now apply with_replies_populated|].
      intros y. unfold crud.load_replies. split.
      * apply (load_replies_sound (comments db)).
      * intros Hd. apply (load_replies_complete (comments db) Hf); trivial.
        pose proof (above_le_length (comments db) (Comment.id c)). lia.
  - intros Hyes Hthree.
    destruct (find (fun m => Movie.id m =? movie_id) (movies db)) as [m|] eqn:E.
    2:{ apply has_movie_find in E. congruence. }
    destruct (root_comments db movie_id) as [|r rest]; [discriminate|].
    exists (crud.with_replies (comments db) r). split; [reflexivity|].
    split; [reflexivity | now apply with_replies_populated].
Qed.

Lemma get_comments_pages_roots_witness :
  wf_db sample_db = true
  /\ has_movie sample_db 1 = true
  /\ has_movie sample_db 999 = false
  /\ List.length (root_comments sample_db 1) = 3%nat
  /\ List.length (comments_of sample_db 1) = 6%nat
  /\ main.get_comments sample_db 999 0 10 = Raise (HTTPException 404 "Movie not found")
  /\ exists t, main.get_comments sample_db 1 0 1 = Return [t]
               /\ schema.size t = 4%nat
               /\ populated (comments sample_db) t.
Proof.
  destruct (get_comments_pages_roots sample_db 999 0 10 eq_refl) as [Hno _].
  destruct (get_comments_pages_roots sample_db 1 0 1 eq_refl) as [_ [_ Hone]].
  split; [reflexivity|]. split; [reflexivity|]. split; [reflexivity|].
  split; [reflexivity|]. split; [reflexivity|].
  split; [exact (proj1 (Hno eq_refl))|].
  destruct (Hone eq_refl eq_refl) as [t [Hpage [_ Hpop]]].
  exists t. split; [exact Hpage|]. split; [|exact Hpop].
  injection Hpage as <-. reflexivity.
Defined.

(** * Further properties of the code *)

(** ** Keys and rating values in the stores the application reaches *)

Lemma map_key_replace {A : Type} (key : A -> Z) (x : Z) (a' : A) (l : list A) :
  key a' = x ->
  map key (map (fun a => if key a =? x then a' else a) l) = map key l.
Proof.
  intros Hk. rewrite map_map. apply map_ext. intros a.
  destruct (key a =? x) eqn:E; trivial. apply Z.eqb_eq in E. congruence.
Qed.

Lemma keys_ok_spec (db : DB) :
  keys_ok db = true <->
  NoDup (map User.id (users db)) /\ NoDup (map Movie.id (movies db))
  /\ NoDup (map Rating.id (ratings db)).
Proof. unfold keys_ok. rewrite !andb_true_iff, !nodupb_NoDup. tauto. Qed.

Lemma ratings_in_range_spec (db : DB) :
  ratings_in_range db = true <->
  forall r, In r (ratings db) -> 1 <= Rating.rating r <= 10.
Proof.
  unfold ratings_in_range. rewrite forallb_forall.
  split; intros H r Hr; specialize (H r Hr).
  - apply andb_true_iff in H. rewrite !Z.leb_le in H. exact H.
  - apply andb_true_iff. now rewrite !Z.leb_le.
Qed.

Lemma parse_RatingCreate_range (value : Z) (rating : schema.RatingCreate) :
  schema.parse_RatingCreate value = Return rating ->
  schema.rating rating = value /\ 1 <= value <= 10.
Proof.
  unfold schema.parse_RatingCreate, schema.check_rating.
  destruct (value <? 1) eqn:E1; [discriminate|].
  destruct (value >? 10) eqn:E2; [discriminate|]. simpl.
  intros [= <-]. apply Z.ltb_ge in E1. rewrite Z.gtb_ltb in E2. apply Z.ltb_ge in E2.
  simpl. lia.
Qed.

Lemma step_keys_ranges (db db' : DB) :
  keys_ok db = true /\ ratings_in_range db = true -> step db db' ->
  keys_ok db' = true /\ ratings_in_range db' = true.
Proof.
  intros [Hk Hr] Hstep. rewrite keys_ok_spec in *. rewrite ratings_in_range_spec in *.
  destruct Hk as [Hu [Hm Hrk]].
  destruct Hstep.
  - unfold main.signup.
    destruct (crud.get_user_by_username db _); [tauto|].
    destruct (crud.get_user_by_email db _); [tauto|].
    unfold crud.create_user. proj_db. split; [split; [|split]|]; trivial.
    rewrite map_app. apply NoDup_snoc; [assumption | apply next_id_fresh].
  - unfold main.update_profile, crud.update_user.
    destruct (find _ (users db)) as [old|] eqn:E; [|tauto]. proj_db.
    split; [split; [|split]|]; trivial. rewrite map_key_replace; trivial.
    apply find_some in E. destruct E as [_ E]. now apply Z.eqb_eq in E.
  - unfold main.create_movie, crud.create_movie. proj_db.
    split; [split; [|split]|]; trivial.
    rewrite map_app. apply NoDup_snoc; [assumption | apply next_id_fresh].
  - unfold main.update_movie.
    destruct (find _ (movies db)) as [movie|] eqn:E; [|tauto]. proj_db.
    split; [split; [|split]|]; trivial. rewrite map_key_replace; trivial.
  - unfold main.delete_movie, crud.delete_movie.
    destruct (crud.get_movie db movie_id _) as [[movie trees]|]; [|tauto].
    unfold crud.delete_movie_row. proj_db. split; [split; [|split]|]; trivial.
    + now apply NoDup_map_filter.
    + now apply NoDup_map_filter.
    + intros r Hin. apply filter_In in Hin. now apply Hr.
  - unfold main.add_comment.
    destruct (find _ (movies db)) as [m|] eqn:E; [|tauto].
    unfold crud.create_comment. rewrite E. proj_db. tauto.
  - unfold main.add_nested_comment, crud.create_nested_comment.
    destruct (crud.get_comment db parent_comment_id); proj_db; tauto.
  - unfold main.delete_comment.
    destruct (crud.get_comment db comment_id) as [c|] eqn:E; [|tauto].
    destruct (negb _); [tauto|]. unfold crud.delete_comment. rewrite E. proj_db. tauto.
  - unfold main.add_rating_request.
    destruct (schema.parse_RatingCreate value) as [rating|e] eqn:Ep; [|tauto].
    apply parse_RatingCreate_range in Ep. destruct Ep as [Ev Hrange].
    unfold main.add_rating.
    destruct (find _ (movies db)) as [m|]; [|tauto].
    unfold crud.create_rating. proj_db. split; [split; [|split]|]; trivial.
    + rewrite map_app. apply NoDup_snoc; [assumption | apply next_id_fresh].
    + intros r Hin. apply in_app_iff in Hin. destruct Hin as [Hin|[<-|[]]].
      * now apply Hr.
      * simpl. lia.
Qed.

Lemma reachable_keys_ranges (db : DB) :
  reachable db -> keys_ok db = true /\ ratings_in_range db = true.
Proof.
  induction 1 as [|db db' _ IH Hstep]; [split; reflexivity|].
  now apply (step_keys_ranges db db').
Qed.

(** X1.  In every store the application reaches the keys of the users,
    of the movies, of the comments and of the ratings are distinct, and
    every stored rating is within 1..10. *)
Theorem reachable_keys_and_ranges (db : DB) :
  reachable db ->
  NoDup (map User.id (users db)) /\ NoDup (map Movie.id (movies db))
  /\ NoDup (map Comment.id (comments db)) /\ NoDup (map Rating.id (ratings db))
  /\ forall r, In r (ratings db) -> 1 <= Rating.rating r <= 10.
Proof.
  intros Hreach.
  destruct (reachable_keys_ranges db Hreach) as [Hk Hr].
  apply keys_ok_spec in Hk. destruct Hk as [Hu [Hm Hrk]].
  apply reachable_wf, wf_db_spec in Hreach. destruct Hreach as [Hc _].
  apply wf_comments_spec in Hc. destruct Hc as [Hc _].
  rewrite ratings_in_range_spec in Hr. tauto.
Qed.

Lemma reachable_keys_and_ranges_witness :
  reachable thread_db
  /\ NoDup (map Comment.id (comments thread_db))
  /\ NoDup (map User.id (users thread_db)).
Proof.
  assert (Hreach : reachable thread_db).
  { unfold thread_db.
    eapply reachable_step; [|apply step_add_nested_comment].
    eapply reachable_step; [|apply step_add_comment].
    eapply reachable_step; [|apply step_create_movie].
    eapply reachable_step; [|apply step_signup].
    apply reachable_empty. }
  destruct (reachable_keys_and_ranges thread_db Hreach) as [Hu [_ [Hc _]]].
  split; [exact Hreach | split; [exact Hc | exact Hu]].
Defined.

(** ** Users: signup and profile update *)

Lemma find_name_none {A : Type} (name : A -> string) (l : list A) (x : string) :
  find (fun a => String.eqb (name a) x) l = None <-> ~ In x (map name l).
Proof.
  induction l as [|b t IH]; simpl; [tauto|].
  destruct (String.eqb (name b) x) eqn:E.
  - apply String.eqb_eq in E. split; [discriminate | tauto].
  - apply String.eqb_neq in E. rewrite IH. tauto.
Qed.

Lemma find_name_some {A : Type} (name : A -> string) (l : list A) (x : string) :
  In x (map name l) -> exists a, find (fun a => String.eqb (name a) x) l = Some a.
Proof.
  intros H. destruct (find (fun a => String.eqb (name a) x) l) as [a|] eqn:E.
  - now exists a.
  - apply find_name_none in E. contradiction.
Qed.

Lemma NoDup_snoc_string (l : list string) (x : string) :
  NoDup l -> ~ In x l -> NoDup (l ++ [x]).
Proof.
  induction l as [|y t IH]; simpl; intros Hnd Hx.
  - constructor; [intros [] | constructor].
  - inversion Hnd; subst. constructor.
    + rewrite in_app_iff. simpl. intros [H|[H|[]]]; [contradiction | subst; tauto].
    + apply IH; tauto.
Qed.

(** X2.  Signup refuses a username that a stored user has, whatever the
    email, with 400 "Username already registered!"; it refuses an email
    that a stored user has, when the username is free, with 400 "Email
    already registered!"; in both cases nothing is written.  When both
    are free it returns the new user. *)
Theorem signup_refuses_taken_names (db : DB) (user : schema.UserCreate)
    (hashed_password : string) :
  (In (schema.uc_username user) (map User.username (users db)) ->
   main.signup db user hashed_password
   = (Raise (HTTPException 400 "Username already registered!"), db))
  /\ (~ In (schema.uc_username user) (map User.username (users db)) ->
      In (schema.uc_email user) (map User.email (users db)) ->
      main.signup db user hashed_password
      = (Raise (HTTPException 400 "Email already registered!"), db))
  /\ (~ In (schema.uc_username user) (map User.username (users db)) ->
      ~ In (schema.uc_email user) (map User.email (users db)) ->
      exists u, fst (main.signup db user hashed_password) = Return u).
Proof.
  unfold main.signup, crud.get_user_by_username, crud.get_user_by_email.
  split; [|split].
  - intros H. apply find_name_some in H. destruct H as [u ->]. reflexivity.
  - intros Hn He. apply find_name_none in Hn. rewrite Hn.
    apply find_name_some in He. destruct He as [u ->]. reflexivity.
  - intros Hn He. apply find_name_none in Hn. apply find_name_none in He.
    rewrite Hn, He. eexists. reflexivity.
Qed.

Lemma signup_refuses_taken_names_witness :
  main.signup sample_db
    (schema.mkUserCreate "alice" "Al" "Ice" "+12345678903" "bob@example.com" "pw") "h3"
  = (Raise (HTTPException 400 "Username already registered!"), sample_db)
  /\ main.signup sample_db
       (schema.mkUserCreate "carol" "Ca" "Rol" "+12345678903" "b@example.com" "pw") "h3"
     = (Raise (HTTPException 400 "Email already registered!"), sample_db).
Proof.
  split.
  - apply (signup_refuses_taken_names sample_db). simpl. tauto.
  - apply (signup_refuses_taken_names sample_db).
    + simpl. intros [H|[H|[]]]; discriminate.
    + simpl. tauto.
Defined.

(** X3.  A successful signup stores one new user, after the others,
    under a fresh positive key, with the hash it was given; the user is
    then found by username and by email; and usernames and emails that
    were distinct stay distinct. *)
Theorem signup_stores_user (db db' : DB) (user : schema.UserCreate)
    (hashed_password : string) (u : User.t) :
  main.signup db user hashed_password = (Return u, db') ->
  users db' = users db ++ [u]
  /\ movies db' = movies db /\ comments db' = comments db /\ ratings db' = ratings db
  /\ 0 < User.id u /\ ~ In (User.id u) (map User.id (users db))
  /\ User.username u = schema.uc_username user
  /\ User.email u = schema.uc_email user
  /\ User.hashed_password u = hashed_password
  /\ crud.get_user_by_username db' (schema.uc_username user) = Some u
  /\ crud.get_user_by_email db' (schema.uc_email user) = Some u
  /\ (NoDup (map User.username (users db)) -> NoDup (map User.username (users db')))
  /\ (NoDup (map User.email (users db)) -> NoDup (map User.email (users db'))).
Proof.
  unfold main.signup.
  destruct (crud.get_user_by_username db _) eqn:En; [discriminate|].
  destruct (crud.get_user_by_email db _) eqn:Ee; [discriminate|].
  unfold crud.create_user. intros [= <- <-].
  unfold crud.get_user_by_username, crud.get_user_by_email in *. proj_db.
  pose proof (proj1 (find_name_none _ _ _) En) as Hn.
  pose proof (proj1 (find_name_none _ _ _) Ee) as He.
  repeat split; trivial.
  - apply next_id_pos.
  - apply next_id_fresh.
  - rewrite find_app_none by assumption. simpl. now rewrite String.eqb_refl.
  - rewrite find_app_none by assumption. simpl. now rewrite String.eqb_refl.
  - intros H. rewrite map_app. now apply NoDup_snoc_string.
  - intros H. rewrite map_app. now apply NoDup_snoc_string.
Qed.

Lemma signup_stores_user_witness :
  exists u,
    fst (main.signup sample_db
           (schema.mkUserCreate "carol" "Ca" "Rol" "+12345678903" "c@example.com" "pw") "h3")
    = Return u
    /\ User.id u = 3
    /\ crud.get_user_by_username
         (snd (main.signup sample_db
                 (schema.mkUserCreate "carol" "Ca" "Rol" "+12345678903" "c@example.com" "pw")
                 "h3"))
         "carol"
       = Some u.
Proof.
  eexists. split; [reflexivity|]. split; [reflexivity|].
  apply (signup_stores_user sample_db _
           (schema.mkUserCreate "carol" "Ca" "Rol" "+12345678903" "c@example.com" "pw")
           "h3" _ eq_refl).
Defined.

Lemma map_replace_other {A : Type} (key : A -> Z) (x : Z) (a' a : A) (l : list A) :
  In a l -> key a <> x -> In a (map (fun b => if key b =? x then a' else b) l).
Proof.
  intros Ha Hne. apply in_map_iff. exists a. split; trivial.
  apply Z.eqb_neq in Hne. now rewrite Hne.
Qed.

Lemma find_replace {A : Type} (key : A -> Z) (x : Z) (a a' : A) (l : list A) :
  key a' = x -> find (fun b => key b =? x) l = Some a ->
  find (fun b => key b =? x) (map (fun b => if key b =? x then a' else b) l) = Some a'.
Proof.
  intros Hk. induction l as [|b t IH]; simpl; [discriminate|].
  destruct (key b =? x) eqn:E.
  - intros _. apply Z.eqb_eq in Hk. now rewrite Hk.
  - rewrite E. exact IH.
Qed.

(** X4.  A profile update of a user that is not stored returns nothing
    and writes nothing.  For a stored user, when the username and the
    email it supplies are not those of another user (the unique columns
    let the commit through), it keeps the key and the password hash,
    takes each supplied field and keeps each field that was left out;
    afterwards the key looks up the updated user, and the users with
    other keys and the other tables are as before. *)
Theorem update_profile_overwrites_supplied_fields (db : DB)
    (user_update : schema.UserUpdate) (current_user : User.t) :
  (find (fun u => User.id u =? User.id current_user) (users db) = None ->
   main.update_profile db user_update current_user = (None, db))
  /\ (forall old,
        find (fun u => User.id u =? User.id current_user) (users db) = Some old ->
        (forall v u, schema.uu_username user_update = Some v -> In u (users db) ->
                     User.id u <> User.id current_user -> User.username u <> v) ->
        (forall v u, schema.uu_email user_update = Some v -> In u (users db) ->
                     User.id u <> User.id current_user -> User.email u <> v) ->
        exists new db',
          main.update_profile db user_update current_user = (Some new, db')
          /\ User.id new = User.id current_user
          /\ User.hashed_password new = User.hashed_password old
          /\ User.username new
             = match schema.uu_username user_update with
               | Some v => v | None => User.username old end
          /\ User.email new
             = match schema.uu_email user_update with
               | Some v => v | None => User.email old end
          /\ User.first_name new
             = match schema.uu_first_name user_update with
               | Some v => v | None => User.first_name old end
          /\ User.last_name new
             = match schema.uu_last_name user_update with
               | Some v => v | None => User.last_name old end
          /\ User.phone_number new
             = match schema.uu_phone_number user_update with
               | Some v => v | None => User.phone_number old end
          /\ find (fun u => User.id u =? User.id current_user) (users db') = Some new
          /\ (forall u, In u (users db) -> User.id u <> User.id current_user ->
                        In u (users db'))
          /\ List.length (users db') = List.length (users db)
          /\ movies db' = movies db /\ comments db' = comments db
          /\ ratings db' = ratings db).
Proof.
  unfold main.update_profile, crud.update_user. split.
  - intros ->. reflexivity.
  - intros old E _ _. rewrite E. eexists. eexists. split; [reflexivity|].
    pose proof (find_some _ _ E) as [Hin Hid]. apply Z.eqb_eq in Hid.
    proj_db. repeat split; trivial.
    + apply (find_replace User.id _ old); trivial.
    + intros u Hu Hne. now apply (map_replace_other User.id).
    + apply length_map.
Qed.

Lemma update_profile_overwrites_supplied_fields_witness :
  (exists new db',
      main.update_profile sample_db
        (schema.mkUserUpdate (Some "bobby"%string) None None None None) bob
      = (Some new, db')
      /\ User.username new = "bobby"%string
      /\ User.email new = "b@example.com"%string
      /\ In alice (users db'))
  /\ main.update_profile sample_db
       (schema.mkUserUpdate (Some "bobby"%string) None None None None)
       (User.mk 9 "N" "N" "+12345678909" "n@example.com" "nobody" "h9")
     = (None, sample_db).
Proof.
  split.
  - destruct (update_profile_overwrites_supplied_fields sample_db
                (schema.mkUserUpdate (Some "bobby"%string) None None None None) bob)
      as [_ H].
    destruct (H bob eq_refl)
      as [new [db' [H1 [_ [_ [H4 [H5 [_ [_ [_ [_ [H10 _]]]]]]]]]]]].
    { intros v u [= <-] [<-|[<-|[]]] Hne; simpl in *; [discriminate | lia]. }
    { intros v u Hv. discriminate Hv. }
    exists new, db'. split; [exact H1|]. split; [exact H4|]. split; [exact H5|].
    apply H10; [now left | simpl; lia].
  - apply (update_profile_overwrites_supplied_fields sample_db
             (schema.mkUserUpdate (Some "bobby"%string) None None None None)).
    reflexivity.
Defined.

(** ** Comments: creation, listing and deletion together *)

Lemma replies_of_snoc (cs : list Comment.t) (c : Comment.t) (x : Z) :
  replies_of (cs ++ [c]) x
  = replies_of cs x
    ++ (if opt_Z_eqb (Comment.parent_comment_id c) (Some x) then [c] else []).
Proof. unfold replies_of. now rewrite filter_app. Qed.

Lemma replies_of_next_id (cs : list Comment.t) :
  forest_ok cs = true -> replies_of cs (next_id (map Comment.id cs)) = [].
Proof.
  intros Hf. unfold replies_of. apply filter_none. intros k Hk.
  destruct (Comment.parent_comment_id k) as [p|] eqn:Hp; [|reflexivity].
  simpl. apply Z.eqb_neq.
  pose proof (parent_lt cs Hf k p Hk Hp).
  pose proof (next_id_gt (map Comment.id cs) (Comment.id k) (in_map _ _ _ Hk)). lia.
Qed.

(** A new last row does not show below a key above its parent's. *)
Lemma load_replies_fuel_snoc (cs : list Comment.t) (c : Comment.t) (f : nat) (x : Z) :
  forest_ok cs = true ->
  (forall p, Comment.parent_comment_id c = Some p -> p < x) ->
  crud.load_replies_fuel f (cs ++ [c]) x = crud.load_replies_fuel f cs x.
Proof.
  intros Hf. revert x. induction f as [|f IH]; intros x Hx; [reflexivity|].
  simpl. rewrite replies_of_snoc.
  replace (opt_Z_eqb (Comment.parent_comment_id c) (Some x)) with false.
  - rewrite app_nil_r. apply map_ext_in. intros r Hr. f_equal.
    apply replies_of_In in Hr. destruct Hr as [Hr Hp].
    pose proof (parent_lt cs Hf r x Hr Hp). apply IH. intros p Hpc.
    specialize (Hx p Hpc). lia.
  - destruct (Comment.parent_comment_id c) as [p|]; [|reflexivity].
    simpl. symmetry. apply Z.eqb_neq. specialize (Hx p eq_refl). lia.
Qed.

Lemma load_replies_snoc (cs : list Comment.t) (c : Comment.t) (x : Z) :
  forest_ok cs = true ->
  (forall p, Comment.parent_comment_id c = Some p -> p < x) ->
  crud.load_replies (cs ++ [c]) x = crud.load_replies cs x.
Proof.
  intros Hf Hx. unfold crud.load_replies.
  rewrite load_replies_fuel_snoc by assumption.
  pose proof (above_le_length cs x).
  apply (load_replies_fuel_stable cs Hf); rewrite ?length_app; simpl; lia.
Qed.

(** A comment stored under the next key starts without replies. *)
Lemma with_replies_new (cs : list Comment.t) (c : Comment.t) :
  forest_ok cs = true ->
  Comment.id c = next_id (map Comment.id cs) ->
  (forall p, Comment.parent_comment_id c = Some p -> In p (map Comment.id cs)) ->
  crud.with_replies (cs ++ [c]) c = schema.Node c [].
Proof.
  intros Hf Hid Hp. unfold crud.with_replies. f_equal.
  rewrite load_replies_snoc; trivial.
  - unfold crud.load_replies. simpl. rewrite Hid, replies_of_next_id; trivial.
  - intros p Hpc. rewrite Hid. apply next_id_gt. now apply Hp.
Qed.

(** X5.  Adding a root comment fails with 404 "Movie not found", and
    writes nothing, when no movie has the key; otherwise it stores one
    comment after the others, under a fresh key, without parent, of the
    movie and of the actor.  It never answers 400: the handler of the
    [ValueError] of [create_comment] is never reached. *)
Theorem add_comment_outcomes (db : DB) (movie_id : Z) (comment : schema.CommentCreate)
    (current_user : User.t) :
  (has_movie db movie_id = false ->
   main.add_comment db movie_id comment current_user
   = (Raise (HTTPException 404 "Movie not found"), db))
  /\ (has_movie db movie_id = true ->
      exists c,
        main.add_comment db movie_id comment current_user
        = (Return c, mkDB (users db) (movies db) (comments db ++ [c]) (ratings db))
        /\ Comment.parent_comment_id c = None
        /\ Comment.movie_id c = movie_id
        /\ Comment.user_id c = User.id current_user
        /\ Comment.comment_text c = schema.comment_text comment
        /\ Comment.id c = next_id (map Comment.id (comments db))
        /\ ~ In (Comment.id c) (map Comment.id (comments db)))
  /\ status_of (fst (main.add_comment db movie_id comment current_user)) <> 400.
Proof.
  unfold main.add_comment, crud.create_comment.
  destruct (find (fun m => Movie.id m =? movie_id) (movies db)) as [m|] eqn:E.
  - apply find_movie_has in E. rewrite E. split; [discriminate|]. split.
    + intros _. eexists. split; [reflexivity|]. repeat split.
      simpl. apply next_id_fresh.
    + simpl. lia.
  - apply has_movie_find in E. rewrite E. split; [reflexivity|]. split.
    + discriminate.
    + simpl. lia.
Qed.

Lemma add_comment_outcomes_witness :
  main.add_comment sample_db 9999 (schema.mkCommentCreate "Nice") bob
  = (Raise (HTTPException 404 "Movie not found"), sample_db)
  /\ exists c,
       fst (main.add_comment sample_db 2 (schema.mkCommentCreate "Nice") bob) = Return c
       /\ Comment.id c = 8 /\ Comment.parent_comment_id c = None.
Proof.
  split.
  - apply (add_comment_outcomes sample_db 9999 (schema.mkCommentCreate "Nice") bob).
    reflexivity.
  - destruct (add_comment_outcomes sample_db 2 (schema.mkCommentCreate "Nice") bob)
      as [_ [H _]].
    destruct (H eq_refl) as [c [Hc [Hp [_ [_ [_ [Hid _]]]]]]].
    exists c. rewrite Hc. split; [reflexivity|]. split; [exact Hid | exact Hp].
Defined.

(** X6.  In a well-formed store, after a root comment is added to a
    movie the listing of the movie is the listing before with one more
    tree at its end, the new comment without replies, and [skip] and
    [limit] cut that list; the listing of every other movie is as
    before. *)
Theorem add_comment_then_get_comments (db db' : DB) (movie_id : Z)
    (comment : schema.CommentCreate) (current_user : User.t) (c : Comment.t)
    (skip limit : nat) :
  wf_db db = true ->
  main.add_comment db movie_id comment current_user = (Return c, db') ->
  main.get_comments db' movie_id skip limit
  = Return (firstn limit
              (skipn skip
                 (map (crud.with_replies (comments db)) (root_comments db movie_id)
                  ++ [schema.Node c []])))
  /\ forall other, other <> movie_id ->
       main.get_comments db' other skip limit = main.get_comments db other skip limit.
Proof.
  intros Hwf Hadd.
  apply wf_db_spec in Hwf. destruct Hwf as [Hc _].
  apply wf_comments_spec in Hc. destruct Hc as [Hnd Hf].
  unfold main.add_comment in Hadd.
  destruct (find (fun m => Movie.id m =? movie_id) (movies db)) as [m|] eqn:E;
    [|discriminate].
  unfold crud.create_comment in Hadd. rewrite E in Hadd. injection Hadd as <- <-.
  set (c := Comment.mk (next_id (map Comment.id (comments db)))
                       (schema.comment_text comment) movie_id (User.id current_user) None).
  assert (Hold : forall r, In r (comments db) ->
             crud.with_replies (comments db ++ [c]) r = crud.with_replies (comments db) r).
  { intros r Hr. unfold crud.with_replies. f_equal.
    apply load_replies_snoc; trivial. discriminate. }
  assert (Hnew : crud.with_replies (comments db ++ [c]) c = schema.Node c []).
  { apply with_replies_new; trivial. discriminate. }
  unfold main.get_comments, crud.get_comments. proj_db. split.
  - rewrite E. f_equal. rewrite filter_app. cbn [filter].
    replace ((Comment.movie_id c =? movie_id)
             && opt_Z_eqb (Comment.parent_comment_id c) None) with true
      by (simpl; now rewrite Z.eqb_refl).
    rewrite <- firstn_map, <- skipn_map, map_app. cbn [map]. rewrite Hnew.
    do 3 f_equal. apply map_ext_in. intros r Hr. apply filter_In in Hr.
    apply Hold. tauto.
  - intros other Hne.
    destruct (find (fun k => Movie.id k =? other) (movies db)); trivial.
    f_equal. rewrite filter_app. cbn [filter].
    replace ((Comment.movie_id c =? other)
             && opt_Z_eqb (Comment.parent_comment_id c) None) with false
      by (simpl; symmetry; apply andb_false_iff; left; now apply Z.eqb_neq).
    rewrite app_nil_r. apply map_ext_in. intros r Hr.
    apply In_firstn, In_skipn, filter_In in Hr. apply Hold. tauto.
Qed.

Lemma add_comment_then_get_comments_witness :
  wf_db sample_db = true
  /\ exists c db',
       main.add_comment sample_db 2 (schema.mkCommentCreate "Nice") bob = (Return c, db')
       /\ main.get_comments db' 2 0 10
          = Return [schema.Node (Comment.mk 7 "On Ran" 2 1 None) []; schema.Node c []].
Proof.
  split; [reflexivity|].
  eexists. eexists. split; [reflexivity|].
  apply (add_comment_then_get_comments sample_db _ 2 (schema.mkCommentCreate "Nice") bob
           _ 0 10 eq_refl eq_refl).
Defined.

Lemma load_replies_fuel_S (f : nat) (cs : list Comment.t) (x : Z) :
  crud.load_replies_fuel (S f) cs x
  = map (fun reply => schema.Node reply (crud.load_replies_fuel f cs (Comment.id reply)))
        (replies_of cs x).
Proof. reflexivity. Qed.

(** X7.  In a well-formed store a reply that was added is the last of
    the replies loaded for its parent, without replies of its own, the
    replies the parent had being loaded as before; the root comments of
    every movie are the same, so that a reply never moves a page of
    [get_comments]; and the movie of the parent has one comment more. *)
Theorem add_nested_comment_extends_parent (db db' : DB) (parent_comment_id : Z)
    (comment : schema.CommentCreate) (current_user : User.t) (c : Comment.t) :
  wf_db db = true ->
  main.add_nested_comment db parent_comment_id comment current_user = (Return c, db') ->
  crud.load_replies (comments db') parent_comment_id
  = crud.load_replies (comments db) parent_comment_id ++ [schema.Node c []]
  /\ (forall movie_id, root_comments db' movie_id = root_comments db movie_id)
  /\ (forall movie_id skip limit,
        match main.get_comments db movie_id skip limit,
              main.get_comments db' movie_id skip limit with
        | Return page, Return page' => map schema.root page' = map schema.root page
        | Raise e, Raise e' => e = e'
        | _, _ => False
        end)
  /\ List.length (comments_of db' (Comment.movie_id c))
     = S (List.length (comments_of db (Comment.movie_id c)))
  /\ Comment.user_id c = User.id current_user
  /\ Comment.comment_text c = schema.comment_text comment.
Proof.
  intros Hwf Hadd.
  apply wf_db_spec in Hwf. destruct Hwf as [Hc _].
  apply wf_comments_spec in Hc. destruct Hc as [Hnd Hf].
  unfold main.add_nested_comment, crud.create_nested_comment in Hadd.
  destruct (crud.get_comment db parent_comment_id) as [parent|] eqn:E; [|discriminate].
  injection Hadd as <- <-. unfold crud.get_comment in E.
  pose proof (find_some _ _ E) as [Hpin Hpid]. apply Z.eqb_eq in Hpid.
  set (cs := comments db) in *.
  set (c := Comment.mk (next_id (map Comment.id cs)) (schema.comment_text comment)
                       (Comment.movie_id parent) (User.id current_user)
                       (Some parent_comment_id)).
  assert (Hplt : parent_comment_id < next_id (map Comment.id cs)).
  { apply next_id_gt. rewrite <- Hpid. now apply in_map. }
  assert (Hroots : forall movie_id,
             filter (fun k => (Comment.movie_id k =? movie_id)
                              && opt_Z_eqb (Comment.parent_comment_id k) None)
                    (cs ++ [c])
             = filter (fun k => (Comment.movie_id k =? movie_id)
                                && opt_Z_eqb (Comment.parent_comment_id k) None)
                      cs).
  { intros movie_id.
    rewrite filter_app. cbn [filter]. cbn [c Comment.parent_comment_id opt_Z_eqb].
    rewrite andb_false_r. apply app_nil_r. }
  proj_db. split; [|split; [exact Hroots | split; [|split; [|split; reflexivity]]]].
  - unfold crud.load_replies. rewrite length_app, Nat.add_comm.
    cbn [List.length Nat.add].
    rewrite (load_replies_fuel_S (S (List.length cs)) (cs ++ [c])).
    rewrite (load_replies_fuel_S (List.length cs) cs).
    rewrite replies_of_snoc. cbn [c Comment.parent_comment_id opt_Z_eqb].
    rewrite Z.eqb_refl, map_app. cbn [map]. f_equal.
    + apply map_ext_in. intros r Hr. f_equal.
      apply replies_of_In in Hr. destruct Hr as [Hr Hp].
      pose proof (parent_lt cs Hf r _ Hr Hp) as Hlt.
      rewrite load_replies_fuel_snoc; trivial.
      * pose proof (above_lt cs parent_comment_id r Hr Hlt).
        pose proof (above_le_length cs parent_comment_id).
        apply (load_replies_fuel_stable cs Hf); lia.
      * intros p [= <-]. exact Hlt.
    + f_equal. f_equal. rewrite load_replies_fuel_snoc; trivial.
      * rewrite load_replies_fuel_S. cbn [c Comment.id].
        now rewrite replies_of_next_id.
      * intros p [= <-]. exact Hplt.
  - intros movie_id skip limit. unfold main.get_comments, crud.get_comments. proj_db.
    destruct (find (fun m => Movie.id m =? movie_id) (movies db)); trivial.
    fold cs. rewrite Hroots, !map_map. apply map_ext. reflexivity.
  - unfold comments_of. proj_db. fold cs. rewrite filter_app, length_app.
    cbn [filter c Comment.movie_id]. rewrite Z.eqb_refl. simpl. lia.
Qed.

Lemma add_nested_comment_extends_parent_witness :
  wf_db sample_db = true
  /\ exists c db',
       main.add_nested_comment sample_db 2 (schema.mkCommentCreate "Me too") bob
       = (Return c, db')
       /\ crud.load_replies (comments db') 2
          = [schema.Node (Comment.mk 3 "Not sure" 1 1 (Some 2)) []; schema.Node c []]
       /\ root_comments db' 1 = root_comments sample_db 1.
Proof.
  split; [reflexivity|].
  eexists. eexists. split; [reflexivity|].
  destruct (add_nested_comment_extends_parent sample_db _ 2
              (schema.mkCommentCreate "Me too") bob _ eq_refl eq_refl)
    as [Hload [Hroots _]].
  split; [exact Hload | exact (Hroots 1)].
Defined.

Lemma filter_drop_new (cs : list Comment.t) (c : Comment.t) :
  Comment.id c = next_id (map Comment.id cs) ->
  filter (fun k => negb (mem_id (Comment.id k) [Comment.id c])) (cs ++ [c]) = cs.
Proof.
  intros Hid. rewrite filter_app. cbn [filter mem_id existsb].
  rewrite Z.eqb_refl. cbn [orb negb]. rewrite app_nil_r.
  apply filter_all. intros k Hk. apply negb_true_iff. cbn [mem_id existsb].
  rewrite orb_false_r. apply Z.eqb_neq. rewrite Hid.
  pose proof (next_id_gt (map Comment.id cs) (Comment.id k) (in_map _ _ _ Hk)). lia.
Qed.

(** X8.  In a well-formed store, deleting a comment right after it was
    added, as a root comment or as a reply, by its author, succeeds and
    gives back the store as it was before the comment. *)
Theorem add_then_delete_comment_restores (db : DB) (comment : schema.CommentCreate)
    (current_user : User.t) :
  wf_db db = true ->
  (forall movie_id c db',
      main.add_comment db movie_id comment current_user = (Return c, db') ->
      main.delete_comment db' (Comment.id c) current_user = (Return "success"%string, db))
  /\ (forall parent_comment_id c db',
        main.add_nested_comment db parent_comment_id comment current_user
        = (Return c, db') ->
        main.delete_comment db' (Comment.id c) current_user
        = (Return "success"%string, db)).
Proof.
  intros Hwf.
  apply wf_db_spec in Hwf. destruct Hwf as [Hc _].
  apply wf_comments_spec in Hc. destruct Hc as [Hnd Hf].
  assert (Hdel : forall c,
             Comment.id c = next_id (map Comment.id (comments db)) ->
             Comment.user_id c = User.id current_user ->
             (forall p, Comment.parent_comment_id c = Some p ->
                        In p (map Comment.id (comments db))) ->
             main.delete_comment
               (mkDB (users db) (movies db) (comments db ++ [c]) (ratings db))
               (Comment.id c) current_user
             = (Return "success"%string, db)).
  { intros c Hid Hu Hp.
    assert (Hget : crud.get_comment
                     (mkDB (users db) (movies db) (comments db ++ [c]) (ratings db))
                     (Comment.id c) = Some c).
    { unfold crud.get_comment. proj_db. now apply get_comment_snoc_new. }
    unfold main.delete_comment. rewrite Hget, Hu, Z.eqb_refl. cbn [negb]. f_equal.
    unfold crud.delete_comment. rewrite Hget. proj_db.
    unfold crud.cascade_ids. rewrite with_replies_new by assumption.
    cbn [schema.ids flat_map]. rewrite filter_drop_new by assumption.
    now destruct db. }
  split.
  - intros movie_id c db'. unfold main.add_comment.
    destruct (find (fun m => Movie.id m =? movie_id) (movies db)) as [m|] eqn:E;
      [|discriminate].
    unfold crud.create_comment. rewrite E. intros [= <- <-].
    apply Hdel; trivial. discriminate.
  - intros pid c db'. unfold main.add_nested_comment, crud.create_nested_comment.
    destruct (crud.get_comment db pid) as [parent|] eqn:E; [|discriminate].
    intros [= <- <-]. apply Hdel; trivial.
    intros p [= <-]. unfold crud.get_comment in E. apply find_some in E.
    destruct E as [Hin Hid]. apply Z.eqb_eq in Hid. rewrite <- Hid. now apply in_map.
Qed.

Lemma add_then_delete_comment_restores_witness :
  wf_db sample_db = true
  /\ main.delete_comment
       (snd (main.add_nested_comment sample_db 2 (schema.mkCommentCreate "Me too") bob))
       8 bob
     = (Return "success"%string, sample_db).
Proof.
  split; [reflexivity|].
  destruct (add_then_delete_comment_restores sample_db
              (schema.mkCommentCreate "Me too") bob eq_refl) as [_ H].
  apply (H 2 (Comment.mk 8 "Me too" 1 2 (Some 2))
           (snd (main.add_nested_comment sample_db 2
                   (schema.mkCommentCreate "Me too") bob))
           eq_refl).
Defined.

(** X9.  After a comment was deleted, neither it nor any comment that
    replied to it, directly or through other replies, is stored: looking
    one up finds nothing, replying to one is answered 400 and deleting
    one 404, whoever asks. *)
Theorem deleted_subtree_is_gone (db : DB) (comment_id : Z) (actor : User.t)
    (comment : Comment.t) (y : Z) :
  wf_db db = true ->
  crud.get_comment db comment_id = Some comment ->
  Comment.user_id comment = User.id actor ->
  y = comment_id \/ desc (comments db) comment_id y ->
  let db' := snd (main.delete_comment db comment_id actor) in
  crud.get_comment db' y = None
  /\ (forall body user,
        main.add_nested_comment db' y body user
        = (Raise (HTTPException 400 "Parent comment does not exist"), db'))
  /\ (forall user,
        main.delete_comment db' y user
        = (Raise (HTTPException 404 "Comment not found"), db')).
Proof.
  intros Hwf E Hauthor Hy db'.
  assert (Hgone : crud.get_comment db' y = None).
  { subst db'. unfold main.delete_comment. rewrite E.
    apply Z.eqb_eq in Hauthor. rewrite Hauthor. cbn [negb snd].
    unfold crud.delete_comment. rewrite E. unfold crud.get_comment in *. proj_db.
    apply wf_db_spec in Hwf. destruct Hwf as [Hc _].
    apply wf_comments_spec in Hc. destruct Hc as [_ Hf].
    apply find_some in E. destruct E as [_ Hid]. apply Z.eqb_eq in Hid.
    apply find_key_none. rewrite in_map_iff. intros [k [Hk Hin]].
    apply filter_In in Hin. destruct Hin as [_ Hkeep].
    apply negb_true_iff, mem_id_false in Hkeep. apply Hkeep.
    apply (cascade_ids_spec _ Hf). rewrite Hk, Hid. exact Hy. }
  split; [exact Hgone|]. split.
  - intros body user. unfold main.add_nested_comment, crud.create_nested_comment.
    now rewrite Hgone.
  - intros user. unfold main.delete_comment. now rewrite Hgone.
Qed.

Lemma deleted_subtree_is_gone_witness :
  wf_db sample_db = true
  /\ desc (comments sample_db) 1 3
  /\ crud.get_comment (snd (main.delete_comment sample_db 1 alice)) 3 = None.
Proof.
  assert (Hd : desc (comments sample_db) 1 3).
  { apply (desc_step _ 1 (Comment.mk 3 "Not sure" 1 1 (Some 2)) 2).
    - simpl. tauto.
    - reflexivity.
    - apply (desc_child _ 1 (Comment.mk 2 "Agreed" 1 2 (Some 1))); [simpl; tauto | reflexivity]. }
  split; [reflexivity|]. split; [exact Hd|].
  apply (deleted_subtree_is_gone sample_db 1 alice (Comment.mk 1 "Great movie!" 1 1 None) 3
           eq_refl eq_refl eq_refl (or_intror Hd)).
Defined.

(** ** Movies: ownership, update and deletion *)

Lemma find_some_iff {A : Type} (f : A -> bool) (l : list A) :
  (exists a, find f l = Some a) <-> exists a, In a l /\ f a = true.
Proof.
  split.
  - intros [a H]. exists a. now apply find_some in H.
  - intros [a [Ha Hf]]. destruct (find f l) as [b|] eqn:E; [now exists b|].
    rewrite find_none_iff in E. rewrite (E a Ha) in Hf. discriminate.
Qed.

(** X10.  Updating a movie succeeds exactly when a stored movie has the
    key and the actor as owner; so does deleting it, for an actor whose
    key is not zero. *)
Theorem movie_write_succeeds_for_owner_only (db : DB) (actor : User.t) (movie_id : Z)
    (payload : schema.MovieUpdate) (now : Z) :
  User.id actor <> 0 ->
  ((exists response db',
       main.update_movie db movie_id payload actor now = (Return response, db'))
   <-> exists m, In m (movies db) /\ Movie.id m = movie_id
                 /\ Movie.user_id m = User.id actor)
  /\ ((exists response db',
          main.delete_movie db movie_id actor = (Return response, db'))
      <-> exists m, In m (movies db) /\ Movie.id m = movie_id
                    /\ Movie.user_id m = User.id actor).
Proof.
  intros Hnz.
  assert (Hq : (exists m, In m (movies db) /\ Movie.id m = movie_id
                          /\ Movie.user_id m = User.id actor)
               <-> exists m, find (fun m => (Movie.id m =? movie_id)
                                            && (Movie.user_id m =? User.id actor))
                                  (movies db) = Some m).
  { rewrite find_some_iff. split; intros [m H]; exists m.
    - rewrite andb_true_iff, !Z.eqb_eq. tauto.
    - rewrite andb_true_iff, !Z.eqb_eq in H. tauto. }
  rewrite Hq. split.
  - unfold main.update_movie.
    destruct (find _ (movies db)) as [m|]; split.
    + intros _. now exists m.
    + intros _. eexists. eexists. reflexivity.
    + intros [r [d H]]. discriminate.
    + intros [m H]. discriminate.
  - unfold main.delete_movie, crud.delete_movie, crud.get_movie, truthy_int.
    apply Z.eqb_neq in Hnz. rewrite Hnz. cbn [negb opt_Z_eqb].
    destruct (find _ (movies db)) as [m|]; split.
    + intros _. now exists m.
    + intros _. eexists. eexists. reflexivity.
    + intros [r [d H]]. discriminate.
    + intros [m H]. discriminate.
Qed.

Lemma movie_write_succeeds_for_owner_only_witness :
  exists response db', main.delete_movie sample_db 2 bob = (Return response, db').
Proof.
  apply (movie_write_succeeds_for_owner_only sample_db bob 2
           (schema.mkMovieUpdate "Ran" None None eq_refl) 0).
  - simpl. lia.
  - exists (Movie.mk 2 "Ran" (Some "Epic"%string) (Some 725000) 2 11 11).
    simpl. tauto.
Defined.

Lemma find_owned_after_update (ms : list Movie.t) (movie_id user_id : Z)
    (old : Movie.t) (payload : schema.MovieUpdate) (now : Z) :
  find (fun m => (Movie.id m =? movie_id) && (Movie.user_id m =? user_id)) ms = Some old ->
  find (fun m => (Movie.id m =? movie_id) && (Movie.user_id m =? user_id))
       (map (fun m => if Movie.id m =? Movie.id old
                      then main.updated_movie old payload now else m) ms)
  = Some (main.updated_movie old payload now).
Proof.
  intros E. pose proof (find_some _ _ E) as [_ Hq].
  apply andb_true_iff in Hq. destruct Hq as [Hid Hown].
  apply Z.eqb_eq in Hid. apply Z.eqb_eq in Hown.
  induction ms as [|b t IH]; [discriminate|].
  cbn [find map] in *.
  destruct ((Movie.id b =? movie_id) && (Movie.user_id b =? user_id)) eqn:Eb.
  - injection E as ->. rewrite Z.eqb_refl. cbn [main.updated_movie Movie.id Movie.user_id].
    now rewrite Eb.
  - destruct (Movie.id b =? Movie.id old) eqn:Ei.
    + cbn [main.updated_movie Movie.id Movie.user_id].
      now rewrite Hid, Hown, !Z.eqb_refl.
    + rewrite Eb. now apply IH.
Qed.




Lemma updated_movie_idem (m : Movie.t) (payload : schema.MovieUpdate) (n1 n2 : Z) :
  main.updated_movie (main.updated_movie m payload n1) payload n2
  = main.updated_movie m payload n1.
Proof.
  unfold main.updated_movie at 1.
  set (m1 := main.updated_movie m payload n1).
  assert (Ht : (if String.eqb (schema.title payload) EmptyString
                then Movie.title m1 else schema.title payload) = Movie.title m1).
  { unfold m1, main.updated_movie. cbn [Movie.title].
    now destruct (String.eqb (schema.title payload) EmptyString). }
  assert (Hd : or_str (schema.description payload) (Movie.description m1)
               = Movie.description m1).
  { unfold m1, main.updated_movie, or_str. cbn [Movie.description].
    now destruct (truthy_str (schema.description payload)). }
  assert (Hr : or_date (schema.release_date payload) (Movie.release_date m1)
               = Movie.release_date m1).
  { unfold m1, main.updated_movie, or_date. cbn [Movie.release_date].
    now destruct (schema.release_date payload). }
  rewrite Ht, Hd, Hr, String.eqb_refl.
  replace (match Movie.description m1 with
           | Some a => match Movie.description m1 with
                       | Some b => String.eqb a b | None => false end
           | None => match Movie.description m1 with
                     | Some _ => false | None => true end
           end) with true
    by (destruct (Movie.description m1); [now rewrite String.eqb_refl | reflexivity]).
  replace (opt_Z_eqb (Movie.release_date m1) (Movie.release_date m1)) with true
    by (destruct (Movie.release_date m1); simpl; [now rewrite Z.eqb_refl | reflexivity]).
  cbn [andb]. now destruct m1.
Qed.

Lemma map_replace_twice {A : Type} (key : A -> Z) (x : Z) (a' : A) (l : list A) :
  key a' = x ->
  map (fun b => if key b =? x then a' else b)
      (map (fun b => if key b =? x then a' else b) l)
  = map (fun b => if key b =? x then a' else b) l.
Proof.
  intros Hk. rewrite map_map. apply map_ext. intros b.
  destruct (key b =? x) eqn:E; [|now rewrite E].
  apply Z.eqb_eq in Hk. now rewrite Hk.
Qed.

(** X12.  Sending the same update of a movie a second time changes
    nothing more: the second request succeeds with the answer of the
    first, [updated_at] included, and leaves the store of the first. *)
Theorem update_movie_twice (db db1 : DB) (actor : User.t) (movie_id : Z)
    (payload : schema.MovieUpdate) (now1 now2 : Z)
    (response : schema.MovieUpdateResponse) :
  main.update_movie db movie_id payload actor now1 = (Return response, db1) ->
  main.update_movie db1 movie_id payload actor now2 = (Return response, db1).
Proof.
  unfold main.update_movie.
  destruct (find _ (movies db)) as [m|] eqn:E; [|discriminate].
  intros [= <- <-]. proj_db.
  rewrite (find_owned_after_update (movies db) movie_id (User.id actor) m payload now1 E).
  rewrite updated_movie_idem. f_equal. f_equal.
  cbn [main.updated_movie Movie.id]. now rewrite map_replace_twice.
Qed.

Lemma update_movie_twice_witness :
  let payload := schema.mkMovieUpdate "Heat (1995)" None None eq_refl in
  let first := main.update_movie sample_db 1 payload alice 20 in
  main.update_movie (snd first) 1 payload alice 30
  = (Return (schema.mkMovieUpdateResponse 1 "Heat (1995)" (Some "Crime"%string)
               (Some 728000) 20),
     snd first).
Proof.
  cbv zeta.
  apply (update_movie_twice sample_db _ alice 1
           (schema.mkMovieUpdate "Heat (1995)" None None eq_refl) 20 30 _ eq_refl).
Defined.

Lemma no_comments_of_new_movie (db : DB) :
  wf_db db = true -> comments_of db (next_id (map Movie.id (movies db))) = [].
Proof.
  intros Hwf. apply wf_db_spec in Hwf. destruct Hwf as [_ [Hcf _]].
  unfold comments_fk in Hcf. rewrite forallb_forall in Hcf.
  unfold comments_of. apply filter_none. intros k Hk. apply Z.eqb_neq.
  specialize (Hcf k Hk). apply has_movie_spec in Hcf.
  apply next_id_gt in Hcf. lia.
Qed.

Lemma no_ratings_of_new_movie (db : DB) :
  wf_db db = true -> ratings_of db (next_id (map Movie.id (movies db))) = [].
Proof.
  intros Hwf. apply wf_db_spec in Hwf. destruct Hwf as [_ [_ [Hrf _]]].
  unfold ratings_fk in Hrf. rewrite forallb_forall in Hrf.
  unfold ratings_of. apply filter_none. intros r Hr. apply Z.eqb_neq.
  specialize (Hrf r Hr). apply has_movie_spec in Hrf.
  apply next_id_gt in Hrf. lia.
Qed.

Lemma filter_and_nil {A : Type} (f g : A -> bool) (l : list A) :
  filter f l = [] -> filter (fun a => f a && g a) l = [].
Proof.
  intros H. apply filter_none. intros a Ha.
  destruct (f a) eqn:E; [|reflexivity].
  assert (In a (filter f l)) by (apply filter_In; tauto).
  rewrite H in *. contradiction.
Qed.

(** X13.  In a well-formed store a movie that was created, with its
    description and release date given, is stored after the others under
    a fresh key with the creator as owner, and starts empty: it is read
    back with no comment, no rating and no average, its comment listing
    is empty and its average rating is 0. *)
Theorem create_movie_starts_empty (db db' : DB) (payload : schema.MovieCreate)
    (user : User.t) (now : Z) (m : Movie.t) :
  wf_db db = true ->
  schema.description payload <> None -> schema.release_date payload <> None ->
  main.create_movie db payload user now = (m, db') ->
  movies db' = movies db ++ [m]
  /\ ~ In (Movie.id m) (map Movie.id (movies db))
  /\ Movie.user_id m = User.id user
  /\ Movie.title m = schema.title payload
  /\ Movie.created_at m = now
  /\ main.get_movie_by_id db' (Movie.id m) = Return (schema.mkMovie m [] [] None)
  /\ (forall skip limit, main.get_comments db' (Movie.id m) skip limit = Return [])
  /\ main.get_average_rating db' (Movie.id m) = Return (schema.mkAverageRating 0)
  /\ users db' = users db /\ comments db' = comments db /\ ratings db' = ratings db.
Proof.
  intros Hwf _ _. unfold main.create_movie, crud.create_movie. intros [= <- <-].
  pose proof (no_comments_of_new_movie db Hwf) as Hc.
  pose proof (no_ratings_of_new_movie db Hwf) as Hr.
  unfold comments_of in Hc. unfold ratings_of in Hr.
  set (new_id := next_id (map Movie.id (movies db))) in *.
  set (m := Movie.mk new_id (schema.title payload) (schema.description payload)
                     (schema.release_date payload) (User.id user) now now).
  assert (Hfind : find (fun k => Movie.id k =? new_id) (movies db ++ [m]) = Some m).
  { rewrite find_app_none.
    - cbn [find m Movie.id]. now rewrite Z.eqb_refl.
    - apply find_key_none. apply next_id_fresh. }
  proj_db. cbn [m Movie.id Movie.user_id Movie.title Movie.created_at]. fold m.
  split; [reflexivity|]. split; [apply next_id_fresh|].
  split; [reflexivity|]. split; [reflexivity|]. split; [reflexivity|]. split.
  { unfold main.get_movie_by_id, crud.get_movie. cbn [truthy_int movies].
    rewrite Hfind. unfold crud.load_comments_with_replies, crud.get_average_rating,
      crud.rating_values. proj_db. cbn [m Movie.id].
    rewrite (filter_and_nil _ _ _ Hc), Hr. reflexivity. }
  split.
  { intros skip limit. unfold main.get_comments, crud.get_comments. proj_db.
    rewrite Hfind, (filter_and_nil _ _ _ Hc). now destruct skip, limit. }
  split; [|tauto].
  unfold main.get_average_rating, crud.get_average_rating, crud.rating_values. proj_db.
  now rewrite Hr.
Qed.

Lemma create_movie_starts_empty_witness :
  wf_db sample_db = true
  /\ exists m db',
       main.create_movie sample_db
         (schema.mkMovieUpdate "Ikiru" (Some "Drama"%string) (Some 712000) eq_refl) bob 30
       = (m, db')
       /\ Movie.id m = 3
       /\ main.get_movie_by_id db' 3 = Return (schema.mkMovie m [] [] None).
Proof.
  split; [reflexivity|].
  eexists. eexists. split; [reflexivity|]. split; [reflexivity|].
  assert (Hd : Some "Drama"%string <> None) by discriminate.
  assert (Hr : Some 712000 <> None) by discriminate.
  destruct (create_movie_starts_empty sample_db _
              (schema.mkMovieUpdate "Ikiru" (Some "Drama"%string) (Some 712000) eq_refl) bob 30 _
              eq_refl Hd Hr eq_refl) as (_ & _ & _ & _ & _ & H & _).
  exact H.
Defined.

(** X14.  In a well-formed store, deleting a movie right after it was
    created, by its creator, succeeds, answers with the created row and
    gives back the store as it was before the movie. *)
Theorem create_then_delete_movie_restores (db db' : DB) (payload : schema.MovieCreate)
    (user : User.t) (now : Z) (m : Movie.t) :
  wf_db db = true -> User.id user <> 0 ->
  schema.description payload <> None -> schema.release_date payload <> None ->
  main.create_movie db payload user now = (m, db') ->
  main.delete_movie db' (Movie.id m) user
  = (Return (schema.mkMovieDeleteResponse "success" m), db).
Proof.
  intros Hwf Hnz _ _. unfold main.create_movie, crud.create_movie. intros [= <- <-].
  pose proof (no_comments_of_new_movie db Hwf) as Hc.
  pose proof (no_ratings_of_new_movie db Hwf) as Hr.
  unfold comments_of in Hc. unfold ratings_of in Hr.
  set (new_id := next_id (map Movie.id (movies db))) in *.
  set (m := Movie.mk new_id (schema.title payload) (schema.description payload)
                     (schema.release_date payload) (User.id user) now now).
  cbn [Movie.id].
  assert (Hfresh : forall k, In k (movies db) -> Movie.id k <> new_id).
  { intros k Hk E. apply (next_id_fresh (map Movie.id (movies db))).
    fold new_id. rewrite <- E. now apply in_map. }
  unfold main.delete_movie, crud.delete_movie, crud.get_movie, truthy_int.
  apply Z.eqb_neq in Hnz. rewrite Hnz. cbn [negb opt_Z_eqb movies].
  rewrite find_app_none.
  2:{ apply find_none_iff. intros k Hk. apply andb_false_iff. left.
      apply Z.eqb_neq. now apply Hfresh. }
  cbn [find m Movie.id Movie.user_id]. rewrite !Z.eqb_refl. cbn [andb]. fold m.
  f_equal. unfold crud.delete_movie_row. proj_db. cbn [m Movie.id]. fold m.
  rewrite Hc. cbn [flat_map].
  rewrite filter_app. cbn [filter m Movie.id]. rewrite Z.eqb_refl. cbn [negb].
  rewrite app_nil_r.
  rewrite (filter_all _ (movies db)).
  2:{ intros k Hk. apply negb_true_iff, Z.eqb_neq. now apply Hfresh. }
  rewrite (filter_all _ (comments db)) by reflexivity.
  rewrite (filter_all _ (ratings db)).
  2:{ intros r Hin. apply negb_true_iff.
      destruct (Rating.movie_id r =? new_id) eqn:E; [|reflexivity].
      assert (In r (filter (fun r => Rating.movie_id r =? new_id) (ratings db)))
        by (apply filter_In; tauto).
      rewrite Hr in *. contradiction. }
  now destruct db.
Qed.

Lemma create_then_delete_movie_restores_witness :
  wf_db sample_db = true
  /\ main.delete_movie
       (snd (main.create_movie sample_db
               (schema.mkMovieUpdate "Ikiru" (Some "Drama"%string) (Some 712000) eq_refl) bob 30))
       3 bob
     = (Return (schema.mkMovieDeleteResponse "success"
                  (Movie.mk 3 "Ikiru" (Some "Drama"%string) (Some 712000) 2 30 30)),
        sample_db).
Proof.
  split; [reflexivity|].
  apply (create_then_delete_movie_restores sample_db _
           (schema.mkMovieUpdate "Ikiru" (Some "Drama"%string) (Some 712000) eq_refl) bob 30
           (Movie.mk 3 "Ikiru" (Some "Drama"%string) (Some 712000) 2 30 30)
           eq_refl).
  - simpl. lia.
  - discriminate.
  - discriminate.
  - reflexivity.
Defined.

(** X15.  In a well-formed store a successful deletion of a movie
    answers with the stored row of that key, and touches nothing of the
    other movies: their rows, their comments and their ratings are as
    before, and so are the users. *)
Theorem delete_movie_leaves_other_movies (db db' : DB) (movie_id : Z) (actor : User.t)
    (response : schema.MovieDeleteResponse) :
  wf_db db = true ->
  main.delete_movie db movie_id actor = (Return response, db') ->
  schema.message response = "success"%string
  /\ In (schema.data response) (movies db)
  /\ Movie.id (schema.data response) = movie_id
  /\ (forall m, In m (movies db') <-> In m (movies db) /\ Movie.id m <> movie_id)
  /\ (forall other, other <> movie_id -> comments_of db' other = comments_of db other)
  /\ (forall other, other <> movie_id -> ratings_of db' other = ratings_of db other)
  /\ users db' = users db.
Proof.
  intros Hwf. unfold main.delete_movie, crud.delete_movie.
  destruct (crud.get_movie db movie_id (Some (User.id actor))) as [[movie trees]|] eqn:E;
    [|discriminate].
  intros [= <- <-]. cbn [schema.message schema.data].
  assert (Hm : In movie (movies db) /\ Movie.id movie = movie_id).
  { unfold crud.get_movie in E.
    destruct (find _ (movies db)) as [m|] eqn:Ef; [|discriminate].
    injection E as <- _. apply find_some in Ef. destruct Ef as [Hin Hq].
    split; trivial.
    destruct (truthy_int (Some (User.id actor))).
    - apply andb_true_iff in Hq. destruct Hq as [Hq _]. now apply Z.eqb_eq.
    - now apply Z.eqb_eq. }
  destruct Hm as [Hin Hid].
  apply wf_db_spec in Hwf. destruct Hwf as [Hc _].
  apply wf_comments_spec in Hc. destruct Hc as [Hnd Hf].
  unfold crud.delete_movie_row, comments_of, ratings_of. proj_db. rewrite Hid.
  split; [reflexivity|]. split; [exact Hin|]. split; [reflexivity|]. split.
  { intros m. rewrite filter_In, negb_true_iff, Z.eqb_neq. tauto. }
  split; [|split; [|reflexivity]].
  - intros other Hne. apply filter_filter_keep. intros k Hk Hmk.
    apply Z.eqb_eq in Hmk. apply negb_true_iff, mem_id_false. intros Hg.
    apply in_flat_map in Hg. destruct Hg as [k0 [Hk0 Hin0]].
    apply filter_In in Hk0. destruct Hk0 as [Hk0 Hm0]. apply Z.eqb_eq in Hm0.
    apply Hne. rewrite <- Hmk, <- Hm0.
    now apply (cascade_ids_movie (comments db) Hnd Hf k0 k).
  - intros other Hne. apply filter_filter_keep. intros r Hr Hmr.
    apply Z.eqb_eq in Hmr. apply negb_true_iff, Z.eqb_neq. congruence.
Qed.

Lemma delete_movie_leaves_other_movies_witness :
  wf_db sample_db = true
  /\ comments_of (snd (main.delete_movie sample_db 1 alice)) 2 = comments_of sample_db 2.
Proof.
  split; [reflexivity|].
  destruct (delete_movie_leaves_other_movies sample_db _ 1 alice _ eq_refl eq_refl)
    as (_ & _ & _ & _ & H & _).
  apply H. lia.
Defined.

(** ** Ratings and listings *)

Lemma firstn_pages {A : Type} (a b : nat) (l : list A) :
  firstn a l ++ firstn b (skipn a l) = firstn (a + b) l.
Proof.
  revert l. induction a as [|a IH]; intros l; [reflexivity|].
  destruct l as [|x t]; simpl.
  - now destruct b.
  - now rewrite IH.
Qed.

Lemma pages_compose {A : Type} (skip a b : nat) (l : list A) :
  firstn a (skipn skip l) ++ firstn b (skipn (skip + a) l)
  = firstn (a + b) (skipn skip l).
Proof.
  rewrite (Nat.add_comm skip a), <- skipn_skipn. apply firstn_pages.
Qed.

(** X16.  A page of ratings holds ratings of the movie only, in stored
    order, as many as [limit] allows of those left after [skip]; two
    consecutive pages together are the page of their joint length, so
    that paging neither repeats nor drops a rating; and a page from 0
    that is long enough holds every rating of the movie. *)
Theorem get_ratings_pages (db : DB) (movie_id : Z) (skip a b : nat) :
  (forall r, In r (main.get_ratings db movie_id skip a) ->
             In r (ratings db) /\ Rating.movie_id r = movie_id)
  /\ List.length (main.get_ratings db movie_id skip a)
     = Nat.min a (List.length (ratings_of db movie_id) - skip)
  /\ main.get_ratings db movie_id skip a ++ main.get_ratings db movie_id (skip + a) b
     = main.get_ratings db movie_id skip (a + b)
  /\ main.get_ratings db movie_id 0 (List.length (ratings_of db movie_id))
     = ratings_of db movie_id.
Proof.
  unfold main.get_ratings, crud.get_ratings. fold (ratings_of db movie_id).
  split; [|split; [|split]].
  - intros r Hr. apply In_firstn, In_skipn in Hr. unfold ratings_of in Hr.
    apply filter_In in Hr. rewrite Z.eqb_eq in Hr. exact Hr.
  - now rewrite length_firstn, length_skipn.
  - apply pages_compose.
  - apply firstn_all.
Qed.

Lemma get_ratings_pages_witness :
  map Rating.rating (main.get_ratings sample_db 1 1 10) = [7; 8]
  /\ main.get_ratings sample_db 1 0 1 ++ main.get_ratings sample_db 1 1 2
     = main.get_ratings sample_db 1 0 3.
Proof.
  split; [reflexivity|].
  apply (get_ratings_pages sample_db 1 0 1 2).
Defined.

(** X17.  The listing of a user's movies answers "success" with movies
    that are stored and owned by that user, never another's, and from 0
    with a long enough page with all of them; the listing of all movies
    from 0 with a long enough page is the whole table; and consecutive
    pages of either listing join without repeating or dropping a
    movie. *)
Theorem movie_listings (db : DB) (user : User.t) (offset a b : nat) :
  fst (main.get_movie_for_user db user offset a) = "success"%string
  /\ (forall m, In m (snd (main.get_movie_for_user db user offset a)) ->
                In m (movies db) /\ Movie.user_id m = User.id user)
  /\ (forall m, In m (movies db) -> Movie.user_id m = User.id user ->
                In m (snd (main.get_movie_for_user db user 0 (List.length (movies db)))))
  /\ snd (main.get_movie_for_user db user offset a)
     ++ snd (main.get_movie_for_user db user (offset + a) b)
     = snd (main.get_movie_for_user db user offset (a + b))
  /\ snd (main.get_movies db 0 (List.length (movies db))) = movies db
  /\ snd (main.get_movies db offset a) ++ snd (main.get_movies db (offset + a) b)
     = snd (main.get_movies db offset (a + b)).
Proof.
  unfold main.get_movie_for_user, main.get_movies, crud.get_movie_for_user,
    crud.get_movies. cbn [fst snd skipn].
  split; [reflexivity|]. split; [|split; [|split; [|split]]].
  - intros m Hm. apply In_firstn, In_skipn, filter_In in Hm.
    rewrite Z.eqb_eq in Hm. exact Hm.
  - intros m Hm Hu. rewrite firstn_all2.
    + apply filter_In. rewrite Z.eqb_eq. tauto.
    + apply filter_length_le.
  - apply pages_compose.
  - apply firstn_all.
  - apply pages_compose.
Qed.

Lemma movie_listings_witness :
  snd (main.get_movie_for_user sample_db bob 0 10)
  = [Movie.mk 2 "Ran" (Some "Epic"%string) (Some 725000) 2 11 11]
  /\ forall m, In m (snd (main.get_movie_for_user sample_db bob 0 10)) ->
                In m (movies sample_db) /\ Movie.user_id m = User.id bob.
Proof.
  split; [reflexivity|].
  apply (movie_listings sample_db bob 0 10 0).
Defined.

(** X18.  In every store the application reaches, the average rating of
    a movie is 0.0 when it has no rating; when it has ratings, fewer
    than 2^49 of them, the average is a finite float that lies within
    1..10. *)
Theorem reachable_average_in_range (db : DB) (movie_id : Z) :
  reachable db ->
  Z.of_nat (List.length (ratings_of db movie_id)) < 2 ^ 49 ->
  exists a,
    main.get_average_rating db movie_id = Return (schema.mkAverageRating a)
    /\ ((ratings_of db movie_id = [] /\ a = 0%float)
        \/ (ratings_of db movie_id <> []
            /\ exists q, Q_of_float a = Some q /\ (1 <= q)%Q /\ (q <= 10)%Q)).
Proof.
  intros Hreach Hfew.
  destruct (reachable_keys_ranges db Hreach) as [_ Hrange].
  rewrite ratings_in_range_spec in Hrange.
  unfold main.get_average_rating, crud.get_average_rating, crud.rating_values.
  fold (ratings_of db movie_id).
  destruct (ratings_of db movie_id) as [|r rs] eqn:E.
  - exists 0%float. split; [reflexivity|]. left. split; reflexivity.
  - rewrite <- E in *.
    assert (Hne : map Rating.rating (ratings_of db movie_id) <> [])
      by (rewrite E; discriminate).
    assert (Hvals : forall v, In v (map Rating.rating (ratings_of db movie_id)) ->
                              1 <= v <= 10).
    { intros v Hv. apply in_map_iff in Hv. destruct Hv as [r' [<- Hr]].
      unfold ratings_of in Hr. apply filter_In in Hr. now apply Hrange. }
    pose proof (sum_Z_bounds _ Hvals) as [Hlo Hhi].
    rewrite length_map in Hlo, Hhi.
    rewrite (avg_nonempty _ Hne). eexists. split; [reflexivity|]. right.
    split; [rewrite E; discriminate|].
    destruct (avg_nearest_float (map Rating.rating (ratings_of db movie_id)) Hne)
      as (q & Hq & _ & Hge & Hle).
    + intros v Hv. apply Hvals in Hv. lia.
    + lia.
    + exists q. split; [exact Hq|]. rewrite length_map in Hge, Hle. split.
      * apply (Hge 1). lia.
      * apply (Hle 10). lia.
Qed.

Lemma reachable_average_in_range_witness :
  List.length (ratings_of rated_db 1) = 3%nat
  /\ exists a q,
       main.get_average_rating rated_db 1 = Return (schema.mkAverageRating a)
       /\ Q_of_float a = Some q /\ (1 <= q)%Q /\ (q <= 10)%Q.
Proof.
  split; [reflexivity|].
  destruct (reachable_average_in_range rated_db 1 rated_db_reachable)
    as (a & Ha & [[Hnone _] | (_ & q & Hq & Hlo & Hhi)]).
  - vm_compute. reflexivity.
  - discriminate Hnone.
  - exists a, q. split; [exact Ha|]. split; [exact Hq|]. split; [exact Hlo | exact Hhi].
Defined.

(** X19.  An accepted rating is stored after the others with the value
    sent, for the movie and the actor, whatever ratings the actor has
    given the movie before; the values of the movie are the values
    before followed by the new one and those of other movies are as
    before; the new average is the float quotient of the old sum plus
    the value by the old number plus one, and is within 2^-53 of that
    exact mean, relative to it, when the values before are 1 at least
    and the new sum is below 2^53. *)
Theorem add_rating_extends_values (db db' : DB) (movie_id value : Z) (actor : User.t)
    (r : Rating.t) :
  main.add_rating_request db movie_id value actor = (Return r, db') ->
  let old := crud.rating_values db movie_id in
  1 <= value <= 10
  /\ ratings db' = ratings db ++ [r]
  /\ Rating.rating r = value /\ Rating.movie_id r = movie_id
  /\ Rating.user_id r = User.id actor
  /\ ~ In (Rating.id r) (map Rating.id (ratings db))
  /\ crud.rating_values db' movie_id = old ++ [value]
  /\ (forall other, other <> movie_id ->
                    crud.rating_values db' other = crud.rating_values db other)
  /\ main.get_average_rating db' movie_id
     = Return (schema.mkAverageRating
                 (float_of_int (sum_Z old + value)
                  / float_of_int (Z.of_nat (List.length old) + 1)))
  /\ ((forall v, In v old -> 1 <= v) -> sum_Z old + value < 2 ^ 53 ->
      exists q,
        Q_of_float (float_of_int (sum_Z old + value)
                    / float_of_int (Z.of_nat (List.length old) + 1)) = Some q
        /\ (Qabs (q - exact_mean (old ++ [value]))
            <= exact_mean (old ++ [value]) * (1 # 2 ^ 53))%Q)
  /\ users db' = users db /\ movies db' = movies db /\ comments db' = comments db.
Proof.
  unfold main.add_rating_request.
  destruct (schema.parse_RatingCreate value) as [rating|e] eqn:Ep; [|discriminate].
  apply parse_RatingCreate_range in Ep. destruct Ep as [Ev Hrange].
  unfold main.add_rating.
  destruct (find _ (movies db)) as [m|]; [|discriminate].
  unfold crud.create_rating. intros [= <- <-]. cbv zeta. proj_db.
  cbn [Rating.rating Rating.movie_id Rating.user_id Rating.id].
  assert (Hvals : crud.rating_values
                    (mkDB (users db) (movies db) (comments db)
                       (ratings db ++ [Rating.mk (next_id (map Rating.id (ratings db)))
                                         (schema.rating rating) movie_id (User.id actor)]))
                    movie_id
                  = crud.rating_values db movie_id ++ [value]).
  { unfold crud.rating_values. proj_db. rewrite filter_app, map_app.
    cbn [filter Rating.movie_id]. rewrite Z.eqb_refl. cbn [map Rating.rating].
    now rewrite Ev. }
  assert (Hsum : sum_Z (crud.rating_values db movie_id ++ [value])
                 = sum_Z (crud.rating_values db movie_id) + value).
  { unfold sum_Z. rewrite fold_right_app. cbn [fold_right].
    now rewrite (fold_add_from (crud.rating_values db movie_id) (value + 0)), Z.add_0_r. }
  assert (Hlen : Z.of_nat (List.length (crud.rating_values db movie_id ++ [value]))
                 = Z.of_nat (List.length (crud.rating_values db movie_id)) + 1).
  { rewrite length_app, Nat2Z.inj_add. reflexivity. }
  assert (Hne : crud.rating_values db movie_id ++ [value] <> []).
  { destruct (crud.rating_values db movie_id); discriminate. }
  split; [exact Hrange|]. split; [reflexivity|]. split; [exact Ev|].
  split; [reflexivity|]. split; [reflexivity|]. split; [apply next_id_fresh|].
  split; [exact Hvals|]. split; [|split; [|split; [|tauto]]].
  - intros other Hne'. unfold crud.rating_values. proj_db. rewrite filter_app.
    cbn [filter Rating.movie_id].
    replace (movie_id =? other) with false by (symmetry; apply Z.eqb_neq; congruence).
    now rewrite app_nil_r.
  - unfold main.get_average_rating, crud.get_average_rating. rewrite Hvals.
    rewrite (avg_nonempty _ Hne), Hsum, Hlen. reflexivity.
  - intros Hmin Hbound. rewrite <- Hsum, <- Hlen.
    destruct (avg_nearest_float (crud.rating_values db movie_id ++ [value]) Hne)
      as (q & Hq & Hrel & _).
    + intros v Hv. apply in_app_iff in Hv. destruct Hv as [Hv|[<-|[]]]; [auto | lia].
    + rewrite Hsum. exact Hbound.
    + exists q. split; [exact Hq | exact Hrel].
Qed.

Lemma add_rating_extends_values_witness :
  exists r db',
    main.add_rating_request rated_db 1 8 alice = (Return r, db')
    /\ crud.rating_values db' 1 = [5; 7; 8; 8]
    /\ main.get_average_rating db' 1 = Return (schema.mkAverageRating 7)
    /\ exists q, Q_of_float 7 = Some q
                 /\ (Qabs (q - (28 # 4)) <= (28 # 4) * (1 # 2 ^ 53))%Q.
Proof.
  eexists. eexists. split; [reflexivity|].
  destruct (add_rating_extends_values rated_db _ 1 8 alice _ eq_refl)
    as (_ & _ & _ & _ & _ & _ & Hvals & _ & Havg & Hnear & _).
  split; [exact Hvals|]. split; [exact Havg|].
  destruct Hnear as (q & Hq & Hrel).
  - intros v Hv. vm_compute in Hv. destruct Hv as [<-|[<-|[<-|[]]]]; lia.
  - vm_compute. reflexivity.
  - exists q. split; [exact Hq | exact Hrel].
Defined.

(** ** Reading a movie with its comments *)

Lemma flat_map_map {A B C : Type} (f : A -> B) (g : B -> list C) (l : list A) :
  flat_map g (map f l) = flat_map (fun a => g (f a)) l.
Proof. induction l as [|a t IH]; simpl; [reflexivity | now rewrite IH]. Qed.

Lemma ids_list_with_replies (cs roots : list Comment.t) :
  schema.ids_list (map (crud.with_replies cs) roots)
  = flat_map (crud.cascade_ids cs) roots.
Proof. unfold schema.ids_list. now rewrite flat_map_map. Qed.

Lemma size_list_with_replies (cs roots : list Comment.t) :
  schema.size_list (map (crud.with_replies cs) roots)
  = List.length (flat_map (crud.cascade_ids cs) roots).
Proof.
  induction roots as [|r t IH]; [reflexivity|].
  cbn [map flat_map]. rewrite length_app, <- IH.
  pose proof (size_load_replies (S (List.length cs)) cs (Comment.id r)) as Hs.
  rewrite cascade_ids_unfold. cbn [List.length]. rewrite <- Hs. reflexivity.
Qed.

Lemma desc_has_parent (cs : list Comment.t) (z : Z) (a : Comment.t) :
  NoDup (map Comment.id cs) -> In a cs -> desc cs z (Comment.id a) ->
  Comment.parent_comment_id a <> None.
Proof.
  intros Hnd Ha Hd. remember (Comment.id a) as y eqn:Hy.
  destruct Hd as [c Hc Hp | c p Hc Hp _];
    assert (c = a) by (now apply (NoDup_key_inj Comment.id cs)); subst c; congruence.
Qed.

(** The reply subtrees of two root comments do not meet. *)
Lemma roots_apart (cs : list Comment.t) (a b : Comment.t) (y : Z) :
  NoDup (map Comment.id cs) -> forest_ok cs = true ->
  In a cs -> In b cs ->
  Comment.parent_comment_id a = None -> Comment.parent_comment_id b = None ->
  In y (crud.cascade_ids cs a) -> In y (crud.cascade_ids cs b) ->
  Comment.id a = Comment.id b.
Proof.
  intros Hnd Hf Ha Hb Hra Hrb Hya Hyb.
  apply (cascade_ids_spec cs Hf) in Hya. apply (cascade_ids_spec cs Hf) in Hyb.
  destruct Hya as [->|Da], Hyb as [Eb|Db].
  - assumption.
  - exfalso. now apply (desc_has_parent cs _ a Hnd Ha Db).
  - exfalso. rewrite Eb in Da. now apply (desc_has_parent cs _ b Hnd Hb Da).
  - destruct (desc_chain cs Hnd _ _ _ Da Db) as [E|[D|D]]; [assumption| |].
    + exfalso. now apply (desc_has_parent cs _ b Hnd Hb D).
    + exfalso. now apply (desc_has_parent cs _ a Hnd Ha D).
Qed.

(** X20.  In a well-formed store the comments loaded for a movie show
    every comment of the movie exactly once, as a root or below a root:
    the keys in the trees are a rearrangement of the keys of the
    movie's comments, no key occurs twice, the trees hold as many
    comments as the movie has, their roots are the root comments in
    stored order, and every tree is populated at every level. *)
Theorem load_comments_shows_each_once (db : DB) (movie_id : Z) :
  wf_db db = true ->
  let trees := crud.load_comments_with_replies db movie_id in
  Permutation (schema.ids_list trees) (map Comment.id (comments_of db movie_id))
  /\ NoDup (schema.ids_list trees)
  /\ schema.size_list trees = List.length (comments_of db movie_id)
  /\ map schema.root trees = root_comments db movie_id
  /\ forall t, In t trees -> populated (comments db) t.
Proof.
  intros Hwf trees. subst trees.
  apply wf_db_spec in Hwf. destruct Hwf as [Hc _]. pose proof Hc as Hwc.
  apply wf_comments_spec in Hc. destruct Hc as [Hnd Hf].
  unfold crud.load_comments_with_replies. fold (root_comments db movie_id).
  set (cs := comments db) in *.
  assert (Hroots : forall r, In r (root_comments db movie_id) ->
             In r cs /\ Comment.movie_id r = movie_id
             /\ Comment.parent_comment_id r = None).
  { intros r Hr. unfold root_comments in Hr. apply filter_In in Hr.
    destruct Hr as [Hr Hq]. apply andb_true_iff in Hq. rewrite Z.eqb_eq in Hq.
    destruct Hq as [Hm Hp].
    destruct (Comment.parent_comment_id r); [discriminate | tauto]. }
  assert (Hnodup : NoDup (flat_map (crud.cascade_ids cs) (root_comments db movie_id))).
  { apply (NoDup_flat_map_key Comment.id).
    - unfold root_comments. now apply NoDup_map_filter.
    - intros a _. now apply cascade_ids_NoDup.
    - intros a b y Ha Hb Hya Hyb.
      destruct (Hroots a Ha) as [Ha' [_ Hpa]]. destruct (Hroots b Hb) as [Hb' [_ Hpb]].
      now apply (roots_apart cs a b y). }
  assert (Hperm : Permutation (flat_map (crud.cascade_ids cs) (root_comments db movie_id))
                              (map Comment.id (comments_of db movie_id))).
  { apply NoDup_Permutation; trivial.
    - unfold comments_of. now apply NoDup_map_filter.
    - intros y. unfold cs. rewrite <- (delete_movie_row_by_roots db movie_id y Hwc).
      fold cs. rewrite in_flat_map, in_map_iff. split.
      + intros [k [Hk Hy]]. unfold comments_of in Hk. apply filter_In in Hk.
        destruct Hk as [Hk Hm]. apply Z.eqb_eq in Hm.
        pose proof (cascade_ids_stored cs Hf k Hk y Hy) as Hin.
        apply in_map_iff in Hin. destruct Hin as [k' [Hid Hk']].
        exists k'. split; trivial. unfold comments_of. apply filter_In.
        split; trivial. apply Z.eqb_eq. rewrite <- Hm.
        apply (cascade_ids_movie cs Hnd Hf k k'); trivial. now rewrite Hid.
      + intros [k [<- Hk]]. exists k. split; trivial.
        rewrite cascade_ids_unfold. now left. }
  rewrite ids_list_with_replies, size_list_with_replies.
  split; [exact Hperm|]. split; [exact Hnodup|]. split.
  { rewrite (Permutation_length Hperm). apply length_map. }
  split.
  { rewrite map_map. cbn [crud.with_replies schema.root]. apply map_id. }
  intros t Ht. apply in_map_iff in Ht. destruct Ht as [r [<- _]].
  now apply with_replies_populated.
Qed.

Lemma load_comments_shows_each_once_witness :
  wf_db sample_db = true
  /\ schema.ids_list (crud.load_comments_with_replies sample_db 1) = [1; 2; 3; 5; 4; 6]
  /\ map Comment.id (comments_of sample_db 1) = [1; 2; 3; 4; 5; 6]
  /\ Permutation (schema.ids_list (crud.load_comments_with_replies sample_db 1))
                 (map Comment.id (comments_of sample_db 1)).
Proof.
  split; [reflexivity|]. split; [reflexivity|]. split; [reflexivity|].
  apply (load_comments_shows_each_once sample_db 1 eq_refl).
Defined.

(** X21.  Reading a movie by its key fails with 404 "Movie not found!"
    when no movie has the key; otherwise, whoever owns the movie, it
    answers with the stored row, the comment trees of the movie, its
    ratings, and the average as the aggregate gives it: no value when
    the movie has no rating, where the average endpoint answers 0, and
    the value of the average endpoint when it has one. *)
Theorem get_movie_by_id_response (db : DB) (movie_id : Z) :
  (has_movie db movie_id = false ->
   main.get_movie_by_id db movie_id = Raise (HTTPException 404 "Movie not found!"))
  /\ (has_movie db movie_id = true ->
      exists m,
        In m (movies db) /\ Movie.id m = movie_id
        /\ main.get_movie_by_id db movie_id
           = Return (schema.mkMovie m (crud.load_comments_with_replies db movie_id)
                       (ratings_of db movie_id) (crud.get_average_rating db movie_id))
        /\ (ratings_of db movie_id = [] ->
            crud.get_average_rating db movie_id = None
            /\ main.get_average_rating db movie_id = Return (schema.mkAverageRating 0))
        /\ (ratings_of db movie_id <> [] ->
            exists mean,
              crud.get_average_rating db movie_id = Some mean
              /\ main.get_average_rating db movie_id
                 = Return (schema.mkAverageRating mean))).
Proof.
  unfold main.get_movie_by_id, crud.get_movie. cbn [truthy_int]. split.
  - intros Hno. apply has_movie_find in Hno. now rewrite Hno.
  - intros Hyes.
    destruct (find (fun m => Movie.id m =? movie_id) (movies db)) as [m|] eqn:E.
    2:{ apply has_movie_find in E. congruence. }
    pose proof (find_some _ _ E) as [Hin Hid]. apply Z.eqb_eq in Hid.
    exists m. split; [exact Hin|]. split; [exact Hid|]. rewrite Hid.
    split; [reflexivity|].
    unfold main.get_average_rating, crud.get_average_rating, crud.rating_values.
    fold (ratings_of db movie_id). split.
    + intros ->. split; reflexivity.
    + intros Hne. destruct (ratings_of db movie_id) as [|r t]; [congruence|].
      eexists. split; reflexivity.
Qed.

Lemma get_movie_by_id_response_witness :
  main.get_movie_by_id sample_db 9999 = Raise (HTTPException 404 "Movie not found!")
  /\ exists m,
       main.get_movie_by_id sample_db 2
       = Return (schema.mkMovie m [schema.Node (Comment.mk 7 "On Ran" 2 1 None) []] [] None).
Proof.
  destruct (get_movie_by_id_response sample_db 9999) as [Hno _].
  destruct (get_movie_by_id_response sample_db 2) as [_ Hyes].
  split; [exact (Hno eq_refl)|].
  destruct (Hyes eq_refl) as [m [_ [_ [H _]]]].
  exists m. exact H.
Defined.

(** ** What a deletion leaves of the listings *)

Lemma filter_comm {A : Type} (f g : A -> bool) (l : list A) :
  filter f (filter g l) = filter g (filter f l).
Proof.
  induction l as [|a t IH]; [reflexivity|]. simpl.
  destruct (f a) eqn:Hf, (g a) eqn:Hg; simpl; rewrite ?Hf, ?Hg, IH; reflexivity.
Qed.

(** Removing rows that are not below [x] does not change what is loaded
    below [x]. *)
Lemma load_replies_fuel_filter (cs : list Comment.t) (keep : Comment.t -> bool)
    (f : nat) (x : Z) :
  (forall k, In k cs -> desc cs x (Comment.id k) -> keep k = true) ->
  crud.load_replies_fuel f (filter keep cs) x = crud.load_replies_fuel f cs x.
Proof.
  revert x. induction f as [|f IH]; intros x Hx; [reflexivity|].
  rewrite !load_replies_fuel_S.
  assert (Hr : replies_of (filter keep cs) x = replies_of cs x).
  { unfold replies_of. rewrite filter_comm. apply filter_all.
    intros r Hr. apply (proj1 (replies_of_In cs x r)) in Hr. destruct Hr as [Hr Hp].
    apply Hx; trivial. now apply desc_child. }
  rewrite Hr. apply map_ext_in. intros r Hin. f_equal.
  apply replies_of_In in Hin. destruct Hin as [Hin Hp].
  apply IH. intros k Hk Hd. apply Hx; trivial.
  now apply (desc_up cs x (Comment.id r) (Comment.id k) r).
Qed.

(** X22.  In a well-formed store, after a comment was deleted the
    replies loaded for a comment that was neither deleted nor above the
    deleted one are as before.  When the deleted comment was a root
    comment, the listing of its movie is the listing before without
    that one tree, every other tree as it was; and the listing of every
    other movie is as before. *)
Theorem delete_comment_leaves_other_trees (db : DB) (comment_id : Z) (actor : User.t)
    (comment : Comment.t) :
  wf_db db = true ->
  crud.get_comment db comment_id = Some comment ->
  Comment.user_id comment = User.id actor ->
  let db' := snd (main.delete_comment db comment_id actor) in
  (forall x, x <> comment_id -> ~ desc (comments db) comment_id x ->
             ~ desc (comments db) x comment_id ->
             crud.load_replies (comments db') x = crud.load_replies (comments db) x)
  /\ (Comment.parent_comment_id comment = None ->
      forall skip limit,
        main.get_comments db' (Comment.movie_id comment) skip limit
        = Return (map (crud.with_replies (comments db))
                    (firstn limit
                       (skipn skip
                          (filter (fun r => negb (Comment.id r =? comment_id))
                                  (root_comments db (Comment.movie_id comment)))))))
  /\ (forall other skip limit,
        other <> Comment.movie_id comment ->
        main.get_comments db' other skip limit = main.get_comments db other skip limit).
Proof.
  intros Hwf E Hauthor db'.
  pose proof (wf_db_delete_comment db comment_id Hwf) as Hwf'.
  apply wf_db_spec in Hwf. destruct Hwf as [Hc [Hcf _]].
  apply wf_comments_spec in Hc. destruct Hc as [Hnd Hf].
  apply wf_db_spec in Hwf'. destruct Hwf' as [Hc' _].
  apply wf_comments_spec in Hc'. destruct Hc' as [_ Hf'].
  pose proof E as E'. unfold crud.get_comment in E'. apply find_some in E'.
  destruct E' as [Hin Hid]. apply Z.eqb_eq in Hid.
  assert (Hdb' : db' = crud.delete_comment db comment_id).
  { subst db'. unfold main.delete_comment. rewrite E.
    apply Z.eqb_eq in Hauthor. now rewrite Hauthor. }
  rewrite Hdb'. unfold crud.delete_comment in *. rewrite E in *. proj_db.
  cbn [comments] in Hf'.
  set (cs := comments db) in *.
  set (gone := crud.cascade_ids cs comment) in *.
  set (keep := fun c : Comment.t => negb (mem_id (Comment.id c) gone)) in *.
  assert (Hgone : forall y, In y gone <-> y = comment_id \/ desc cs comment_id y).
  { intros y. unfold gone. rewrite (cascade_ids_spec cs Hf). now rewrite Hid. }
  assert (Hkeep : forall k, keep k = true <-> ~ In (Comment.id k) gone).
  { intros k. unfold keep. now rewrite negb_true_iff, mem_id_false. }
  assert (Hload : forall x, x <> comment_id -> ~ desc cs comment_id x ->
                            ~ desc cs x comment_id ->
                            crud.load_replies (filter keep cs) x = crud.load_replies cs x).
  { intros x Hne Hnd1 Hnd2. unfold crud.load_replies.
    pose proof (above_le_length (filter keep cs) x).
    pose proof (filter_length_le keep cs).
    rewrite (load_replies_fuel_stable (filter keep cs) Hf'
               (S (List.length (filter keep cs))) (S (List.length cs)) x) by lia.
    apply load_replies_fuel_filter. intros k Hk Hd. apply Hkeep. rewrite Hgone.
    intros [Ek|Dk].
    - apply Hnd2. now rewrite <- Ek.
    - destruct (desc_chain cs Hnd _ _ _ Hd Dk) as [Ex|[Dx|Dx]]; tauto. }
  assert (Hroot : forall r, In r cs -> Comment.parent_comment_id r = None ->
                            ~ desc cs comment_id (Comment.id r)).
  { intros r Hr Hp Hd. now apply (desc_has_parent cs _ r Hnd Hr Hd). }
  split; [exact Hload|]. split.
  - intros Hproot skip limit. unfold main.get_comments, crud.get_comments. proj_db.
    assert (Hm : has_movie db (Comment.movie_id comment) = true).
    { unfold comments_fk in Hcf. rewrite forallb_forall in Hcf. now apply Hcf. }
    destruct (find (fun m => Movie.id m =? Comment.movie_id comment) (movies db)) eqn:Em.
    2:{ apply has_movie_find in Em. congruence. }
    f_equal. fold cs. rewrite filter_comm.
    change (root_comments db (Comment.movie_id comment))
      with (filter (fun c => (Comment.movie_id c =? Comment.movie_id comment)
                             && opt_Z_eqb (Comment.parent_comment_id c) None) cs).
    set (roots := filter (fun c => (Comment.movie_id c =? Comment.movie_id comment)
                                   && opt_Z_eqb (Comment.parent_comment_id c) None) cs).
    assert (Hsame : filter keep roots
                    = filter (fun r => negb (Comment.id r =? comment_id)) roots).
    { apply filter_ext_in. intros r Hr. unfold roots in Hr.
      apply filter_In in Hr. destruct Hr as [Hr Hq].
      apply andb_true_iff in Hq. destruct Hq as [_ Hp].
      assert (Hpr : Comment.parent_comment_id r = None)
        by (destruct (Comment.parent_comment_id r); [discriminate | reflexivity]).
      destruct (Comment.id r =? comment_id) eqn:Er.
      - apply Z.eqb_eq in Er. apply negb_false_iff, mem_id_In, Hgone. now left.
      - apply Z.eqb_neq in Er. apply Hkeep. rewrite Hgone.
        intros [H|H]; [contradiction | now apply (Hroot r)]. }
    rewrite Hsame. apply map_ext_in. intros r Hr.
    apply In_firstn, In_skipn, filter_In in Hr. destruct Hr as [Hr Hne].
    apply negb_true_iff, Z.eqb_neq in Hne.
    unfold roots in Hr. apply filter_In in Hr. destruct Hr as [Hr Hq].
    apply andb_true_iff in Hq. destruct Hq as [_ Hp].
    assert (Hpr : Comment.parent_comment_id r = None)
      by (destruct (Comment.parent_comment_id r); [discriminate | reflexivity]).
    unfold crud.with_replies. f_equal. apply Hload; trivial.
    + now apply Hroot.
    + intros Hd. rewrite <- Hid in Hd. now apply (desc_has_parent cs _ comment Hnd Hin Hd).
  - intros other skip limit Hne. unfold main.get_comments, crud.get_comments. proj_db.
    destruct (find (fun m => Movie.id m =? other) (movies db)); trivial.
    f_equal. fold cs.
    assert (Hother : forall r, In r cs -> Comment.movie_id r = other ->
                               ~ In (Comment.id r) gone).
    { intros r Hr Hmr Hg. apply Hne. rewrite <- Hmr.
      now apply (cascade_ids_movie cs Hnd Hf comment r). }
    rewrite filter_filter_keep.
    2:{ intros r Hr Hq. apply andb_true_iff in Hq. destruct Hq as [Hq _].
        apply Z.eqb_eq in Hq. apply Hkeep. now apply Hother. }
    apply map_ext_in. intros r Hr. apply In_firstn, In_skipn, filter_In in Hr.
    destruct Hr as [Hr Hq]. apply andb_true_iff in Hq. destruct Hq as [Hq Hp].
    apply Z.eqb_eq in Hq.
    assert (Hpr : Comment.parent_comment_id r = None)
      by (destruct (Comment.parent_comment_id r); [discriminate | reflexivity]).
    unfold crud.with_replies. f_equal. apply Hload.
    + intros Er. apply (Hother r Hr Hq). apply Hgone. now left.
    + now apply Hroot.
    + intros Hd. apply Hne. rewrite <- Hq. symmetry.
      apply (desc_movie cs Hnd Hf (Comment.id r) comment_id r comment); trivial.
Qed.

Lemma delete_comment_leaves_other_trees_witness :
  wf_db sample_db = true
  /\ main.get_comments (snd (main.delete_comment sample_db 4 bob)) 1 0 10
     = Return [crud.with_replies (comments sample_db) (Comment.mk 1 "Great movie!" 1 1 None);
               crud.with_replies (comments sample_db) (Comment.mk 6 "Third thread" 1 1 None)].
Proof.
  split; [reflexivity|].
  destruct (delete_comment_leaves_other_trees sample_db 4 bob
              (Comment.mk 4 "Second thread" 1 2 None) eq_refl eq_refl eq_refl)
    as [_ [H _]].
  apply (H eq_refl 0%nat 10%nat).
Defined.

(** X23.  After a movie was deleted its key is dead: reading it is
    answered 404 "Movie not found!", listing its comments, commenting
    on it, rating it with a valid value, updating it and deleting it
    again are answered 404 "Movie not found" and write nothing,
    replying to a comment it had is answered 400, and its average
    rating is 0. *)
Theorem deleted_movie_is_gone (db db' : DB) (movie_id : Z) (actor : User.t)
    (response : schema.MovieDeleteResponse) :
  main.delete_movie db movie_id actor = (Return response, db') ->
  main.get_movie_by_id db' movie_id = Raise (HTTPException 404 "Movie not found!")
  /\ (forall skip limit,
        main.get_comments db' movie_id skip limit
        = Raise (HTTPException 404 "Movie not found"))
  /\ (forall body user,
        main.add_comment db' movie_id body user
        = (Raise (HTTPException 404 "Movie not found"), db'))
  /\ (forall value user, 1 <= value <= 10 ->
        main.add_rating_request db' movie_id value user
        = (Raise (HTTPException 404 "Movie not found"), db'))
  /\ (forall payload user now,
        main.update_movie db' movie_id payload user now
        = (Raise (HTTPException 404 "Movie not found"), db'))
  /\ (forall user,
        main.delete_movie db' movie_id user
        = (Raise (HTTPException 404 "Movie not found"), db'))
  /\ (forall c body user,
        In c (comments db) -> Comment.movie_id c = movie_id ->
        main.add_nested_comment db' (Comment.id c) body user
        = (Raise (HTTPException 400 "Parent comment does not exist"), db'))
  /\ main.get_average_rating db' movie_id = Return (schema.mkAverageRating 0).
Proof.
  unfold main.delete_movie at 1. unfold crud.delete_movie.
  destruct (crud.get_movie db movie_id (Some (User.id actor))) as [[movie trees]|] eqn:E;
    [|discriminate].
  intros [= _ <-].
  assert (Hid : Movie.id movie = movie_id).
  { unfold crud.get_movie in E.
    destruct (find _ (movies db)) as [m|] eqn:Ef; [|discriminate].
    injection E as <- _. apply find_some in Ef. destruct Ef as [_ Hq].
    destruct (truthy_int (Some (User.id actor))).
    - apply andb_true_iff in Hq. destruct Hq as [Hq _]. now apply Z.eqb_eq.
    - now apply Z.eqb_eq. }
  set (db' := crud.delete_movie_row db movie).
  assert (Hnone : forall q : Movie.t -> bool,
             (forall m, q m = true -> Movie.id m = movie_id) ->
             find q (movies db') = None).
  { intros q Hq. apply find_none_iff. intros m Hm.
    unfold db', crud.delete_movie_row in Hm. cbn [movies] in Hm.
    apply filter_In in Hm. destruct Hm as [_ Hne].
    apply negb_true_iff, Z.eqb_neq in Hne.
    destruct (q m) eqn:Eq; [|reflexivity]. apply Hq in Eq. congruence. }
  assert (Hbyid : find (fun m => Movie.id m =? movie_id) (movies db') = None).
  { apply Hnone. intros m H. now apply Z.eqb_eq. }
  assert (Hget : forall u, crud.get_movie db' movie_id u = None).
  { intros u. unfold crud.get_movie.
    replace (find _ (movies db')) with (@None Movie.t); [reflexivity|].
    symmetry. apply Hnone. intros m.
    destruct (truthy_int u); [rewrite andb_true_iff|]; rewrite Z.eqb_eq; tauto. }
  split; [unfold main.get_movie_by_id; now rewrite Hget|].
  split; [intros; unfold main.get_comments, crud.get_comments; now rewrite Hbyid|].
  split; [intros; unfold main.add_comment; now rewrite Hbyid|].
  split.
  { intros value user Hv. unfold main.add_rating_request.
    rewrite (proj1 (check_rating_range value) Hv). unfold main.add_rating.
    now rewrite Hbyid. }
  split.
  { intros payload user now. unfold main.update_movie.
    replace (find _ (movies db')) with (@None Movie.t); [reflexivity|].
    symmetry. apply Hnone. intros m. rewrite andb_true_iff, Z.eqb_eq. tauto. }
  split; [intros; unfold main.delete_movie, crud.delete_movie; now rewrite Hget|].
  split.
  { intros c body user Hc Hm.
    unfold main.add_nested_comment, crud.create_nested_comment, crud.get_comment.
    replace (find _ (comments db')) with (@None Comment.t); [reflexivity|].
    symmetry. apply find_key_none. rewrite in_map_iff. intros [k [Hk Hin]].
    unfold db', crud.delete_movie_row in Hin. cbn [comments] in Hin.
    apply filter_In in Hin. destruct Hin as [_ Hkeep].
    apply negb_true_iff, mem_id_false in Hkeep. apply Hkeep.
    apply in_flat_map. exists c. split.
    - apply filter_In. split; trivial. apply Z.eqb_eq. congruence.
    - rewrite cascade_ids_unfold. left. congruence. }
  unfold main.get_average_rating, crud.get_average_rating, crud.rating_values.
  replace (filter _ (ratings db')) with (@nil Rating.t); [reflexivity|].
  symmetry. apply filter_none. intros r Hr.
  apply delete_movie_row_ratings in Hr. apply Z.eqb_neq. rewrite <- Hid. tauto.
Qed.

Lemma deleted_movie_is_gone_witness :
  main.get_comments (snd (main.delete_movie sample_db 1 alice)) 1 0 10
  = Raise (HTTPException 404 "Movie not found")
  /\ main.add_nested_comment (snd (main.delete_movie sample_db 1 alice)) 3
       (schema.mkCommentCreate "Late") bob
     = (Raise (HTTPException 400 "Parent comment does not exist"),
        snd (main.delete_movie sample_db 1 alice)).
Proof.
  destruct (deleted_movie_is_gone sample_db _ 1 alice _ eq_refl)
    as (_ & Hlist & _ & _ & _ & _ & Hreply & _).
  split; [apply Hlist|].
  apply (Hreply (Comment.mk 3 "Not sure" 1 1 (Some 2))); [simpl; tauto | reflexivity].
Defined.
